(** * Ticket lifecycle controller of form2100 (src/sender.js, class TicketSender)

    A shallow embedding of the controller: the evidence detection that
    [handleUserMessage] performs inline, the ticket registry
    ([activeTickets]), and the handlers [handleChannelCreation],
    [waitForFirstMessage], [extractUserTag], [handleUserMessage] and
    [closeTicket].

    The handlers are [async]: each runs synchronously up to an [await] and
    is resumed when the awaited platform operation settles.  The embedding
    keeps that shape: a handler is cut at its [await]s, the part after an
    [await] is a continuation stored in the state, and the platform drives
    the program by events (channel created, message created, a timer
    firing, a send or a fetch settling). *)

From Stdlib Require Import ZArith Ascii String PrimFloat.
From stdpp Require Import gmap strings list fin_maps.

Local Open Scope string_scope.
Local Open Scope Z_scope.
Local Open Scope list_scope.

(** ** Data of the platform events *)

(** [message.author]: the fields the controller reads. *)
Record author := { a_id : string; a_bot : bool }.

(** One entry of [message.attachments]; [contentType] may be [null]. *)
Record attachment := {
  att_id : string;
  att_name : string;
  att_contentType : option string;
  att_size : Z
}.

(** A [messageCreate] payload.  [content] and [attachments] are optional so
    that a payload lacking them can be written down: [None] stands for
    [undefined].  [m_mentions] is [message.mentions.users], the mentioned
    user ids in order. *)
Record message := {
  m_id : string;
  m_channel : string;
  m_author : author;
  m_content : option string;
  m_attachments : option (list attachment);
  m_mentions : list string
}.

(** A [channelCreate] payload; [parentId] is [null] outside a category. *)
Record channel := {
  c_id : string;
  c_name : string;
  c_parentId : option string
}.

(** ** Evidence detection (handleUserMessage, lines 314-369) *)

(** A text is a [string], a sequence of bytes.  The pattern only names
    ASCII characters, and no byte of a character outside ASCII is one, so
    matching on the bytes and matching on the code units of the script
    agree. *)

Module Detector.

Definition in_range (lo hi c : ascii) : bool :=
  ((N_of_ascii lo <=? N_of_ascii c) && (N_of_ascii c <=? N_of_ascii hi))%N.

(** The character class [[a-fA-F0-9]]. *)
Definition is_hex (c : ascii) : bool :=
  in_range "a" "f" c || in_range "A" "F" c || in_range "0" "9" c.

(** [[a-fA-F0-9]{n}] anchored at the head of [s]: the [n] characters
    consumed, if all are hexadecimal. *)
Fixpoint hex_run (n : nat) (s : string) : option string :=
  match n with
  | O => Some EmptyString
  | S k =>
      match s with
      | EmptyString => None
      | String c r => if is_hex c then String c <$> hex_run k r else None
      end
  end.

(** [/0x[a-fA-F0-9]{40}/] anchored at the head of [s]: the matched text. *)
Definition evm_match_here (s : string) : option string :=
  match s with
  | String c0 (String c1 r) =>
      if Ascii.eqb c0 "0" && Ascii.eqb c1 "x"
      then (fun h => String c0 (String c1 h)) <$> hex_run 40 r
      else None
  | _ => None
  end.

(** The scan of a global ([/g]) match: try every position from left to
    right; after a match of 42 characters the scan resumes behind it, which
    [skip] counts down. *)
Fixpoint match_all (skip : nat) (s : string) : list string :=
  match s with
  | EmptyString => []
  | String c r =>
      match skip with
      | S k => match_all k r
      | O =>
          match evm_match_here (String c r) with
          | Some m => m :: match_all 41 r
          | None => match_all 0 r
          end
      end
  end.

(** [content.match(evmAddressRegex)]: [null] when nothing matches,
    otherwise the array of all matches. *)
Definition evmMatches (content : string) : option (list string) :=
  match match_all 0 content with
  | [] => None
  | ms => Some ms
  end.

(** [evmMatches && evmMatches.length > 0] (line 321). *)
Definition hasNewEvmAddress (content : string) : bool :=
  match evmMatches content with
  | Some ms => bool_decide (0 < length ms)%nat
  | None => false
  end.

(** [attachment.contentType && attachment.contentType.startsWith('image/')]
    (line 350); the empty string is falsy. *)
Definition isImage (a : attachment) : bool :=
  match att_contentType a with
  | None => false
  | Some ct => negb (String.eqb ct "") && String.prefix "image/" ct
  end.

(** The attachments pushed to [imageAttachments] by the [forEach]. *)
Definition imageAttachments (atts : list attachment) : list attachment :=
  filter (fun a => isImage a = true) atts.

(** [hasNewImage] after the block of lines 339-369: the block is entered
    only when [attachments.size > 0]. *)
Definition hasNewImage (atts : list attachment) : bool :=
  if bool_decide (0 < length atts)%nat
  then existsb isImage atts
  else false.

(** The wording of the specification: the text contains a substring made
    of the prefix 0x followed by exactly 40 hexadecimal characters. *)
Definition all_hex (s : string) : Prop :=
  Forall (fun c => is_hex c = true) (list_ascii_of_string s).

Definition contains_evm_address (text : string) : Prop :=
  exists pre h suf : string,
    text = pre +:+ "0x" +:+ h +:+ suf /\ String.length h = 40%nat /\ all_hex h.

End Detector.

(** ** Configuration (constructor, lines 8-11) *)

(** [TICKET_CATEGORY] is [process.env.TICKET_CAT] ([None] when unset);
    [CLOSE_HOURS] is [parseFloat(process.env.CLOSE_HOURS) || 1], a double. *)
Record config := {
  TICKET_CATEGORY : option string;
  CLOSE_HOURS : float;
  DEBUG_MODE : bool
}.

(** The number that [Date.now()] returns at clock reading [now]: an
    integral number of milliseconds, which a double holds exactly up to
    2^53, beyond the last valid date. *)
Fixpoint number_of_pos (p : positive) : float :=
  match p with
  | xH => 1%float
  | xO q => (2 * number_of_pos q)%float
  | xI q => (2 * number_of_pos q + 1)%float
  end.

Definition number_of_Z (z : Z) : float :=
  match z with
  | Z0 => 0%float
  | Zpos p => number_of_pos p
  | Zneg p => (- number_of_pos p)%float
  end.

(** [this.CLOSE_HOURS * 60 * 60 * 1000] (line 398), multiplied from left
    to right in doubles. *)
Definition closeTimeoutMs (cfg : config) : float :=
  (CLOSE_HOURS cfg * 60 * 60 * 1000)%float.

(** [Date.now() + closeTimeoutMs] at clock reading [now] (line 399), the
    number handed to [new Date]. *)
Definition closeTime (cfg : config) (now : Z) : float :=
  (number_of_Z now + closeTimeoutMs cfg)%float.

(** A [Date] made from a number is valid when the number is finite and
    within 8.64e15 ms of the epoch; [toISOString] throws a [RangeError] on
    any other.  A comparison with NaN is false. *)
Definition valid_date (t : float) : bool :=
  (abs t <=? 8640000000000000)%float.

(** The timeout that Node records for a timer made by
    [setTimeout(f, after)]: [after] itself when it lies between 1 and
    2^31 - 1, and 1 otherwise (NaN included). *)
Definition TIMEOUT_MAX : float := 2147483647%float.

Definition timerDelay (after : float) : float :=
  if ((1 <=? after) && (after <=? TIMEOUT_MAX))%float then after else 1%float.

(** [a !== b] for a [string | null] against a [string | undefined]: only
    two equal strings are strictly equal. *)
Definition strict_eq (a b : option string) : bool :=
  match a, b with
  | Some x, Some y => String.eqb x y
  | _, _ => false
  end.

(** ** Tickets, statistics, log *)

(** The [ticketData] object (lines 185-193) with the two fields that
    completion adds (lines 393-394). *)
Record ticket := {
  channelId : string;
  userTag : string;
  createdAt : Z;
  awaitingResponse : bool;
  hasEvmAddress : bool;
  hasImage : bool;
  initialMessageId : string;
  completedAt : option Z;
  formMessageId : option string
}.

(** [this.stats] (lines 17-24). *)
Record statistics := {
  ticketsCreated : nat;
  ticketsCompleted : nat;
  ticketsClosed : nat;
  slashCommandsExecuted : nat;
  errors : nat;
  startTime : Z
}.

Inductive level := INFO | DEBUG | ERROR.

(** What an [await] can throw, the [TypeError] of reading a property of
    [undefined], and the [RangeError] of [toISOString] on an invalid
    date. *)
Inductive js_error :=
| TypeError
| RangeError
| PlatformError (reason : string).

(** The outcome of an awaited promise. *)
Inductive settled (A : Type) :=
| Fulfilled (a : A)
| Rejected (e : js_error).
Arguments Fulfilled {A} a.
Arguments Rejected {A} e.

(** One call of [log]: level, message, and the error for [logError].  The
    message is kept without its leading emoji; the context object of the
    call is not kept, only what its evaluation can throw. *)
Record log_line := {
  l_level : level;
  l_text : string;
  l_error : option js_error
}.

(** The texts the controller sends; the templates of message.js are kept
    abstract.  [Greeting tag] is
    [messages.INITIAL_MESSAGE.replace('{userTag}', tag)]. *)
Inductive outgoing :=
| Greeting (tag : string)
| FormMessage
| CloseCommand.

(** A call on the platform that returns a promise. *)
Inductive request :=
| Send (chId : string) (text : outgoing)
| Fetch (chId : string).

#[global] Instance outgoing_eq_dec : EqDecision outgoing.
Proof. solve_decision. Defined.

#[global] Instance request_eq_dec : EqDecision request.
Proof. solve_decision. Defined.

(** ** Program state *)

(** An [async] handler suspended at an [await], with the variables its
    remaining code reads. *)
Inductive cont :=
| AwaitGreeting (ch : channel) (tag : string)
| AwaitForm (t : nat) (chId : string)
| AwaitFetch (chId : string)
| AwaitClose (chId : string).

(** One invocation of [waitForFirstMessage]: its [messageHandler] stays
    registered on the client until a message arrives on the channel; its
    timeout timer is pending until it fires ([w_timedOut]) or is cleared
    together with the listener. *)
Record waiter := {
  w_channel : channel;
  w_timedOut : bool
}.

(** A pending [setTimeout] of lines 408-415; [ct_delay] is the timeout
    Node records for it. *)
Record close_timer := {
  ct_channel : string;
  ct_delay : float;
  ct_setAt : Z
}.

(** A value of [pendingClosures] (lines 464-468). *)
Record closure_record := {
  closedAt : Z;
  method : string;
  command : string
}.

(** [heap] holds the ticket objects, [activeTickets] maps a channel id to
    the object it references: a handler that fetched a ticket keeps
    mutating that object across its [await].  [requests] lists the
    platform calls issued so far, oldest first. *)
Record state := {
  heap : list ticket;
  activeTickets : gmap string nat;
  pendingClosures : gmap string closure_record;
  stats : statistics;
  waiters : list (nat * waiter);
  closeTimers : gmap nat close_timer;
  inflight : gmap nat cont;
  requests : list request;
  console : list log_line
}.

Definition set_heap (f : list ticket -> list ticket) (s : state) : state :=
  {| heap := f (heap s); activeTickets := activeTickets s;
     pendingClosures := pendingClosures s; stats := stats s;
     waiters := waiters s; closeTimers := closeTimers s;
     inflight := inflight s; requests := requests s; console := console s |}.

Definition set_activeTickets (f : gmap string nat -> gmap string nat) (s : state) : state :=
  {| heap := heap s; activeTickets := f (activeTickets s);
     pendingClosures := pendingClosures s; stats := stats s;
     waiters := waiters s; closeTimers := closeTimers s;
     inflight := inflight s; requests := requests s; console := console s |}.

Definition set_pendingClosures
    (f : gmap string closure_record -> gmap string closure_record) (s : state) : state :=
  {| heap := heap s; activeTickets := activeTickets s;
     pendingClosures := f (pendingClosures s); stats := stats s;
     waiters := waiters s; closeTimers := closeTimers s;
     inflight := inflight s; requests := requests s; console := console s |}.

Definition set_stats (f : statistics -> statistics) (s : state) : state :=
  {| heap := heap s; activeTickets := activeTickets s;
     pendingClosures := pendingClosures s; stats := f (stats s);
     waiters := waiters s; closeTimers := closeTimers s;
     inflight := inflight s; requests := requests s; console := console s |}.

Definition set_waiters (f : list (nat * waiter) -> list (nat * waiter)) (s : state) : state :=
  {| heap := heap s; activeTickets := activeTickets s;
     pendingClosures := pendingClosures s; stats := stats s;
     waiters := f (waiters s); closeTimers := closeTimers s;
     inflight := inflight s; requests := requests s; console := console s |}.

Definition set_closeTimers (f : gmap nat close_timer -> gmap nat close_timer) (s : state) : state :=
  {| heap := heap s; activeTickets := activeTickets s;
     pendingClosures := pendingClosures s; stats := stats s;
     waiters := waiters s; closeTimers := f (closeTimers s);
     inflight := inflight s; requests := requests s; console := console s |}.

Definition set_inflight (f : gmap nat cont -> gmap nat cont) (s : state) : state :=
  {| heap := heap s; activeTickets := activeTickets s;
     pendingClosures := pendingClosures s; stats := stats s;
     waiters := waiters s; closeTimers := closeTimers s;
     inflight := f (inflight s); requests := requests s; console := console s |}.

Definition set_requests (f : list request -> list request) (s : state) : state :=
  {| heap := heap s; activeTickets := activeTickets s;
     pendingClosures := pendingClosures s; stats := stats s;
     waiters := waiters s; closeTimers := closeTimers s;
     inflight := inflight s; requests := f (requests s); console := console s |}.

Definition set_console (f : list log_line -> list log_line) (s : state) : state :=
  {| heap := heap s; activeTickets := activeTickets s;
     pendingClosures := pendingClosures s; stats := stats s;
     waiters := waiters s; closeTimers := closeTimers s;
     inflight := inflight s; requests := requests s; console := f (console s) |}.

(** The state the constructor leaves (lines 13-30). *)
Definition newTicketSender (start : Z) : state :=
  {| heap := []; activeTickets := ∅; pendingClosures := ∅;
     stats := {| ticketsCreated := 0; ticketsCompleted := 0; ticketsClosed := 0;
                 slashCommandsExecuted := 0; errors := 0; startTime := start |};
     waiters := []; closeTimers := ∅; inflight := ∅; requests := [];
     console := [ {| l_level := INFO; l_text := "TicketSender initialized";
                     l_error := None |} ] |}.

(** ** The controller *)

Definition incr_ticketsCreated (st : statistics) : statistics :=
  {| ticketsCreated := S (ticketsCreated st); ticketsCompleted := ticketsCompleted st;
     ticketsClosed := ticketsClosed st; slashCommandsExecuted := slashCommandsExecuted st;
     errors := errors st; startTime := startTime st |}.

Definition incr_ticketsCompleted (st : statistics) : statistics :=
  {| ticketsCreated := ticketsCreated st; ticketsCompleted := S (ticketsCompleted st);
     ticketsClosed := ticketsClosed st; slashCommandsExecuted := slashCommandsExecuted st;
     errors := errors st; startTime := startTime st |}.

Definition incr_ticketsClosed (st : statistics) : statistics :=
  {| ticketsCreated := ticketsCreated st; ticketsCompleted := ticketsCompleted st;
     ticketsClosed := S (ticketsClosed st); slashCommandsExecuted := slashCommandsExecuted st;
     errors := errors st; startTime := startTime st |}.

Definition incr_errors (st : statistics) : statistics :=
  {| ticketsCreated := ticketsCreated st; ticketsCompleted := ticketsCompleted st;
     ticketsClosed := ticketsClosed st; slashCommandsExecuted := slashCommandsExecuted st;
     errors := S (errors st); startTime := startTime st |}.

(** [ticket.hasEvmAddress = true] (line 329). *)
Definition mark_address (t : ticket) : ticket :=
  {| channelId := channelId t; userTag := userTag t; createdAt := createdAt t;
     awaitingResponse := awaitingResponse t; hasEvmAddress := true;
     hasImage := hasImage t; initialMessageId := initialMessageId t;
     completedAt := completedAt t; formMessageId := formMessageId t |}.

(** [ticket.hasImage = true] (line 367). *)
Definition mark_image (t : ticket) : ticket :=
  {| channelId := channelId t; userTag := userTag t; createdAt := createdAt t;
     awaitingResponse := awaitingResponse t; hasEvmAddress := hasEvmAddress t;
     hasImage := true; initialMessageId := initialMessageId t;
     completedAt := completedAt t; formMessageId := formMessageId t |}.

(** Lines 392-394: [awaitingResponse = false], [completedAt = new Date()],
    [formMessageId = formMessage.id]. *)
Definition mark_completed (now : Z) (formId : string) (t : ticket) : ticket :=
  {| channelId := channelId t; userTag := userTag t; createdAt := createdAt t;
     awaitingResponse := false; hasEvmAddress := hasEvmAddress t;
     hasImage := hasImage t; initialMessageId := initialMessageId t;
     completedAt := Some now; formMessageId := Some formId |}.

(** [activeTickets.get(id)]: the referenced ticket object and its value. *)
Definition ticket_of (chId : string) (s : state) : option (nat * ticket) :=
  match activeTickets s !! chId with
  | Some a =>
      match heap s !! a with
      | Some t => Some (a, t)
      | None => None
      end
  | None => None
  end.

(** A promise-returning platform call: the call is issued and the rest of
    the handler is parked under an unused operation id. *)
Definition await (r : request) (k : cont) (s : state) : state :=
  set_inflight (insert (fresh (dom (inflight s))) k)
    (set_requests (fun rs => rs ++ [r]) s).

Definition waiter_ids (ws : list (nat * waiter)) : gset nat :=
  list_to_set (fst <$> ws).

Section Controller.

Context (cfg : config).

(** [log(message, context, level)] (lines 36-44). *)
Definition log (lvl : level) (text : string) (s : state) : state :=
  set_console (fun c => c ++ [ {| l_level := lvl; l_text := text; l_error := None |} ]) s.

(** [logError(message, error, context)] (lines 49-56). *)
Definition logError (text : string) (e : js_error) (s : state) : state :=
  set_console (fun c => c ++ [ {| l_level := ERROR; l_text := text; l_error := Some e |} ])
    (set_stats incr_errors s).

(** [debug(message, context)] (lines 61-65). *)
Definition debug (text : string) (s : state) : state :=
  if DEBUG_MODE cfg then log DEBUG text s else s.

(** [timer.end()] of [startTimer(operation)] (lines 70-79). *)
Definition timer_end (operation : string) (s : state) : state :=
  debug (operation +:+ " completed") s.

(** [extractUserTag(message)] (lines 250-270): the returned tag, the first
    mention if there is one and the author otherwise. *)
Definition extractUserTag (m : message) : string :=
  match m_mentions m with
  | uid :: _ => "<@" +:+ uid +:+ ">"
  | [] => "<@" +:+ a_id (m_author m) +:+ ">"
  end.

(** The debug lines of [extractUserTag]. *)
Definition extractUserTag_log (m : message) (s : state) : state :=
  let s := debug "Extracting user tag" s in
  match m_mentions m with
  | _ :: _ => debug "User tag extracted from mentions" s
  | [] => debug "User tag extracted from author" s
  end.

(** [waitForFirstMessage(channel)] up to the returned promise (lines
    214-245): the timeout timer is set and [messageHandler] registered. *)
Definition waitForFirstMessage (ch : channel) (s : state) : state :=
  let s := debug "Waiting for first message" s in
  set_waiters
    (fun ws => ws ++ [(fresh (waiter_ids ws), {| w_channel := ch; w_timedOut := false |})])
    s.

(** [handleChannelCreation(channel)] up to [await this.waitForFirstMessage]
    (lines 127-151). *)
Definition handleChannelCreation (ch : channel) (s : state) : state :=
  let s := log INFO "Channel created" s in
  if negb (strict_eq (c_parentId ch) (TICKET_CATEGORY cfg)) then
    timer_end "handleChannelCreation"
      (debug "Channel not in target category, ignoring" s)
  else
    let s := log INFO "Processing new ticket channel" s in
    let s := set_stats incr_ticketsCreated s in
    waitForFirstMessage ch s.

(** [handleChannelCreation] resumed with a first message (lines 152-177),
    up to [await channel.send].  Line 161 reads [firstMessage.content.length],
    a [TypeError] when the content is missing; the [catch] of line 201
    takes it. *)
Definition afterFirstMessage (ch : channel) (m : message) (s : state) : state :=
  match m_content m with
  | None =>
      timer_end "handleChannelCreation"
        (logError "Failed to handle channel creation" TypeError s)
  | Some _ =>
      let s := log INFO "First message received" s in
      let tag := extractUserTag m in
      let s := extractUserTag_log m s in
      if String.eqb tag "" then
        timer_end "handleChannelCreation"
          (log INFO "Could not extract user tag from first message" s)
      else
        let s := log INFO "User tag extracted" s in
        await (Send (c_id ch) (Greeting tag)) (AwaitGreeting ch tag) s
  end.

(** [handleChannelCreation] resumed with [null] (lines 152-155). *)
Definition afterNoFirstMessage (s : state) : state :=
  timer_end "handleChannelCreation" (log INFO "No first message found in channel" s).

(** The [ticketData] object of lines 185-193. *)
Definition ticketData (now : Z) (ch : channel) (tag sentId : string) : ticket :=
  {| channelId := c_id ch; userTag := tag; createdAt := now;
     awaitingResponse := true; hasEvmAddress := false; hasImage := false;
     initialMessageId := sentId; completedAt := None; formMessageId := None |}.

(** [handleChannelCreation] resumed after [channel.send] (lines 177-208):
    a new ticket object is made and [activeTickets.set] points the channel
    id at it. *)
Definition afterGreeting (now : Z) (ch : channel) (tag : string)
    (r : settled string) (s : state) : state :=
  match r with
  | Fulfilled sentId =>
      let s := log INFO "Initial automated message sent" s in
      let a := length (heap s) in
      let s := set_heap (fun h => h ++ [ticketData now ch tag sentId]) s in
      let s := set_activeTickets (insert (c_id ch) a) s in
      timer_end "handleChannelCreation" (log INFO "Ticket tracked successfully" s)
  | Rejected e =>
      timer_end "handleChannelCreation"
        (logError "Failed to handle channel creation" e s)
  end.

(** [handleUserMessage(message)] up to [await message.channel.send] (lines
    275-385).  Lines 310-311 read [message.content.length] and
    [message.attachments.size] before any detection, a [TypeError] when
    either is missing; the [catch] of line 424 takes it. *)
Definition handleUserMessage (m : message) (s : state) : state :=
  if a_bot (m_author m) then
    timer_end "handleUserMessage" (debug "Skipping bot message" s)
  else
    match ticket_of (m_channel m) s with
    | None =>
        timer_end "handleUserMessage" (debug "Message in non-tracked channel" s)
    | Some (a, t) =>
        if negb (awaitingResponse t) then
          timer_end "handleUserMessage" (debug "Ticket not awaiting response" s)
        else
          match m_content m, m_attachments m with
          | Some content, Some atts =>
              let s := log INFO "Processing user message in active ticket" s in
              let '(t, s) :=
                if Detector.hasNewEvmAddress content
                then (mark_address t, log INFO "EVM address detected in message" s)
                else (t, debug "No EVM address found in message content" s) in
              let '(t, s) :=
                if bool_decide (0 < length atts)%nat then
                  let s := foldl (fun s _ => debug "Checking attachment" s) s atts in
                  if existsb Detector.isImage atts
                  then (mark_image t, log INFO "Image attachments detected" s)
                  else (t, s)
                else (t, s) in
              let s := set_heap (insert a t) s in
              let s := log INFO "Ticket requirements check" s in
              if hasEvmAddress t && hasImage t then
                let s := log INFO "All requirements met, sending form message" s in
                await (Send (m_channel m) FormMessage) (AwaitForm a (m_channel m)) s
              else
                timer_end "handleUserMessage"
                  (debug "Requirements not yet met, waiting for more messages" s)
          | _, _ =>
              timer_end "handleUserMessage"
                (logError "Failed to handle user message" TypeError s)
          end
    end.

(** [handleUserMessage] resumed after [message.channel.send] (lines
    385-433): completion and the closure [setTimeout].  Line 405 calls
    [closeTime.toISOString()] before the timer is set, a [RangeError] when
    the close time is no valid date; the [catch] of line 424 takes it. *)
Definition afterForm (now : Z) (a : nat) (chId : string)
    (r : settled string) (s : state) : state :=
  match r with
  | Fulfilled formId =>
      let s := log INFO "Form message sent successfully" s in
      let s := set_heap (alter (mark_completed now formId) a) s in
      let s := set_stats incr_ticketsCompleted s in
      if valid_date (closeTime cfg now) then
        let s := log INFO "Scheduling automatic ticket closure" s in
        let s :=
          set_closeTimers
            (fun ts => <[fresh (dom ts) :=
                          {| ct_channel := chId;
                             ct_delay := timerDelay (closeTimeoutMs cfg);
                             ct_setAt := now |}]> ts) s in
        timer_end "handleUserMessage" s
      else
        timer_end "handleUserMessage"
          (logError "Failed to handle user message" RangeError s)
  | Rejected e =>
      timer_end "handleUserMessage" (logError "Failed to handle user message" e s)
  end.

(** [closeTicket(channelId)] up to its first [await] (lines 438-459);
    [cached] is the answer of [client.channels.cache.get(channelId)]. *)
Definition closeTicket (chId : string) (cached : option channel) (s : state) : state :=
  let s := log INFO "Starting ticket closure process by sending $close command" s in
  match cached with
  | Some ch => await (Send (c_id ch) CloseCommand) (AwaitClose chId) s
  | None =>
      let s := log INFO "Channel not found in cache, attempting to fetch" s in
      await (Fetch chId) (AwaitFetch chId) s
  end.

(** [closeTicket] resumed after [client.channels.fetch] (lines 447-459). *)
Definition afterFetch (chId : string) (r : settled (option channel)) (s : state) : state :=
  match r with
  | Fulfilled (Some ch) => await (Send (c_id ch) CloseCommand) (AwaitClose chId) s
  | Fulfilled None =>
      timer_end "closeTicket" (log INFO "Channel not found even after fetch" s)
  | Rejected e =>
      timer_end "closeTicket" (logError "Failed to fetch channel" e s)
  end.

(** [closeTicket] resumed after [channel.send('$close')] (lines 459-475). *)
Definition afterClose (now : Z) (chId : string) (r : settled string) (s : state) : state :=
  match r with
  | Fulfilled _ =>
      let s := log INFO "$close command sent successfully" s in
      let s := set_activeTickets (delete chId) s in
      let s :=
        set_pendingClosures
          (insert chId {| closedAt := now; method := "message_command";
                          command := "$close" |}) s in
      let s := set_stats incr_ticketsClosed s in
      timer_end "closeTicket" s
  | Rejected e =>
      timer_end "closeTicket" (logError "Failed to close ticket" e s)
  end.

(** The [messageHandler] closure of wait [w] called with a message of its
    channel (lines 229-240): [clearTimeout], [client.off], [timer.end()];
    [resolve(message)] resumes the handler afterwards. *)
Definition messageHandler (w : nat) (s : state) : state :=
  let s := debug "First message received" s in
  let s := set_waiters (filter (fun p => p.1 ≠ w)) s in
  timer_end "waitForFirstMessage" s.

(** The listeners of waits for the channel of [m], in registration order. *)
Definition listening (m : message) (s : state) : list (nat * waiter) :=
  filter (fun p => m_channel m = c_id (w_channel p.2)) (waiters s).

(** The part of a [messageCreate] event that concerns the waits: each
    listening [messageHandler] runs, and the handlers resolved by them
    resume once all listeners have returned; a wait that had timed out was
    resolved with [null] before and resumes nothing. *)
Definition notifyWaits (m : message) (s : state) : state :=
  let ws := listening m s in
  let s := foldl (fun s p => messageHandler p.1 s) s ws in
  foldl (fun s p =>
           if w_timedOut p.2 then s else afterFirstMessage (w_channel p.2) m s)
        s ws.

(** A [messageCreate] event (lines 93-101 and 243).  The client calls its
    listeners in registration order: [handleUserMessage], registered by
    [init], then the [messageHandler]s of the waits. *)
Definition messageCreate (m : message) (s : state) : state :=
  notifyWaits m (handleUserMessage m s).

(** The timeout timer of wait [w] fires (lines 220-226): [resolve(null)];
    the listener stays registered. *)
Definition waitTimeout (w : nat) (s : state) : state :=
  match list_find (fun p => p.1 = w) (waiters s) with
  | Some (i, (_, wt)) =>
      if w_timedOut wt then s
      else
        let s := log INFO "Timeout waiting for first message" s in
        let s :=
          set_waiters
            (insert i (w, {| w_channel := w_channel wt; w_timedOut := true |})) s in
        afterNoFirstMessage s
  | None => s
  end.

(** A closure timer fires (lines 408-415); a timer fires once. *)
Definition closeTimeout (id : nat) (cached : option channel) (s : state) : state :=
  match closeTimers s !! id with
  | Some ct =>
      let s := set_closeTimers (delete id) s in
      let s := log INFO "Executing scheduled ticket closure" s in
      closeTicket (ct_channel ct) cached s
  | None => s
  end.

(** An awaited [send] settles: the parked handler resumes. *)
Definition sendSettled (now : Z) (op : nat) (r : settled string) (s : state) : state :=
  match inflight s !! op with
  | Some (AwaitGreeting ch tag) => afterGreeting now ch tag r (set_inflight (delete op) s)
  | Some (AwaitForm a chId) => afterForm now a chId r (set_inflight (delete op) s)
  | Some (AwaitClose chId) => afterClose now chId r (set_inflight (delete op) s)
  | Some (AwaitFetch _) => s
  | None => s
  end.

(** An awaited [fetch] settles. *)
Definition fetchSettled (op : nat) (r : settled (option channel)) (s : state) : state :=
  match inflight s !! op with
  | Some (AwaitFetch chId) => afterFetch chId r (set_inflight (delete op) s)
  | _ => s
  end.

(** [logStatus()] (lines 114-122), called by the interval of [init]. *)
Definition logStatus (s : state) : state := log INFO "System Status Report" s.

(** What the platform delivers to the program: the two client events the
    program listens to, the firing of a timer it set, and the settling of
    a promise it awaits. *)
Inductive event :=
| ChannelCreate (ch : channel)
| MessageCreate (m : message)
| WaitTimeout (w : nat)
| CloseTimeout (id : nat) (cached : option channel)
| StatusInterval
| SendSettled (op : nat) (r : settled string)
| FetchSettled (op : nat) (r : settled (option channel)).

(** One turn of the event loop; [now] is what [Date.now()] and
    [new Date()] read during the turn. *)
Definition step (s : state) (ne : Z * event) : state :=
  let '(now, e) := ne in
  match e with
  | ChannelCreate ch => handleChannelCreation ch s
  | MessageCreate m => messageCreate m s
  | WaitTimeout w => waitTimeout w s
  | CloseTimeout id cached => closeTimeout id cached s
  | StatusInterval => logStatus s
  | SendSettled op r => sendSettled now op r s
  | FetchSettled op r => fetchSettled op r s
  end.

Definition run (s : state) (evs : list (Z * event)) : state :=
  foldl step s evs.

End Controller.

(** ** Observations used in the statements *)

(** The form sends issued to a channel so far. *)
Definition form_sends (chId : string) (s : state) : nat :=
  length (filter (fun r => r = Send chId FormMessage) (requests s)).

(** The state without its log. *)
Definition mute (s : state) : state := set_console (fun _ => []) s.

(** [t'] has every evidence flag that [t] has. *)
Definition evidence_le (t t' : ticket) : Prop :=
  (hasEvmAddress t = true -> hasEvmAddress t' = true) /\
  (hasImage t = true -> hasImage t' = true).

(** Every ticket object of [h] is still in [h'], with at least its
    evidence flags. *)
Definition heap_le (h h' : list ticket) : Prop :=
  forall (a : nat) (t : ticket),
    h !! a = Some t -> exists t', h' !! a = Some t' /\ evidence_le t t'.

(** The ticket after the two detections of one message were merged
    (lines 321-329 and 339-368). *)
Definition merged (t : ticket) (content : string) (atts : list attachment) : ticket :=
  let t := if Detector.hasNewEvmAddress content then mark_address t else t in
  if Detector.hasNewImage atts then mark_image t else t.

(** The tickets, the registry and the closure bookkeeping. *)
Definition registry (s : state) :=
  (heap s, activeTickets s, pendingClosures s, closeTimers s).

(** [message.author.bot] replaced by [b]. *)
Definition with_bot (b : bool) (m : message) : message :=
  {| m_id := m_id m; m_channel := m_channel m;
     m_author := {| a_id := a_id (m_author m); a_bot := b |};
     m_content := m_content m; m_attachments := m_attachments m;
     m_mentions := m_mentions m |}.

(** The greeting sends that the waits [ws] listening to the message [m]
    issue: one for each wait that has not timed out, when the message has
    its content. *)
Definition greetingsFor (m : message) (ws : list (nat * waiter)) : list request :=
  match m_content m with
  | Some _ =>
      (fun p => Send (c_id (w_channel p.2)) (Greeting (extractUserTag m)))
        <$> filter (fun p => w_timedOut p.2 = false) ws
  | None => []
  end.

(** The condition of the follow-up send in the words of the claim: the
    message qualifies (its author is no bot, the record of its channel
    awaits a response, content and attachments are there) and both flags
    of the record are true after the merge. *)
Definition followUpDue (m : message) (s : state) : bool :=
  negb (a_bot (m_author m)) &&
  match ticket_of (m_channel m) s, m_content m, m_attachments m with
  | Some (_, t), Some content, Some atts =>
      awaitingResponse t &&
      (hasEvmAddress (merged t content atts) && hasImage (merged t content atts))
  | _, _, _ => false
  end.

(** The ticket objects and the parked handlers. *)
Definition parked (s : state) := (heap s, inflight s).

(** What holds of the ticket objects in every state the program reaches:
    an object that no longer awaits a response has both flags and its
    completion time, and every parked follow-up send holds an object with
    both flags. *)
Definition completion_wf (s : state) : Prop :=
  (forall a t, heap s !! a = Some t -> awaitingResponse t = false ->
               hasEvmAddress t = true /\ hasImage t = true /\ is_Some (completedAt t)) /\
  (forall op a c, inflight s !! op = Some (AwaitForm a c) ->
                  exists t, heap s !! a = Some t /\
                            hasEvmAddress t = true /\ hasImage t = true).

(** ** A ticket followed through its life, for the concrete statements *)

Module Scenario.

Definition cfg0 : config :=
  {| TICKET_CATEGORY := Some "1001"; CLOSE_HOURS := 1%float; DEBUG_MODE := false |}.

Definition ch0 : channel :=
  {| c_id := "c1"; c_name := "ticket-0001"; c_parentId := Some "1001" |}.

Definition user : author := {| a_id := "U"; a_bot := false |}.

(** The ticket tool that opens the channel, itself a bot. *)
Definition tool : author := {| a_id := "B"; a_bot := true |}.

Definition png : attachment :=
  {| att_id := "a1"; att_name := "shot.png"; att_contentType := Some "image/png";
     att_size := 2048 |}.

Definition m_hello : message :=
  {| m_id := "m1"; m_channel := "c1"; m_author := user; m_content := Some "hello";
     m_attachments := Some []; m_mentions := [] |}.

Definition m_address : message :=
  {| m_id := "m2"; m_channel := "c1"; m_author := user;
     m_content := Some "0xABCDEF0123456789ABCDEF0123456789ABCDEF01";
     m_attachments := Some []; m_mentions := [] |}.

Definition m_image : message :=
  {| m_id := "m3"; m_channel := "c1"; m_author := user; m_content := Some "";
     m_attachments := Some [png]; m_mentions := [] |}.

(** The welcome message of the ticket tool, mentioning the requester. *)
Definition m_welcome : message :=
  {| m_id := "m0"; m_channel := "c1"; m_author := tool;
     m_content := Some "Welcome <@U>"; m_attachments := Some [];
     m_mentions := ["U"] |}.

(** A payload without [content]. *)
Definition m_no_content : message :=
  {| m_id := "m4"; m_channel := "c1"; m_author := user; m_content := None;
     m_attachments := Some [png]; m_mentions := [] |}.

(** The channel was created; the first-message wait is pending. *)
Definition s_waiting : state :=
  run cfg0 (newTicketSender 0) [(1, ChannelCreate ch0)].

(** The first message arrived and the greeting was delivered: the ticket is
    tracked. *)
Definition s_tracked : state :=
  run cfg0 s_waiting [(2, MessageCreate m_hello); (3, SendSettled 0 (Fulfilled "g1"))].

(** The address was seen. *)
Definition s_address : state := run cfg0 s_tracked [(4, MessageCreate m_address)].

(** The image was seen too; the follow-up send is in flight. *)
Definition s_sending : state := run cfg0 s_address [(5, MessageCreate m_image)].

(** The follow-up send was fulfilled: the ticket is completed and its
    closure timer pending. *)
Definition s_done : state :=
  run cfg0 s_sending [(6, SendSettled 0 (Fulfilled "f1"))].

(** The follow-up send was rejected instead. *)
Definition s_failed : state :=
  run cfg0 s_sending [(6, SendSettled 0 (Rejected (PlatformError "Missing Access")))].


(** The first message of the channel is the welcome message of the ticket
    tool. *)
Definition s_welcomed : state :=
  run cfg0 s_waiting
    [(2, MessageCreate m_welcome); (3, SendSettled 0 (Fulfilled "g1"))].

(** The closure timer of [s_done] fires and the channel cannot be
    resolved: not in the cache, and the fetch is rejected. *)
Definition s_unresolved : state :=
  run cfg0 s_done
    [(3600006, CloseTimeout 0 None);
     (3600007, FetchSettled 0 (Rejected (PlatformError "Unknown Channel")))].

(** The fetch answers nothing. *)
Definition s_fetched_nothing : state :=
  run cfg0 s_done
    [(3600006, CloseTimeout 0 None); (3600007, FetchSettled 0 (Fulfilled None))].

(** The channel is resolved but the closure send is rejected. *)
Definition s_close_rejected : state :=
  run cfg0 s_done
    [(3600006, CloseTimeout 0 (Some ch0));
     (3600007, SendSettled 0 (Rejected (PlatformError "Missing Access")))].

(** The closure send is fulfilled. *)
Definition s_closed : state :=
  run cfg0 s_done
    [(3600006, CloseTimeout 0 (Some ch0)); (3600007, SendSettled 0 (Fulfilled "x1"))].

(** A second message arrives while the follow-up send of [s_sending] is
    still in flight; then both sends are fulfilled. *)
Definition s_overlap : state :=
  run cfg0 s_sending
    [(5, MessageCreate m_hello); (6, SendSettled 0 (Fulfilled "f1"));
     (7, SendSettled 1 (Fulfilled "f2"))].

(** A second channel-created event for the channel of the completed
    ticket of [s_done]; then a message, and the delivery of the greeting
    it causes. *)
Definition s_recreated : state := run cfg0 s_done [(7, ChannelCreate ch0)].

Definition s_regreeted : state :=
  run cfg0 s_recreated [(8, MessageCreate m_hello); (9, SendSettled 0 (Fulfilled "g2"))].

(** A second channel-created event for the channel of [s_address]; the
    image message issues the follow-up send for the record of the channel
    and the greeting of the new wait; the follow-up send is fulfilled
    first, then the greeting. *)
Definition s_replaced : state :=
  run cfg0 s_address
    [(5, ChannelCreate ch0); (6, MessageCreate m_image);
     (7, SendSettled 0 (Fulfilled "f1")); (8, SendSettled 1 (Fulfilled "g2"))].

(** The same with the greeting delivered first. *)
Definition s_replaced_first : state :=
  run cfg0 s_address
    [(5, ChannelCreate ch0); (6, MessageCreate m_image);
     (7, SendSettled 1 (Fulfilled "g2")); (8, SendSettled 0 (Fulfilled "f1"))].

(** Close delays of a thousand hours, beyond what a timer of Node takes,
    and of three hundredths of an hour. *)
Definition cfg_long : config :=
  {| TICKET_CATEGORY := Some "1001"; CLOSE_HOURS := 1000%float; DEBUG_MODE := false |}.

Definition cfg_short : config :=
  {| TICKET_CATEGORY := Some "1001"; CLOSE_HOURS := 0x1.eb851eb851eb8p-6%float;
     DEBUG_MODE := false |}.

(** The same life under a close delay of ten thousand million hours, which
    puts the close time beyond the last valid date. *)
Definition cfg_far : config :=
  {| TICKET_CATEGORY := Some "1001"; CLOSE_HOURS := 10000000000%float; DEBUG_MODE := false |}.

Definition s_far : state :=
  run cfg_far (newTicketSender 0)
    [(1, ChannelCreate ch0); (2, MessageCreate m_hello);
     (3, SendSettled 0 (Fulfilled "g1")); (4, MessageCreate m_address);
     (5, MessageCreate m_image); (6, SendSettled 0 (Fulfilled "f1"))].

(** The ticket of [s_done]. *)
Definition t_done : ticket :=
  {| channelId := "c1"; userTag := "<@U>"; createdAt := 3; awaitingResponse := false;
     hasEvmAddress := true; hasImage := true; initialMessageId := "g1";
     completedAt := Some 6; formMessageId := Some "f1" |}.

(** The ticket of [s_failed]. *)
Definition t_failed : ticket :=
  {| channelId := "c1"; userTag := "<@U>"; createdAt := 3; awaitingResponse := true;
     hasEvmAddress := true; hasImage := true; initialMessageId := "g1";
     completedAt := None; formMessageId := None |}.

(** The ticket of [s_address]. *)
Definition t_address : ticket :=
  {| channelId := "c1"; userTag := "<@U>"; createdAt := 3; awaitingResponse := true;
     hasEvmAddress := true; hasImage := false; initialMessageId := "g1";
     completedAt := None; formMessageId := None |}.

(** The closure timer of [s_done]. *)
Definition timer0 : close_timer :=
  {| ct_channel := "c1"; ct_delay := timerDelay (closeTimeoutMs cfg0); ct_setAt := 6 |}.

End Scenario.

(** ** The fallback closure of the second copy of the class *)

(** [fallbackCloseTicket(channelId, channel)] (lines 1212-1243) up to
    [await channel.send]: the state after its first log line and the id of
    the channel the closure notice is sent to.  No caller exists, so no
    event of [step] leads here. *)
Definition fallbackCloseTicket (chId : string) (ch : channel) (s : state)
    : state * string :=
  (log INFO "Executing fallback ticket closure" s, c_id ch).

(** [fallbackCloseTicket] resumed after the send (lines 1231-1238): the
    inner [catch] takes a rejected send, and the clean-up follows either
    way. *)
Definition afterFallbackNotice (chId : string) (r : settled string) (s : state)
    : state :=
  let s :=
    match r with
    | Fulfilled _ => log INFO "Detailed fallback closure message sent" s
    | Rejected e => logError "Failed to send fallback closure message" e s
    end in
  let s := log INFO "Cleaning up ticket tracking" s in
  set_activeTickets (delete chId) s.

(** ** Further observations *)

(** Every registered channel id points at a ticket object that carries
    that id. *)
Definition registry_wf (s : state) : Prop :=
  forall (c : string) (a : nat),
    activeTickets s !! c = Some a ->
    exists t, heap s !! a = Some t /\ channelId t = c.

(** The parked handlers that belong to a closure: [closeTicket] waiting
    for its fetch or for its send. *)
Definition is_closing (k : cont) : bool :=
  match k with
  | AwaitFetch _ | AwaitClose _ => true
  | AwaitGreeting _ _ | AwaitForm _ _ => false
  end.

Definition closing (s : state) : nat :=
  size (filter (fun p : nat * cont => is_closing p.2 = true) (inflight s)).

(** The closures under way: timers pending and handlers parked. *)
Definition closures_pending (s : state) : nat :=
  (size (closeTimers s) + closing s)%nat.

(** The closed and the completed count with the closures under way. *)
Definition tally (s : state) : nat * nat * nat * nat :=
  (ticketsClosed (stats s), ticketsCompleted (stats s), size (closeTimers s), closing s).

(** The balance that every event keeps. *)
Definition balanced (s : state) : Prop :=
  (ticketsClosed (stats s) + closures_pending s <= ticketsCompleted (stats s))%nat.


(** ** Two channels, for the concrete statements *)

Module MoreScenario.

Import Scenario.

(** A channel of another category. *)
Definition ch_other : channel :=
  {| c_id := "c9"; c_name := "general"; c_parentId := Some "2002" |}.

(** A second ticket channel and its first message. *)
Definition ch_b : channel :=
  {| c_id := "c2"; c_name := "ticket-0002"; c_parentId := Some "1001" |}.

Definition m_hello_b : message :=
  {| m_id := "m5"; m_channel := "c2"; m_author := {| a_id := "V"; a_bot := false |};
     m_content := Some "hi"; m_attachments := Some []; m_mentions := [] |}.

(** Two tickets are tracked: the one of [c1] has its address, the one of
    [c2] is new. *)
Definition evs_two : list (Z * event) :=
  [(1, ChannelCreate ch0); (2, MessageCreate m_hello);
   (3, SendSettled 0 (Fulfilled "g1")); (4, MessageCreate m_address);
   (5, ChannelCreate ch_b); (6, MessageCreate m_hello_b);
   (7, SendSettled 0 (Fulfilled "g2"))].

End MoreScenario.

(** ** The sheet job (processSheetAndExport, src/sender.js lines 1398-1665) *)

Module Sheet.
Local Open Scope nat_scope.


(** The keys of [COLORS] (lines 1313-1318). *)
Inductive color := LIGHT_RED | LIGHT_ORANGE | VERY_LIGHT_AMBER | VERY_LIGHT_BLUE.

(** A [repeatCell] request: its range and the color it sets. *)
Record paint := {
  p_sheet : Z;
  p_startRow : nat;
  p_endRow : nat;
  p_startCol : nat;
  p_endCol : nat;
  p_color : color
}.

(** [getColorRequest(rowIndex, color, sheetId)] (lines 1331-1349). *)
Definition getColorRequest (rowIndex : nat) (c : color) (sheetId : Z) : paint :=
  {| p_sheet := sheetId; p_startRow := rowIndex; p_endRow := rowIndex + 1;
     p_startCol := 0; p_endCol := 7; p_color := c |}.

(** The request that colors the one cell of data row [i] in column [col]
    (lines 1426-1442, 1476-1492, 1521-1537). *)
Definition paintCell (sheetId : Z) (i col : nat) (c : color) : paint :=
  {| p_sheet := sheetId; p_startRow := i + 1; p_endRow := i + 2;
     p_startCol := col; p_endCol := col + 1; p_color := c |}.

(** The names every plain object inherits from [Object.prototype]. *)
Definition object_prototype_keys : list string :=
  [ "constructor"; "__defineGetter__"; "__defineSetter__"; "hasOwnProperty";
    "__lookupGetter__"; "__lookupSetter__"; "isPrototypeOf"; "propertyIsEnumerable";
    "toString"; "valueOf"; "__proto__"; "toLocaleString" ].

(** A count object such as [evmCount]: the own properties of a plain
    object.  [Some n] is the number [n]; [None] is the string that
    [(inherited || 0) + 1] makes of an inherited function or object, and
    of such a string again. *)
Definition bump (obj : gmap string (option nat)) (k : string) : gmap string (option nat) :=
  let v :=
    match obj !! k with
    | Some (Some n) => Some (S n)
    | Some None => None
    | None => if bool_decide (k ∈ object_prototype_keys) then None else Some 1%nat
    end in
  (* the setter of __proto__ drops a value that is no object *)
  if String.eqb k "__proto__" then obj else <[k := v]> obj.

(** [if (addr) evmCount[addr] = (evmCount[addr] || 0) + 1] (line 1413). *)
Definition countInto (obj : gmap string (option nat)) (c : option string)
    : gmap string (option nat) :=
  match c with
  | Some a => if String.eqb a "" then obj else bump obj a
  | None => obj
  end.

Definition countCells (cells : list (option string)) : gmap string (option nat) :=
  foldl countInto ∅ cells.

(** [evmCount[addr] > 1]: a string compares as NaN. *)
Definition is_many (v : option nat) : bool :=
  match v with
  | Some n => bool_decide (1 < n)%nat
  | None => false
  end.

(** [Object.keys(count).filter(k => count[k] > 1)] (lines 1415, 1568).  The
    job reads this array through [includes] and [length] only, so the
    order of its keys is left to the map. *)
Definition duplicateKeys (obj : gmap string (option nat)) : list string :=
  (map_to_list (filter (fun p : string * option nat => is_many p.2 = true) obj)).*1.

(** [keys.includes(x)] for a cell [x] that may be [undefined]. *)
Definition includes (keys : list string) (x : option string) : bool :=
  match x with
  | Some a => bool_decide (a ∈ keys)
  | None => false
  end.

(** An element of [validEntriesForExport] (line 1499). *)
Record entry := {
  rowIndex : nat;
  evmAddress : option string;
  userId : option string
}.

(** The counts of the summary message (lines 1626-1639); its text and its
    date are left out. *)
Record summary := {
  processedCount : nat;
  userIdDupCount : nat;
  walletDupCount : nat;
  unverifiedMembers : nat;
  exportedCount : nat
}.

(** What the job sends, in the order of its [await]s. *)
Inductive action :=
| BatchUpdate (requests : list paint)
| SendFile (lines : list (option string))
| SendSummary (sm : summary).

(** How often the cell [Some a] occurs in a column. *)
Definition occurrences (a : string) (cells : list (option string)) : nat :=
  length (filter (fun c => c = Some a) cells).

(** The number a count object holds for an ordinary key: absent before the
    first occurrence, the number of occurrences from then on. *)
Definition holds (obj : gmap string (option nat)) (a : string) (n : nat) : Prop :=
  match n with
  | O => obj !! a = None
  | S _ => obj !! a = Some (Some n)
  end.

(** The columns D and E of the sheet. *)
Definition columnD (rows : list (list string)) : list (option string) :=
  (fun row => row !! 3%nat) <$> rows.
Definition columnE (rows : list (list string)) : list (option string) :=
  (fun row => row !! 4%nat) <$> rows.

Section Job.

(** A cell of the grid data.  [isColor(cell, color)] (lines 1386-1396)
    compares floating-point channels within a tolerance; it is taken as
    given.  [userHasRole i uid] stands for the outcome of
    [await userHasRole(guild, userId, ROLE_ID)] (lines 1374-1384) when the
    entry of data row [i] is checked. *)
Context {cell : Type}.
Variable isColor : cell -> color -> bool.
Variable userHasRole : nat -> option string -> bool.

(** The data rows with their index and with [colorRows[i].values || []];
    reading [colorRows[i].values] throws a TypeError ([None]) when
    [colorRows] has no row [i].  Every loop over the rows does this read,
    the first one before anything is sent. *)
Fixpoint withColors (i : nat) (rows : list (list string))
    (colorRows : list (list cell)) : option (list (nat * list string * list cell)) :=
  match rows with
  | [] => Some []
  | row :: rest =>
      match colorRows !! i with
      | None => None
      | Some cells =>
          match withColors (S i) rest colorRows with
          | None => None
          | Some l => Some ((i, row, cells) :: l)
          end
      end
  end.

(** [alreadyColored] (line 1424). *)
Definition alreadyColored (cells : list cell) : bool :=
  match cells !! 4%nat with
  | Some c => isColor c LIGHT_ORANGE || isColor c LIGHT_RED
  | None => false
  end.

(** The loop of lines 1418-1444: column E of every row with a duplicate
    wallet address turns orange, unless that cell is orange or red. *)
Definition markWallets (sheetId : Z) (dupEvm : list string)
    (l : list (nat * list string * list cell)) : list paint :=
  flat_map (fun '(i, row, cells) =>
              if includes dupEvm (row !! 4%nat) && negb (alreadyColored cells)
              then [paintCell sheetId i 4 LIGHT_ORANGE]
              else []) l.

(** [hasColoredCell] (lines 1462-1465). *)
Definition hasColoredCell (cells : list cell) : bool :=
  existsb (fun c => isColor c LIGHT_ORANGE || isColor c LIGHT_RED ||
                    isColor c VERY_LIGHT_AMBER || isColor c VERY_LIGHT_BLUE) cells.

(** The state of the first pass (lines 1446-1501): [seenUserIds], the
    requests it pushed, [duplicateCount], [validEntriesForExport]. *)
Record pass1 := {
  seenUserIds : list (option string);
  pushed1 : list paint;
  duplicateCount : nat;
  validEntriesForExport : list entry
}.

Definition firstPassRow (sheetId : Z) (acc : pass1)
    (x : nat * list string * list cell) : pass1 :=
  let '(i, row, cells) := x in
  if hasColoredCell cells then acc
  else if bool_decide (row !! 3%nat ∈ seenUserIds acc) then
    {| seenUserIds := seenUserIds acc;
       pushed1 := pushed1 acc ++ [paintCell sheetId i 3 LIGHT_ORANGE];
       duplicateCount := S (duplicateCount acc);
       validEntriesForExport := validEntriesForExport acc |}
  else
    {| seenUserIds := seenUserIds acc ++ [row !! 3%nat];
       pushed1 := pushed1 acc;
       duplicateCount := duplicateCount acc;
       validEntriesForExport :=
         validEntriesForExport acc ++
         [ {| rowIndex := i + 1; evmAddress := row !! 4%nat; userId := row !! 3%nat |} ] |}.

Definition firstPass (sheetId : Z) (l : list (nat * list string * list cell)) : pass1 :=
  foldl (firstPassRow sheetId)
    {| seenUserIds := []; pushed1 := []; duplicateCount := 0;
       validEntriesForExport := [] |} l.

(** What the first pass keeps true of its state after the rows [done]:
    the valid entries carry the seen user ids, one each, they come in sheet
    order from rows without a colored cell, every request pushed is the
    orange cell D of a row, and no row is both a valid entry and pushed. *)
Definition pass1_ok (sheetId : Z) (done : list (nat * list string * list cell))
    (acc : pass1) : Prop :=
  userId <$> validEntriesForExport acc = seenUserIds acc /\
  NoDup (seenUserIds acc) /\
  rowIndex <$> validEntriesForExport acc `sublist_of` (fun x => x.1.1 + 1)%nat <$> done /\
  Forall (fun e => exists x, x ∈ done /\
                     e = {| rowIndex := x.1.1 + 1; evmAddress := x.1.2 !! 4%nat;
                            userId := x.1.2 !! 3%nat |} /\
                     hasColoredCell x.2 = false)
         (validEntriesForExport acc) /\
  Forall (fun p => exists x, x ∈ done /\ p = paintCell sheetId x.1.1 3 LIGHT_ORANGE)
         (pushed1 acc) /\
  (rowIndex <$> validEntriesForExport acc) ++ (p_startRow <$> pushed1 acc)
    ⊆+ (fun x => x.1.1 + 1)%nat <$> done /\
  duplicateCount acc = length (pushed1 acc).

(** The second pass (lines 1506-1546): the entries whose user lacks the
    role turn red in column D and leave the export. *)
Definition roleOf (e : entry) : bool := userHasRole (rowIndex e - 1) (userId e).

Definition markRoles (sheetId : Z) (es : list entry) : list paint :=
  flat_map (fun e => if roleOf e then []
                     else [paintCell sheetId (rowIndex e - 1) 3 LIGHT_RED]) es.

Definition finalValidEntries (es : list entry) : list entry :=
  filter (fun e => roleOf e = true) es.

(** The export filter (lines 1571-1582); [rows[entry.rowIndex - 1]] is
    read again, a TypeError when there is no such row. *)
Definition exportable (rows : list (list string)) (dupEvm dupUser : list string)
    (e : entry) : option bool :=
  match rows !! (rowIndex e - 1) with
  | None => None
  | Some row =>
      Some (negb (includes dupEvm (row !! 4%nat)) && negb (includes dupUser (row !! 3%nat)))
  end.

Fixpoint exportOf (rows : list (list string)) (dupEvm dupUser : list string)
    (es : list entry) : option (list entry) :=
  match es with
  | [] => Some []
  | e :: rest =>
      match exportable rows dupEvm dupUser e with
      | None => None
      | Some keep =>
          match exportOf rows dupEvm dupUser rest with
          | None => None
          | Some l => Some (if keep then e :: l else l)
          end
      end
  end.

(** [lastExportColor] (lines 1586-1601): the bottom-most row with an amber
    or a blue cell decides, amber first. *)
Definition hasAmber (cells : list cell) : bool :=
  existsb (fun c => isColor c VERY_LIGHT_AMBER) cells.
Definition hasBlue (cells : list cell) : bool :=
  existsb (fun c => isColor c VERY_LIGHT_BLUE) cells.

Fixpoint lastExportColorFrom (rev_rows : list (list cell)) : option color :=
  match rev_rows with
  | [] => None
  | cells :: rest =>
      if hasAmber cells then Some VERY_LIGHT_AMBER
      else if hasBlue cells then Some VERY_LIGHT_BLUE
      else lastExportColorFrom rest
  end.

Definition lastExportColor (colorRows : list (list cell)) : option color :=
  lastExportColorFrom (reverse colorRows).

(** [currentExportColor] (lines 1602-1613). *)
Definition currentExportColor (colorRows : list (list cell)) : color :=
  match lastExportColor colorRows with
  | Some VERY_LIGHT_AMBER => VERY_LIGHT_BLUE
  | Some VERY_LIGHT_BLUE => VERY_LIGHT_AMBER
  | _ => VERY_LIGHT_AMBER
  end.

(** The two arrays of duplicate keys (lines 1409-1415, 1562-1568). *)
Definition duplicateEvm (rows : list (list string)) : list string :=
  duplicateKeys (countCells (columnE rows)).

Definition duplicateUserIds (rows : list (list string)) : list string :=
  duplicateKeys (countCells (columnD rows)).

(** The entries the job exports: [exportValues] and [exportRowIndices]
    are their addresses and their row indices. *)
Definition exported (sheetId : Z) (rows : list (list string))
    (colorRows : list (list cell)) : option (list entry) :=
  match withColors 0 rows colorRows with
  | None => None
  | Some l =>
      exportOf rows (duplicateEvm rows) (duplicateUserIds rows)
        (finalValidEntries (validEntriesForExport (firstPass sheetId l)))
  end.

(** What a run of the job did: the calls it awaited, in order, and whether
    it ended by a thrown TypeError. *)
Record outcome := {
  sent : list action;
  thrown : bool
}.

(** [processSheetAndExport()] once the sheet id, the rows and the colors
    were fetched, with every awaited call fulfilled.  A call that is
    rejected ends the job there, so what happens then is a prefix of
    [sent]. *)
Definition processSheetAndExport (sheetId : Z) (rows : list (list string))
    (colorRows : list (list cell)) : outcome :=
  match withColors 0 rows colorRows with
  | None => {| sent := []; thrown := true |}
  | Some l =>
      let p1 := firstPass sheetId l in
      let valid := validEntriesForExport p1 in
      let requests :=
        markWallets sheetId (duplicateEvm rows) l ++ pushed1 p1 ++ markRoles sheetId valid in
      let first :=
        if bool_decide (0 < length requests)%nat then [BatchUpdate requests] else [] in
      match exportOf rows (duplicateEvm rows) (duplicateUserIds rows)
              (finalValidEntries valid) with
      | None => {| sent := first; thrown := true |}
      | Some es =>
          let exportValues := evmAddress <$> es in
          let exportRowIndices := rowIndex <$> es in
          let cur := currentExportColor colorRows in
          {| sent :=
               first ++
               (if bool_decide (0 < length exportValues)%nat then
                  [ SendFile exportValues;
                    SendSummary
                      {| processedCount := length rows;
                         userIdDupCount := length (duplicateUserIds rows);
                         walletDupCount := length (duplicateEvm rows);
                         unverifiedMembers := length (markRoles sheetId valid);
                         exportedCount := length exportValues |} ]
                else []) ++
               (if bool_decide (0 < length exportRowIndices)%nat then
                  [ BatchUpdate
                      ((fun idx => getColorRequest idx cur sheetId) <$> exportRowIndices) ]
                else []);
             thrown := false |}
      end
  end.

End Job.

(** The cells a request covers: its ranges are half-open, rows
    [startRowIndex, endRowIndex) by columns [startColumnIndex,
    endColumnIndex). *)
Definition cellsOf (p : paint) : list (nat * nat) :=
  flat_map (fun r => (fun c => (r, c)) <$> seq (p_startCol p) (p_endCol p - p_startCol p))
           (seq (p_startRow p) (p_endRow p - p_startRow p)).

(** Every request of every batch update of a run, in the order sent. *)
Definition requestsOf (out : outcome) : list paint :=
  flat_map (fun a => match a with BatchUpdate reqs => reqs | _ => [] end) (sent out).

(** The cells a run paints. *)
Definition painted (out : outcome) : list (nat * nat) :=
  flat_map cellsOf (requestsOf out).

End Sheet.

(** ** A sheet, for the concrete statements *)

Module SheetScenario.
Local Open Scope nat_scope.


Import Sheet.

(** A cell of the grid data, known by the color it shows, if any. *)
Definition isC (c : option color) (k : color) : bool :=
  match c, k with
  | Some LIGHT_RED, LIGHT_RED | Some LIGHT_ORANGE, LIGHT_ORANGE
  | Some VERY_LIGHT_AMBER, VERY_LIGHT_AMBER | Some VERY_LIGHT_BLUE, VERY_LIGHT_BLUE => true
  | _, _ => false
  end.

(** Seven rows: the user of the third was seen in the first, the second
    and the fourth share a wallet, the last two have nothing wrong; the user
    of the sixth lacks the role.  The eighth row of the grid data, below
    the values, shows the amber of an earlier export. *)
Definition rows0 : list (list string) :=
  [ ["t"; "a"; "b"; "u1"; "0xA"; "h"]; ["t"; "a"; "b"; "u2"; "0xB"; "h"];
    ["t"; "a"; "b"; "u1"; "0xC"; "h"]; ["t"; "a"; "b"; "u3"; "0xB"; "h"];
    ["t"; "a"; "b"; "u4"; "0xD"; "h"]; ["t"; "a"; "b"; "u5"; "0xE"; "h"];
    ["t"; "a"; "b"; "u6"; "0xF"; "h"] ].

Definition colors0 : list (list (option color)) :=
  replicate 7 (replicate 6 None) ++ [[Some VERY_LIGHT_AMBER]].

Definition role0 (i : nat) (u : option string) : bool :=
  negb (bool_decide (u = Some "u5")).

Definition exported0 : list entry :=
  [ {| rowIndex := 5; evmAddress := Some "0xD"; userId := Some "u4" |};
    {| rowIndex := 7; evmAddress := Some "0xF"; userId := Some "u6" |} ].

End SheetScenario.

(** ** The form validator (validateAndProcessFormResponses, src/script.txt) *)

Module Script.
Local Open Scope nat_scope.


Import Detector.

(** A cell of [getValues()]: a string, or a number, a boolean or a date,
    of which the script reads only what [toString()] gives. *)
Inductive value :=
| Str (s : string)
| NotStr (rendered : string).

(** [cell?.toString()] as [RegExp.test] reads it: [undefined], the cell of
    a column the row does not have, is tested as the text undefined. *)
Definition tested (c : option value) : string :=
  match c with
  | Some (Str s) => s
  | Some (NotStr s) => s
  | None => "undefined"
  end.

(** The character class [\d]. *)
Definition is_digit (c : ascii) : bool := in_range "0" "9" c.

(** [\d{0,max}] at the head of [s], greedy: the number of digits consumed
    and the rest. *)
Fixpoint digit_run (max : nat) (s : string) : nat * string :=
  match max, s with
  | S k, String c r =>
      if is_digit c then let '(n, rest) := digit_run k r in (S n, rest) else (0%nat, s)
  | _, _ => (0%nat, s)
  end.

(** The text is made of decimal digits only. *)
Definition all_digits (s : string) : Prop :=
  Forall (fun c => is_digit c = true) (list_ascii_of_string s).

(** [/^\d{7,19}$/.test(s)] (line 51): the end is required right behind the
    digits, and giving back digits cannot reach it. *)
Definition dRegex (s : string) : bool :=
  let '(n, rest) := digit_run 19 s in
  bool_decide (7 <= n)%nat && String.eqb rest "".

(** [/^0x[a-fA-F0-9]{40}$/.test(s)] (lines 59-60): the match at the head
    of [s] is all of [s]. *)
Definition evmRegex (s : string) : bool :=
  match evm_match_here s with
  | Some m => String.eqb m s
  | None => false
  end.

(** [fCell === "I'm a human"] (line 68). *)
Definition fValid (c : option value) : bool :=
  match c with
  | Some (Str s) => String.eqb s "I'm a human"
  | _ => false
  end.

(** An element of [rowsToColorRed]. *)
Record cellRef := { cr_row : nat; cr_col : nat }.

(** What the script does to the two sheets, in order: the processed mark
    [getRange(row, 1, 1, width).setBackground] (line 78), the red cell
    [getRange(row, col).setBackground] (line 85), and the rows appended
    to the target sheet by [clear], [flush] and [setValues] (lines 89-101). *)
Inductive effect :=
| MarkProcessed (row width : nat)
| MarkRed (c : cellRef)
| Append (rows : list (list value)).

(** The three checks of one row (lines 45-74): the red cells pushed and
    [!hasError]. *)
Definition checks (i : nat) (row : list value) : list cellRef * bool :=
  let dValid := dRegex (tested (row !! 3%nat)) in
  let eValid := evmRegex (tested (row !! 4%nat)) in
  let fOk := fValid (row !! 5%nat) in
  ((if dValid then [] else [ {| cr_row := i + 1; cr_col := 4 |} ]) ++
   (if eValid then [] else [ {| cr_row := i + 1; cr_col := 5 |} ]) ++
   (if fOk then [] else [ {| cr_row := i + 1; cr_col := 6 |} ]),
   dValid && eValid && fOk).

(** The state of the loop: [rowsToCopy], [rowsToColorRed] and the
    processed marks set so far. *)
Record tally := {
  rowsToCopy : list (list value);
  rowsToColorRed : list cellRef;
  marks : list effect
}.

Section Run.

(** [String.prototype.toLowerCase], taken as given. *)
Variable toLowerCase : string -> string.

Definition white : string := toLowerCase "#ffffff".
Definition lightGray : string := toLowerCase "#f8f9fa".

(** [isAlreadyColored] (lines 32-35). *)
Definition isAlreadyColored (bgRow : list string) : bool :=
  existsb (fun bg => negb (String.eqb (toLowerCase bg) white) &&
                     negb (String.eqb (toLowerCase bg) lightGray)) bgRow.

(** One turn of the loop (lines 27-81) on row [i] of the data range: its
    values and its backgrounds, both read before the loop. *)
Definition turn (i : nat) (x : list value * list string) (acc : tally) : tally :=
  let '(row, bgRow) := x in
  if isAlreadyColored bgRow then acc
  else
    let '(reds, ok) := checks i row in
    {| rowsToCopy := if ok then rowsToCopy acc ++ [row] else rowsToCopy acc;
       rowsToColorRed := rowsToColorRed acc ++ reds;
       marks := if ok then marks acc ++ [MarkProcessed (i + 1) (length row)]
                else marks acc |}.

Fixpoint loop (i : nat) (rest : list (list value * list string)) (acc : tally) : tally :=
  match rest with
  | [] => acc
  | x :: rest' => loop (S i) rest' (turn i x acc)
  end.

(** [validateAndProcessFormResponses()] on the data range of the source
    sheet, both sheets being there: the rows of [getValues()] with those of
    [getBackgrounds()], which have the dimensions of the one range.  The
    loop starts at the second row. *)
Definition validateAndProcessFormResponses (grid : list (list value * list string))
    : list effect :=
  let acc := loop 1 (drop 1 grid) {| rowsToCopy := []; rowsToColorRed := []; marks := [] |} in
  marks acc ++
  (MarkRed <$> rowsToColorRed acc) ++
  (if bool_decide (0 < length (rowsToCopy acc))%nat then [Append (rowsToCopy acc)] else []).

(** [!hasError] of a row, whatever its index. *)
Definition valid (row : list value) : bool :=
  dRegex (tested (row !! 3%nat)) && evmRegex (tested (row !! 4%nat)) && fValid (row !! 5%nat).

(** A row of the range the script copies: no colored cell, no error. *)
Definition accepted (x : list value * list string) : bool :=
  negb (isAlreadyColored x.2) && valid x.1.

(** The backgrounds the source sheet shows after [setBackground]: [red]
    and [marked] are what [getBackgrounds()] gives back for the colors set
    by the name red and by #D9E1F2.  Cells outside the row's backgrounds
    are outside the data range. *)
Variable red marked : string.

Definition setCells (from width : nat) (c : string) (bgRow : list string) : list string :=
  imap (fun j bg => if bool_decide (from <= j < from + width)%nat then c else bg) bgRow.

Definition shows (e : effect) (grid : list (list value * list string))
    : list (list value * list string) :=
  match e with
  | MarkProcessed r w =>
      alter (fun x => (x.1, setCells 0 w marked x.2)) (r - 1)%nat grid
  | MarkRed c =>
      alter (fun x => (x.1, setCells (cr_col c - 1) 1 red x.2)) (cr_row c - 1)%nat grid
  | Append _ => grid
  end.

Definition after (effects : list effect) (grid : list (list value * list string))
    : list (list value * list string) :=
  foldl (fun g e => shows e g) grid effects.

End Run.

(** The effect [e] sets the background of a cell of row [j] that lies
    within the [width] columns of the range. *)
Definition hits (e : effect) (j width : nat) : Prop :=
  match e with
  | MarkProcessed r w => (r - 1)%nat = j /\ (0 < w)%nat /\ (0 < width)%nat
  | MarkRed c => (cr_row c - 1)%nat = j /\ (cr_col c - 1 < width)%nat
  | Append _ => False
  end.

(** ASCII lower case, what [toLowerCase] does to a color code. *)
Definition lower_ascii (c : ascii) : ascii :=
  if in_range "A" "Z" c then ascii_of_N (N_of_ascii c + 32) else c.

Fixpoint lower (s : string) : string :=
  match s with
  | EmptyString => EmptyString
  | String c r => String (lower_ascii c) (lower r)
  end.

End Script.

(** ** A form sheet, for the concrete statements *)

Module ScriptScenario.
Local Open Scope nat_scope.


Import Script.

(** The header, a row that passes the checks, one that fails all three,
    and a row processed by an earlier run. *)
Definition grid0 : list (list value * list string) :=
  [ ([Str "Timestamp"; Str "Name"; Str "Mail"; Str "Discord ID"; Str "Wallet"; Str "Human"],
     replicate 6 "#ffffff");
    ([Str "t1"; Str "n1"; Str "m1"; NotStr "123456789012345678";
      Str "0xABCDEF0123456789ABCDEF0123456789ABCDEF01"; Str "I'm a human"],
     replicate 6 "#ffffff");
    ([Str "t2"; Str "n2"; Str "m2"; Str "12ab"; Str "0x12"; Str "yes"],
     ["#FFFFFF"; "#f8f9fa"; "#ffffff"; "#ffffff"; "#ffffff"; "#ffffff"]);
    ([Str "t3"; Str "n3"; Str "m3"; Str "7654321";
      Str "0x0000000000000000000000000000000000000000"; Str "I'm a human"],
     replicate 6 "#d9e1f2") ].

End ScriptScenario.

(** Unfolds the logging helpers and splits on the debug switch. *)
Ltac logs :=
  unfold extractUserTag_log, timer_end; unfold debug; unfold log, logError, await;
  try destruct (DEBUG_MODE _); try destruct (m_mentions _); try reflexivity.

(** * Properties *)

(** ** The address pattern *)

Module DetectorFacts.
Import Detector.

Lemma all_hex_nil : all_hex "".
Proof. constructor. Qed.

Lemma all_hex_cons c h : all_hex (String c h) <-> is_hex c = true /\ all_hex h.
Proof. unfold all_hex; simpl. apply (Forall_cons (fun a => is_hex a = true)). Qed.

Lemma hex_run_Some n : forall s h,
  hex_run n s = Some h ->
  exists suf, s = h +:+ suf /\ String.length h = n /\ all_hex h.
Proof.
  induction n as [|n IH]; intros s h; simpl.
  - intros [= <-]. exists s. repeat split. apply all_hex_nil.
  - destruct s as [|c r]; [discriminate|].
    destruct (is_hex c) eqn:Hc; [|discriminate].
    destruct (hex_run n r) as [h'|] eqn:Hr; simpl; [|discriminate].
    intros [= <-]. destruct (IH _ _ Hr) as (suf & -> & Hlen & Hall).
    exists suf. simpl. repeat split; [congruence|].
    apply all_hex_cons; auto.
Qed.

Lemma hex_run_app h : forall suf,
  all_hex h -> hex_run (String.length h) (h +:+ suf) = Some h.
Proof.
  induction h as [|c h IH]; intros suf Hall; simpl; [done|].
  apply all_hex_cons in Hall as [-> Hall]. by rewrite IH.
Qed.

Lemma evm_match_here_Some s m :
  evm_match_here s = Some m ->
  exists h suf, m = "0x" +:+ h /\ s = "0x" +:+ h +:+ suf /\
                String.length h = 40%nat /\ all_hex h.
Proof.
  unfold evm_match_here. destruct s as [|c0 [|c1 r]]; try discriminate.
  destruct (Ascii.eqb c0 "0") eqn:H0; cbn [andb]; [|discriminate].
  destruct (Ascii.eqb c1 "x") eqn:H1; [|discriminate].
  apply Ascii.eqb_eq in H0 as ->. apply Ascii.eqb_eq in H1 as ->.
  destruct (hex_run 40 r) as [h|] eqn:Hr;
    cbn [fmap option_fmap option_map]; [|discriminate].
  intros [= <-]. destruct (hex_run_Some _ _ _ Hr) as (suf & -> & Hlen & Hall).
  by exists h, suf.
Qed.

Lemma evm_match_here_app h suf :
  String.length h = 40%nat -> all_hex h ->
  evm_match_here ("0x" +:+ h +:+ suf) = Some ("0x" +:+ h).
Proof.
  intros Hlen Hall.
  change (evm_match_here ("0x" +:+ h +:+ suf))
    with ((fun h0 => "0x" +:+ h0) <$> hex_run 40 (h +:+ suf)).
  rewrite <- Hlen. by rewrite hex_run_app.
Qed.

Lemma match_all_found pre : forall suf m,
  evm_match_here suf = Some m -> match_all 0 (pre +:+ suf) <> [].
Proof.
  induction pre as [|c pre IH]; intros suf m Hm.
  - change ("" +:+ suf) with suf. destruct suf as [|c r]; [discriminate|].
    cbn [match_all]. by rewrite Hm.
  - change (String c pre +:+ suf) with (String c (pre +:+ suf)).
    cbn [match_all].
    destruct (evm_match_here (String c (pre +:+ suf))); [done|]. eauto.
Qed.

Lemma match_all_nonempty s : forall k,
  match_all k s <> [] ->
  exists pre suf m, s = pre +:+ suf /\ evm_match_here suf = Some m.
Proof.
  induction s as [|c r IH]; intros k; cbn [match_all]; [done|].
  destruct k as [|k].
  - destruct (evm_match_here (String c r)) as [m|] eqn:Hm.
    + intros _. by exists "", (String c r), m.
    + intros H. destruct (IH _ H) as (pre & suf & m & -> & Hs).
      by exists (String c pre), suf, m.
  - intros H. destruct (IH _ H) as (pre & suf & m & -> & Hs).
    by exists (String c pre), suf, m.
Qed.

Lemma hasNewEvmAddress_true text :
  hasNewEvmAddress text = true <-> match_all 0 text <> [].
Proof.
  unfold hasNewEvmAddress, evmMatches.
  destruct (match_all 0 text) as [|m ms]; simpl; [done|].
  split; done.
Qed.

(** The same string with a 41st hexadecimal character still matches: the
    pattern does not look at what follows the 40 characters. *)
Example longer_run_detected :
  hasNewEvmAddress "0xABCDEF0123456789ABCDEF0123456789ABCDEF012" = true.
Proof. reflexivity. Qed.

Example uppercase_prefix_not_detected :
  hasNewEvmAddress "0XABCDEF0123456789ABCDEF0123456789ABCDEF01" = false.
Proof. reflexivity. Qed.

Example two_addresses_one_signal :
  evmMatches ("0xABCDEF0123456789ABCDEF0123456789ABCDEF01 and " +:+
              "0x0000000000000000000000000000000000000000")
  = Some ["0xABCDEF0123456789ABCDEF0123456789ABCDEF01";
          "0x0000000000000000000000000000000000000000"] /\
  hasNewEvmAddress ("0xABCDEF0123456789ABCDEF0123456789ABCDEF01 and " +:+
                    "0x0000000000000000000000000000000000000000") = true.
Proof. split; reflexivity. Qed.

(** C6: address detection on a text answers true exactly when the text
    contains a substring made of the prefix 0x followed by 40 hexadecimal
    characters; whenever the match array exists, whatever its number of
    entries, the answer is the same single true. *)
Theorem address_detection_iff_substring (text : string) :
  (hasNewEvmAddress text = true <-> contains_evm_address text) /\
  (forall ms, evmMatches text = Some ms -> hasNewEvmAddress text = true).
Proof.
  split.
  - rewrite hasNewEvmAddress_true. split.
    + intros H. destruct (match_all_nonempty _ _ H) as (pre & suf & m & -> & Hm).
      destruct (evm_match_here_Some _ _ Hm) as (h & suf' & _ & -> & Hlen & Hall).
      by exists pre, h, suf'.
    + intros (pre & h & suf & -> & Hlen & Hall).
      eapply match_all_found. by apply evm_match_here_app.
  - intros ms Hms. apply hasNewEvmAddress_true.
    unfold evmMatches in Hms. destruct (match_all 0 text); [done|done].
Qed.
End DetectorFacts.

Section ControllerFacts.

Context (cfg : config).

(** ** The log does not feed back into the program *)

Lemma mute_log lvl text s : mute (log lvl text s) = mute s.
Proof. reflexivity. Qed.

Lemma mute_debug text s : mute (debug cfg text s) = mute s.
Proof. unfold debug. by destruct (DEBUG_MODE cfg). Qed.

Lemma mute_timer_end op s : mute (timer_end cfg op s) = mute s.
Proof. apply mute_debug. Qed.

Lemma mute_logError text e s :
  mute (logError text e s) = mute (set_stats incr_errors s).
Proof. reflexivity. Qed.

Lemma mute_set_console f s : mute (set_console f s) = mute s.
Proof. reflexivity. Qed.

Lemma mute_idemp s : mute (mute s) = mute s.
Proof. reflexivity. Qed.

Lemma ticket_of_mute c s : ticket_of c (mute s) = ticket_of c s.
Proof. reflexivity. Qed.

Lemma mute_eq_ticket_of c s s' : mute s' = mute s -> ticket_of c s' = ticket_of c s.
Proof. intros H. by rewrite <- (ticket_of_mute c s'), H. Qed.

Lemma mute_eq_waiters s s' : mute s' = mute s -> waiters s' = waiters s.
Proof. intros H. change (waiters (mute s') = waiters (mute s)). by rewrite H. Qed.

Lemma mute_eq_listening m s s' : mute s' = mute s -> listening m s' = listening m s.
Proof. intros H. unfold listening. by rewrite (mute_eq_waiters _ _ H). Qed.

(** ** handleUserMessage, case by case *)

Lemma handleUserMessage_bot m s :
  a_bot (m_author m) = true -> mute (handleUserMessage cfg m s) = mute s.
Proof.
  intros Hbot. unfold handleUserMessage. rewrite Hbot.
  by rewrite mute_timer_end, mute_debug.
Qed.

Lemma handleUserMessage_untracked m s :
  ticket_of (m_channel m) s = None -> mute (handleUserMessage cfg m s) = mute s.
Proof.
  intros Hno. unfold handleUserMessage. rewrite Hno.
  destruct (a_bot (m_author m)); by rewrite mute_timer_end, mute_debug.
Qed.

Lemma handleUserMessage_not_awaiting m s a t :
  ticket_of (m_channel m) s = Some (a, t) -> awaitingResponse t = false ->
  mute (handleUserMessage cfg m s) = mute s.
Proof.
  intros Ht Haw. unfold handleUserMessage. rewrite Ht, Haw. cbn [negb].
  destruct (a_bot (m_author m)); by rewrite mute_timer_end, mute_debug.
Qed.

Lemma notifyWaits_nobody m s : listening m s = [] -> notifyWaits cfg m s = s.
Proof. intros H. unfold notifyWaits. by rewrite H. Qed.

Lemma listening_nil m s :
  Forall (fun p => c_id (w_channel p.2) <> m_channel m) (waiters s) ->
  listening m s = [].
Proof.
  unfold listening. induction 1 as [|p ws Hp _ IH]; [done|].
  rewrite filter_cons. destruct (decide _) as [e|]; [|done]. by destruct Hp.
Qed.

End ControllerFacts.

(** ** Tickets that no longer await a response *)

Section Completed.

Context (cfg : config).

Lemma handleUserMessage_completed_fold (ms : list message) : forall s c a t,
  ticket_of c s = Some (a, t) -> awaitingResponse t = false ->
  Forall (fun m => m_channel m = c) ms ->
  mute (foldl (fun s m => handleUserMessage cfg m s) s ms) = mute s.
Proof.
  induction ms as [|m ms IH]; intros s c a t Ht Haw Hall; [done|].
  apply Forall_cons in Hall as [Hm Hall]. cbn [foldl].
  assert (Hstep : mute (handleUserMessage cfg m s) = mute s).
  { eapply handleUserMessage_not_awaiting; [by rewrite Hm|done]. }
  rewrite (IH _ c a t); [done| |done|done].
  by rewrite (mute_eq_ticket_of _ _ _ Hstep).
Qed.

Lemma messageCreate_completed_fold (ms : list (Z * message)) : forall s c a t,
  ticket_of c s = Some (a, t) -> awaitingResponse t = false ->
  Forall (fun p => c_id (w_channel p.2) <> c) (waiters s) ->
  Forall (fun nm => m_channel nm.2 = c) ms ->
  mute (run cfg s (prod_map id MessageCreate <$> ms)) = mute s.
Proof.
  induction ms as [|[now m] ms IH]; intros s c a t Ht Haw Hw Hall; [done|].
  apply Forall_cons in Hall as [Hm Hall]. cbn in Hm.
  cbn [fmap list_fmap prod_map fst snd id run foldl step].
  assert (Hstep : mute (messageCreate cfg m s) = mute s).
  { unfold messageCreate.
    assert (Hh : mute (handleUserMessage cfg m s) = mute s).
    { eapply handleUserMessage_not_awaiting; [by rewrite Hm|done]. }
    rewrite notifyWaits_nobody; [done|].
    apply listening_nil. rewrite (mute_eq_waiters _ _ Hh). by rewrite Hm. }
  fold (run cfg (messageCreate cfg m s) (prod_map id MessageCreate <$> ms)).
  rewrite (IH _ c a t); [done| |done| |done].
  - by rewrite (mute_eq_ticket_of _ _ _ Hstep).
  - by rewrite (mute_eq_waiters _ _ Hstep).
Qed.

End Completed.

(** ** A message on a ticket that awaits evidence *)

Section Evidence.

Context (cfg : config).

Lemma mute_await r k s : mute (await r k s) = await r k (mute s).
Proof. reflexivity. Qed.

Lemma mute_set_heap f s : mute (set_heap f s) = set_heap f (mute s).
Proof. reflexivity. Qed.

Lemma mute_checking (atts : list attachment) : forall s,
  mute (foldl (fun s _ => debug cfg "Checking attachment" s) s atts) = mute s.
Proof.
  induction atts as [|x atts IH]; intros s; [done|].
  cbn [foldl]. by rewrite IH, mute_debug.
Qed.

Lemma handleUserMessage_awaiting m s a t content atts :
  a_bot (m_author m) = false ->
  ticket_of (m_channel m) s = Some (a, t) ->
  awaitingResponse t = true ->
  m_content m = Some content ->
  m_attachments m = Some atts ->
  mute (handleUserMessage cfg m s) =
  let t' := merged t content atts in
  let s' := set_heap (insert a t') (mute s) in
  if hasEvmAddress t' && hasImage t'
  then await (Send (m_channel m) FormMessage) (AwaitForm a (m_channel m)) s'
  else s'.
Proof.
  intros Hbot Ht Haw Hc Hatts. unfold handleUserMessage, merged, Detector.hasNewImage.
  rewrite Hbot, Ht, Haw, Hc, Hatts. cbn [negb].
  destruct (Detector.hasNewEvmAddress content);
    destruct (bool_decide (0 < length atts)%nat);
    try destruct (existsb Detector.isImage atts); cbn zeta beta iota;
    match goal with
    | |- context [if ?b then await _ _ _ else _] => destruct b
    end;
    rewrite ?mute_await, ?mute_timer_end, ?mute_debug, ?mute_log, ?mute_set_heap,
      ?mute_log, ?mute_checking, ?mute_debug, ?mute_log; reflexivity.
Qed.

End Evidence.

(** ** What each handler leaves alone *)

Section Frame.

Context (cfg : config).

Lemma foldl_preserves {A B} (P : state -> B) (f : state -> A -> state) (l : list A) :
  (forall s x, P (f s x) = P s) -> forall s, P (foldl f s l) = P s.
Proof.
  intros Hf. induction l as [|x l IH]; intros s; [done|].
  cbn [foldl]. by rewrite IH, Hf.
Qed.

Lemma registry_afterFirstMessage ch m s :
  registry (afterFirstMessage cfg ch m s) = registry s.
Proof.
  unfold afterFirstMessage. destruct (m_content m); [|by logs].
  destruct (String.eqb _ _); by logs.
Qed.

Lemma registry_messageHandler w s : registry (messageHandler cfg w s) = registry s.
Proof. unfold messageHandler. by logs. Qed.

Lemma registry_notifyWaits m s : registry (notifyWaits cfg m s) = registry s.
Proof.
  unfold notifyWaits.
  rewrite (foldl_preserves registry); [|intros s0 p; destruct (w_timedOut p.2);
    [done|apply registry_afterFirstMessage]].
  apply (foldl_preserves registry). intros. apply registry_messageHandler.
Qed.

Lemma registry_handleChannelCreation ch s :
  registry (handleChannelCreation cfg ch s) = registry s.
Proof.
  unfold handleChannelCreation, waitForFirstMessage.
  destruct (negb _); by logs.
Qed.

Lemma registry_waitTimeout w s : registry (waitTimeout cfg w s) = registry s.
Proof.
  unfold waitTimeout, afterNoFirstMessage.
  destruct (list_find _ _) as [[i [w' wt]]|]; [|done].
  destruct (w_timedOut wt); [done|]. by logs.
Qed.

Lemma registry_fetchSettled op r s : registry (fetchSettled cfg op r s) = registry s.
Proof.
  unfold fetchSettled, afterFetch.
  destruct (inflight s !! op) as [[]|]; try done.
  destruct r as [[ch|]|e]; by logs.
Qed.

End Frame.

(** ** Evidence flags only grow *)

Section Monotone.

Context (cfg : config).

Lemma evidence_le_refl t : evidence_le t t.
Proof. by split. Qed.

Lemma evidence_le_trans t1 t2 t3 :
  evidence_le t1 t2 -> evidence_le t2 t3 -> evidence_le t1 t3.
Proof. intros [H1 H2] [H3 H4]. split; auto. Qed.

Lemma evidence_le_merged t content atts : evidence_le t (merged t content atts).
Proof.
  unfold merged.
  destruct (Detector.hasNewEvmAddress content), (Detector.hasNewImage atts);
    split; cbn; auto.
Qed.

Lemma evidence_le_completed now formId t : evidence_le t (mark_completed now formId t).
Proof. by split. Qed.

Lemma heap_le_refl h : heap_le h h.
Proof. intros a t Ha. exists t. split; [done|apply evidence_le_refl]. Qed.

Lemma heap_le_trans h1 h2 h3 : heap_le h1 h2 -> heap_le h2 h3 -> heap_le h1 h3.
Proof.
  intros H12 H23 a t Ha. destruct (H12 _ _ Ha) as (t2 & Ha2 & Hle2).
  destruct (H23 _ _ Ha2) as (t3 & Ha3 & Hle3).
  exists t3. split; [done|]. by eapply evidence_le_trans.
Qed.

Lemma heap_le_insert (h : list ticket) a t t' :
  h !! a = Some t -> evidence_le t t' -> heap_le h (<[a:=t']> h).
Proof.
  intros Ha Hle b u Hb. destruct (decide (a = b)) as [->|Hne].
  - exists t'. split; [|congruence].
    apply list_lookup_insert_eq. by eapply lookup_lt_Some.
  - exists u. split; [|apply evidence_le_refl]. by rewrite list_lookup_insert_ne.
Qed.

Lemma heap_le_alter (h : list ticket) f a :
  (forall t, evidence_le t (f t)) -> heap_le h (alter f a h).
Proof.
  intros Hf b u Hb. destruct (decide (a = b)) as [->|Hne].
  - exists (f u). split; [|done]. by rewrite list_lookup_alter_eq, Hb.
  - exists u. split; [|apply evidence_le_refl]. by rewrite list_lookup_alter_ne.
Qed.

Lemma heap_le_app (h : list ticket) l : heap_le h (h ++ l).
Proof.
  intros a t Ha. exists t. split; [|apply evidence_le_refl].
  by apply lookup_app_l_Some.
Qed.

Lemma registry_heap s s' : registry s' = registry s -> heap s' = heap s.
Proof. unfold registry. congruence. Qed.

Lemma registry_activeTickets s s' :
  registry s' = registry s -> activeTickets s' = activeTickets s.
Proof. unfold registry. congruence. Qed.

Lemma registry_closeTimers s s' :
  registry s' = registry s -> closeTimers s' = closeTimers s.
Proof. unfold registry. congruence. Qed.

Lemma registry_mute s : registry (mute s) = registry s.
Proof. reflexivity. Qed.

Lemma ticket_of_Some c s a t :
  ticket_of c s = Some (a, t) -> activeTickets s !! c = Some a /\ heap s !! a = Some t.
Proof.
  unfold ticket_of. destruct (activeTickets s !! c) as [a'|]; [|done].
  destruct (heap s !! a') as [t'|] eqn:Ht; [|done]. by intros [= <- <-].
Qed.

(** The message handler changes nothing of the registry but the one ticket
    object it fetched, and only raises its flags. *)
Lemma handleUserMessage_registry m s :
  registry (handleUserMessage cfg m s) = registry s \/
  exists a t content atts,
    ticket_of (m_channel m) s = Some (a, t) /\
    registry (handleUserMessage cfg m s) =
    registry (set_heap (insert a (merged t content atts)) s).
Proof.
  destruct (a_bot (m_author m)) eqn:Hbot.
  { left. rewrite <- registry_mute, handleUserMessage_bot; done. }
  destruct (ticket_of (m_channel m) s) as [[a t]|] eqn:Ht.
  2:{ left. rewrite <- registry_mute, handleUserMessage_untracked; done. }
  destruct (awaitingResponse t) eqn:Haw.
  2:{ left. rewrite <- registry_mute.
      by rewrite (handleUserMessage_not_awaiting cfg m s a t). }
  destruct (m_content m) as [content|] eqn:Hc.
  2:{ left. unfold handleUserMessage. rewrite Hbot, Ht, Haw, Hc. by logs. }
  destruct (m_attachments m) as [atts|] eqn:Hatts.
  2:{ left. unfold handleUserMessage. rewrite Hbot, Ht, Haw, Hc, Hatts. by logs. }
  right. exists a, t, content, atts. split; [done|].
  rewrite <- registry_mute.
  rewrite (handleUserMessage_awaiting cfg m s a t content atts) by done.
  cbv zeta. by destruct (_ && _).
Qed.

Lemma heap_le_handleUserMessage m s :
  heap_le (heap s) (heap (handleUserMessage cfg m s)).
Proof.
  destruct (handleUserMessage_registry m s) as [H|(a & t & content & atts & Ht & H)].
  - rewrite (registry_heap _ _ H). apply heap_le_refl.
  - rewrite (registry_heap _ _ H). cbn.
    apply ticket_of_Some in Ht as [_ Ht].
    eapply heap_le_insert; [done|]. apply evidence_le_merged.
Qed.

Lemma registry_afterGreeting_fulfilled now ch tag sentId s :
  registry (afterGreeting cfg now ch tag (Fulfilled sentId) s) =
  registry (set_activeTickets (insert (c_id ch) (length (heap s)))
              (set_heap (fun h => h ++ [ticketData now ch tag sentId]) s)).
Proof. unfold afterGreeting. by logs. Qed.

Lemma registry_afterGreeting_rejected now ch tag e s :
  registry (afterGreeting cfg now ch tag (Rejected e) s) = registry s.
Proof. unfold afterGreeting. by logs. Qed.

Lemma registry_afterForm_fulfilled now a chId formId s :
  registry (afterForm cfg now a chId (Fulfilled formId) s) =
  registry ((if valid_date (closeTime cfg now)
             then set_closeTimers
                    (fun ts => <[fresh (dom ts) :=
                                  {| ct_channel := chId;
                                     ct_delay := timerDelay (closeTimeoutMs cfg);
                                     ct_setAt := now |}]> ts)
             else id)
              (set_heap (alter (mark_completed now formId) a) s)).
Proof. unfold afterForm. destruct (valid_date _); by logs. Qed.

Lemma registry_afterForm_rejected now a chId e s :
  registry (afterForm cfg now a chId (Rejected e) s) = registry s.
Proof. unfold afterForm. by logs. Qed.

Lemma registry_afterClose_fulfilled now chId x s :
  registry (afterClose cfg now chId (Fulfilled x) s) =
  registry (set_pendingClosures
              (insert chId {| closedAt := now; method := "message_command";
                              command := "$close" |})
              (set_activeTickets (delete chId) s)).
Proof. unfold afterClose. by logs. Qed.

Lemma registry_afterClose_rejected now chId e s :
  registry (afterClose cfg now chId (Rejected e) s) = registry s.
Proof. unfold afterClose. by logs. Qed.

Lemma heap_le_sendSettled now op r s :
  heap_le (heap s) (heap (sendSettled cfg now op r s)).
Proof.
  unfold sendSettled.
  destruct (inflight s !! op) as [[ch tag|a chId|chId|chId]|]; try apply heap_le_refl;
    destruct r as [x|e].
  - rewrite (registry_heap _ _ (registry_afterGreeting_fulfilled _ _ _ _ _)).
    apply heap_le_app.
  - rewrite (registry_heap _ _ (registry_afterGreeting_rejected _ _ _ _ _)).
    apply heap_le_refl.
  - rewrite (registry_heap _ _ (registry_afterForm_fulfilled _ _ _ _ _)).
    destruct (valid_date _); apply heap_le_alter; intros; apply evidence_le_completed.
  - rewrite (registry_heap _ _ (registry_afterForm_rejected _ _ _ _ _)).
    apply heap_le_refl.
  - rewrite (registry_heap _ _ (registry_afterClose_fulfilled _ _ _ _)).
    apply heap_le_refl.
  - rewrite (registry_heap _ _ (registry_afterClose_rejected _ _ _ _)).
    apply heap_le_refl.
Qed.

Lemma registry_closeTicket chId cached s :
  registry (closeTicket chId cached s) = registry s.
Proof. unfold closeTicket. destruct cached; by logs. Qed.

Lemma heap_le_step s ne : heap_le (heap s) (heap (step cfg s ne)).
Proof.
  destruct ne as [now [ch|m|w|id cached| |op r|op r]]; cbn [step].
  - rewrite (registry_heap _ _ (registry_handleChannelCreation cfg ch s)).
    apply heap_le_refl.
  - unfold messageCreate.
    rewrite (registry_heap _ _ (registry_notifyWaits cfg m _)).
    apply heap_le_handleUserMessage.
  - rewrite (registry_heap _ _ (registry_waitTimeout cfg w s)). apply heap_le_refl.
  - unfold closeTimeout. destruct (closeTimers s !! id); [|apply heap_le_refl].
    rewrite (registry_heap _ _ (registry_closeTicket _ _ _)). apply heap_le_refl.
  - apply heap_le_refl.
  - apply heap_le_sendSettled.
  - rewrite (registry_heap _ _ (registry_fetchSettled cfg op r s)). apply heap_le_refl.
Qed.

Lemma heap_le_run evs : forall s, heap_le (heap s) (heap (run cfg s evs)).
Proof.
  induction evs as [|ne evs IH]; intros s; [apply heap_le_refl|].
  cbn [run foldl]. eapply heap_le_trans; [apply heap_le_step|apply IH].
Qed.

End Monotone.

Section MonotoneClaim.

Context (cfg : config).

Lemma activeTickets_messageCreate m s :
  activeTickets (messageCreate cfg m s) = activeTickets s.
Proof.
  unfold messageCreate.
  rewrite (registry_activeTickets _ _ (registry_notifyWaits cfg m _)).
  destruct (handleUserMessage_registry cfg m s) as [H|(a & t & content & atts & _ & H)];
    by rewrite (registry_activeTickets _ _ H).
Qed.

Lemma activeTickets_messages (ms : list (Z * message)) : forall s,
  activeTickets (run cfg s (prod_map id MessageCreate <$> ms)) = activeTickets s.
Proof.
  induction ms as [|[now m] ms IH]; intros s; [done|].
  cbn [fmap list_fmap prod_map fst snd id run foldl step].
  fold (run cfg (messageCreate cfg m s) (prod_map id MessageCreate <$> ms)).
  by rewrite IH, activeTickets_messageCreate.
Qed.

(** C7: the evidence flags of a ticket never go from true to false.  For a
    ticket registered for a channel, any sequence of message events leaves
    the channel pointing at the same ticket object, with at least the
    flags it had; and the ticket object keeps at least its flags over any
    sequence of events of any kind. *)
Theorem evidence_flags_monotone (s : state) (c : string) (a : nat) (t : ticket) :
  ticket_of c s = Some (a, t) ->
  (forall ms : list (Z * message),
     exists t', ticket_of c (run cfg s (prod_map id MessageCreate <$> ms)) = Some (a, t') /\
                evidence_le t t') /\
  (forall evs : list (Z * event),
     exists t', heap (run cfg s evs) !! a = Some t' /\ evidence_le t t').
Proof.
  intros Ht. apply ticket_of_Some in Ht as [Hc Ha]. split.
  - intros ms.
    destruct (heap_le_run cfg (prod_map id MessageCreate <$> ms) s a t Ha)
      as (t' & Ha' & Hle).
    exists t'. split; [|done].
    unfold ticket_of. by rewrite activeTickets_messages, Hc, Ha'.
  - intros evs. apply (heap_le_run cfg evs s a t Ha).
Qed.

End MonotoneClaim.

(** ** Closure timers *)

Section ClosureTimers.

Context (cfg : config).

Lemma closeTimers_sendSettled now op r s id ct :
  closeTimers s !! id = Some ct ->
  closeTimers (sendSettled cfg now op r s) !! id = Some ct.
Proof.
  intros Hid. unfold sendSettled.
  destruct (inflight s !! op) as [[ch tag|a chId|chId|chId]|]; try done;
    destruct r as [x|e].
  - by rewrite (registry_closeTimers _ _ (registry_afterGreeting_fulfilled _ _ _ _ _ _)).
  - by rewrite (registry_closeTimers _ _ (registry_afterGreeting_rejected _ _ _ _ _ _)).
  - rewrite (registry_closeTimers _ _ (registry_afterForm_fulfilled _ _ _ _ _ _)).
    destruct (valid_date _); [|done].
    cbn. rewrite lookup_insert_ne; [done|].
    intros Heq. pose proof (is_fresh (dom (closeTimers s))) as Hfresh.
    rewrite Heq in Hfresh. apply Hfresh, elem_of_dom. by exists ct.
  - by rewrite (registry_closeTimers _ _ (registry_afterForm_rejected _ _ _ _ _ _)).
  - by rewrite (registry_closeTimers _ _ (registry_afterClose_fulfilled _ _ _ _ _)).
  - by rewrite (registry_closeTimers _ _ (registry_afterClose_rejected _ _ _ _ _)).
Qed.

(** No event but the firing of a closure timer takes it out of the table. *)
Lemma closeTimers_step s now e id ct :
  closeTimers s !! id = Some ct ->
  (forall cached, e <> CloseTimeout id cached) ->
  closeTimers (step cfg s (now, e)) !! id = Some ct.
Proof.
  intros Hid Hne. destruct e as [ch|m|w|id' cached| |op r|op r]; cbn [step].
  - by rewrite (registry_closeTimers _ _ (registry_handleChannelCreation cfg ch s)).
  - unfold messageCreate.
    rewrite (registry_closeTimers _ _ (registry_notifyWaits cfg m _)).
    destruct (handleUserMessage_registry cfg m s) as [H|(a & t & content & atts & _ & H)];
      by rewrite (registry_closeTimers _ _ H).
  - by rewrite (registry_closeTimers _ _ (registry_waitTimeout cfg w s)).
  - unfold closeTimeout. destruct (closeTimers s !! id') as [ct'|] eqn:Hid'; [|done].
    rewrite (registry_closeTimers _ _ (registry_closeTicket _ _ _)). cbn.
    rewrite lookup_delete_ne; [done|]. intros ->. by apply (Hne cached).
  - done.
  - by apply closeTimers_sendSettled.
  - by rewrite (registry_closeTimers _ _ (registry_fetchSettled cfg op r s)).
Qed.

Lemma closeTimeout_gone id cached s :
  closeTimers (closeTimeout id cached s) !! id = None.
Proof.
  unfold closeTimeout. destruct (closeTimers s !! id) as [ct|] eqn:Hid; [|done].
  rewrite (registry_closeTimers _ _ (registry_closeTicket _ _ _)). cbn.
  apply lookup_delete_eq.
Qed.

Lemma closeTimeout_absent id cached s :
  closeTimers s !! id = None -> closeTimeout id cached s = s.
Proof. intros H. unfold closeTimeout. by rewrite H. Qed.

Lemma requests_closeTimeout_cached id ch ct s :
  closeTimers s !! id = Some ct ->
  requests (closeTimeout id (Some ch) s) = requests s ++ [Send (c_id ch) CloseCommand].
Proof. intros H. unfold closeTimeout, closeTicket. rewrite H. by logs. Qed.

Lemma requests_closeTimeout_uncached id ct s :
  closeTimers s !! id = Some ct ->
  requests (closeTimeout id None s) = requests s ++ [Fetch (ct_channel ct)] /\
  inflight (closeTimeout id None s) =
    <[fresh (dom (inflight s)) := AwaitFetch (ct_channel ct)]> (inflight s).
Proof. intros H. unfold closeTimeout, closeTicket. rewrite H. by logs. Qed.

Lemma fetchSettled_found op chId ch s :
  inflight s !! op = Some (AwaitFetch chId) ->
  requests (fetchSettled cfg op (Fulfilled (Some ch)) s) =
    requests s ++ [Send (c_id ch) CloseCommand].
Proof. intros H. unfold fetchSettled, afterFetch. rewrite H. by logs. Qed.

Lemma fetchSettled_failed op chId r s :
  inflight s !! op = Some (AwaitFetch chId) ->
  r = Fulfilled None \/ (exists e, r = Rejected e) ->
  requests (fetchSettled cfg op r s) = requests s /\
  inflight (fetchSettled cfg op r s) = delete op (inflight s) /\
  closeTimers (fetchSettled cfg op r s) = closeTimers s.
Proof.
  intros H Hr. unfold fetchSettled, afterFetch. rewrite H.
  destruct Hr as [->|[e ->]]; by logs.
Qed.

(** Only a fulfilled follow-up send puts a timer into the table. *)
Lemma closeTimers_origin s now e id ct :
  closeTimers s !! id = None ->
  closeTimers (step cfg s (now, e)) !! id = Some ct ->
  exists op a formId,
    e = SendSettled op (Fulfilled formId) /\
    inflight s !! op = Some (AwaitForm a (ct_channel ct)) /\
    valid_date (closeTime cfg now) = true /\
    ct_setAt ct = now /\ ct_delay ct = timerDelay (closeTimeoutMs cfg).
Proof.
  intros Hid. destruct e as [ch|m|w|id' cached| |op r|op r]; cbn [step].
  - rewrite (registry_closeTimers _ _ (registry_handleChannelCreation cfg ch s)). congruence.
  - unfold messageCreate.
    rewrite (registry_closeTimers _ _ (registry_notifyWaits cfg m _)).
    destruct (handleUserMessage_registry cfg m s) as [H|(a & t & content & atts & _ & H)];
      rewrite (registry_closeTimers _ _ H); cbn; congruence.
  - rewrite (registry_closeTimers _ _ (registry_waitTimeout cfg w s)). congruence.
  - unfold closeTimeout. destruct (closeTimers s !! id') as [ct'|] eqn:Hid'; [|congruence].
    rewrite (registry_closeTimers _ _ (registry_closeTicket _ _ _)). cbn.
    intros H. apply lookup_delete_Some in H as [_ H]. congruence.
  - cbn. congruence.
  - unfold sendSettled.
    destruct (inflight s !! op) as [[ch tag|a chId|chId|chId]|] eqn:Hop; try congruence;
      destruct r as [x|e].
    + rewrite (registry_closeTimers _ _ (registry_afterGreeting_fulfilled _ _ _ _ _ _)).
      cbn. congruence.
    + rewrite (registry_closeTimers _ _ (registry_afterGreeting_rejected _ _ _ _ _ _)).
      cbn. congruence.
    + rewrite (registry_closeTimers _ _ (registry_afterForm_fulfilled _ _ _ _ _ _)).
      destruct (valid_date _) eqn:Hvalid; [|cbn; congruence]. cbn.
      intros H. apply lookup_insert_Some in H as [[_ <-]|[_ H]]; [|congruence].
      by exists op, a, x.
    + rewrite (registry_closeTimers _ _ (registry_afterForm_rejected _ _ _ _ _ _)).
      cbn. congruence.
    + rewrite (registry_closeTimers _ _ (registry_afterClose_fulfilled _ _ _ _ _)).
      cbn. congruence.
    + rewrite (registry_closeTimers _ _ (registry_afterClose_rejected _ _ _ _ _)).
      cbn. congruence.
  - rewrite (registry_closeTimers _ _ (registry_fetchSettled cfg op r s)). congruence.
Qed.

(** C8, amended: a follow-up send that is fulfilled sets exactly one
    closure timer, at completion time and with the timeout Node records
    for the configured delay, or none when completion time plus delay is
    no valid date; no other event sets one.  A closure timer fires at most once.
    The program has no cancel operation: no event other than the firing of
    the timer removes it.  The firing issues the closure send when the
    channel is in the cache; otherwise it issues a fetch, and the closure
    send follows only when the fetch delivers a channel: a fetch that is
    rejected or delivers nothing ends the closure without a send. *)
Theorem closure_timer_once_and_never_cancelled (now : Z) (s : state) :
  (forall op a chId formId,
     inflight s !! op = Some (AwaitForm a chId) ->
     let s' := step cfg s (now, SendSettled op (Fulfilled formId)) in
     (valid_date (closeTime cfg now) = true ->
      closeTimers s' =
        <[fresh (dom (closeTimers s)) :=
            {| ct_channel := chId; ct_delay := timerDelay (closeTimeoutMs cfg);
               ct_setAt := now |}]>
          (closeTimers s) /\
      size (closeTimers s') = S (size (closeTimers s))) /\
     (valid_date (closeTime cfg now) = false -> closeTimers s' = closeTimers s)) /\
  (forall e id ct,
     closeTimers s !! id = None ->
     closeTimers (step cfg s (now, e)) !! id = Some ct ->
     exists op a formId,
       e = SendSettled op (Fulfilled formId) /\
       inflight s !! op = Some (AwaitForm a (ct_channel ct)) /\
       valid_date (closeTime cfg now) = true /\
       ct_setAt ct = now /\ ct_delay ct = timerDelay (closeTimeoutMs cfg)) /\
  (forall id c1 c2,
     closeTimers (closeTimeout id c1 s) !! id = None /\
     closeTimeout id c2 (closeTimeout id c1 s) = closeTimeout id c1 s) /\
  (forall e id ct,
     closeTimers s !! id = Some ct ->
     (forall cached, e <> CloseTimeout id cached) ->
     closeTimers (step cfg s (now, e)) !! id = Some ct) /\
  (forall id ct,
     closeTimers s !! id = Some ct ->
     (forall ch,
        requests (step cfg s (now, CloseTimeout id (Some ch))) =
        requests s ++ [Send (c_id ch) CloseCommand]) /\
     requests (step cfg s (now, CloseTimeout id None)) =
       requests s ++ [Fetch (ct_channel ct)] /\
     inflight (step cfg s (now, CloseTimeout id None)) =
       <[fresh (dom (inflight s)) := AwaitFetch (ct_channel ct)]> (inflight s)) /\
  (forall op chId,
     inflight s !! op = Some (AwaitFetch chId) ->
     (forall ch,
        requests (step cfg s (now, FetchSettled op (Fulfilled (Some ch)))) =
        requests s ++ [Send (c_id ch) CloseCommand]) /\
     (forall r,
        r = Fulfilled None \/ (exists e, r = Rejected e) ->
        requests (step cfg s (now, FetchSettled op r)) = requests s /\
        inflight (step cfg s (now, FetchSettled op r)) = delete op (inflight s) /\
        closeTimers (step cfg s (now, FetchSettled op r)) = closeTimers s)).
Proof.
  split; [|split; [|split; [|split; [|split]]]].
  - intros op a chId formId Hop. cbv zeta. cbn [step]. unfold sendSettled. rewrite Hop.
    rewrite (registry_closeTimers _ _ (registry_afterForm_fulfilled _ _ _ _ _ _)).
    split; intros Hvalid; rewrite Hvalid; [|done]. split; [done|]. cbn.
    apply map_size_insert_None, not_elem_of_dom, is_fresh.
  - intros e id ct. apply closeTimers_origin.
  - intros id c1 c2. split; [apply closeTimeout_gone|].
    apply closeTimeout_absent, closeTimeout_gone.
  - intros e id ct. apply closeTimers_step.
  - intros id ct Hid. split; [|apply (requests_closeTimeout_uncached id ct s Hid)].
    intros ch. by apply (requests_closeTimeout_cached id ch ct).
  - intros op chId Hop. split.
    + intros ch. by apply (fetchSettled_found op chId).
    + intros r Hr. by apply (fetchSettled_failed op chId).
Qed.

End ClosureTimers.

(** ** Completion *)

Section Completion.

Context (cfg : config).

Lemma mute_afterForm_fulfilled now a chId formId s :
  mute (afterForm cfg now a chId (Fulfilled formId) s) =
  mute ((if valid_date (closeTime cfg now)
         then set_closeTimers
                (fun ts => <[fresh (dom ts) :=
                              {| ct_channel := chId;
                                 ct_delay := timerDelay (closeTimeoutMs cfg);
                                 ct_setAt := now |}]> ts)
         else set_stats incr_errors)
          (set_stats incr_ticketsCompleted
             (set_heap (alter (mark_completed now formId) a) s))).
Proof. unfold afterForm. destruct (valid_date _); by logs. Qed.

Lemma mute_afterForm_rejected now a chId e s :
  mute (afterForm cfg now a chId (Rejected e) s) = mute (set_stats incr_errors s).
Proof. unfold afterForm. by logs. Qed.

Lemma ticket_of_insert c s a t t' :
  ticket_of c s = Some (a, t) ->
  ticket_of c (set_heap (insert a t') s) = Some (a, t').
Proof.
  intros H. apply ticket_of_Some in H as [Hc Ha]. unfold ticket_of. cbn.
  rewrite Hc, list_lookup_insert_eq; [done|]. by eapply lookup_lt_Some.
Qed.

Lemma ticket_of_alter c s a t f :
  ticket_of c s = Some (a, t) ->
  ticket_of c (set_heap (alter f a) s) = Some (a, f t).
Proof.
  intros H. apply ticket_of_Some in H as [Hc Ha]. unfold ticket_of. cbn.
  by rewrite Hc, list_lookup_alter_eq, Ha.
Qed.

Lemma awaiting_merged t content atts :
  awaitingResponse (merged t content atts) = awaitingResponse t /\
  completedAt (merged t content atts) = completedAt t.
Proof.
  unfold merged.
  by destruct (Detector.hasNewEvmAddress content), (Detector.hasNewImage atts).
Qed.

End Completion.

(** ** Missing fields *)

Section MissingFields.

Context (cfg : config).

Lemma merged_nothing t : merged t "" [] = t.
Proof. reflexivity. Qed.

Lemma handleUserMessage_ticket m s a t content atts :
  a_bot (m_author m) = false ->
  ticket_of (m_channel m) s = Some (a, t) ->
  awaitingResponse t = true ->
  m_content m = Some content ->
  m_attachments m = Some atts ->
  ticket_of (m_channel m) (handleUserMessage cfg m s) =
  Some (a, merged t content atts).
Proof.
  intros Hbot Ht Haw Hc Hatts.
  rewrite <- ticket_of_mute.
  rewrite (handleUserMessage_awaiting cfg m s a t content atts) by done.
  cbv zeta.
  destruct (_ && _);
    apply (ticket_of_insert (m_channel m) (mute s) a t); by rewrite ticket_of_mute.
Qed.

Lemma stats_handleUserMessage_present m s content atts :
  m_content m = Some content -> m_attachments m = Some atts ->
  stats (handleUserMessage cfg m s) = stats s.
Proof.
  intros Hc Hatts.
  change (stats (mute (handleUserMessage cfg m s)) = stats (mute s)).
  destruct (a_bot (m_author m)) eqn:Hbot.
  { by rewrite handleUserMessage_bot. }
  destruct (ticket_of (m_channel m) s) as [[a t]|] eqn:Ht.
  2:{ by rewrite handleUserMessage_untracked. }
  destruct (awaitingResponse t) eqn:Haw.
  2:{ by rewrite (handleUserMessage_not_awaiting cfg m s a t). }
  rewrite (handleUserMessage_awaiting cfg m s a t content atts) by done.
  cbv zeta. by destruct (_ && _).
Qed.

Lemma handleUserMessage_missing m s a t :
  a_bot (m_author m) = false ->
  ticket_of (m_channel m) s = Some (a, t) ->
  awaitingResponse t = true ->
  m_content m = None \/ m_attachments m = None ->
  handleUserMessage cfg m s =
  timer_end cfg "handleUserMessage"
    (logError "Failed to handle user message" TypeError s).
Proof.
  intros Hbot Ht Haw Hmiss. unfold handleUserMessage. rewrite Hbot, Ht, Haw. cbn [negb].
  destruct Hmiss as [-> | ->]; [done|]. by destruct (m_content m).
Qed.

(** C5, amended: when the text and the attachment list are present, also
    empty, the message handler raises nothing (no error is counted); an
    empty text holds no address, an empty attachment list or an attachment
    without content type holds no image, and a message with empty text and
    no attachment leaves the flags of an awaiting ticket as they were.  When the text or
    the attachment list is missing, reading its length raises a TypeError
    before the detection runs: the handler catches it, logs it and counts
    it, and the ticket is left as it was. *)
Theorem detection_raises_only_on_missing_fields (m : message) (s : state) :
  (forall content atts,
     m_content m = Some content -> m_attachments m = Some atts ->
     stats (handleUserMessage cfg m s) = stats s) /\
  Detector.hasNewEvmAddress "" = false /\
  Detector.hasNewImage [] = false /\
  (forall att, att_contentType att = None -> Detector.isImage att = false) /\
  (forall a t,
     a_bot (m_author m) = false ->
     ticket_of (m_channel m) s = Some (a, t) ->
     awaitingResponse t = true ->
     (m_content m = Some "" -> m_attachments m = Some [] ->
      ticket_of (m_channel m) (handleUserMessage cfg m s) = Some (a, t)) /\
     (m_content m = None \/ m_attachments m = None ->
      handleUserMessage cfg m s =
        timer_end cfg "handleUserMessage"
          (logError "Failed to handle user message" TypeError s) /\
      ticket_of (m_channel m) (handleUserMessage cfg m s) = Some (a, t) /\
      errors (stats (handleUserMessage cfg m s)) = S (errors (stats s)) /\
      requests (handleUserMessage cfg m s) = requests s)).
Proof.
  split; [apply stats_handleUserMessage_present|].
  split; [done|]. split; [done|].
  split. { intros att Hct. unfold Detector.isImage. by rewrite Hct. }
  intros a t Hbot Ht Haw. split.
  - intros Hc Hatts.
    by rewrite (handleUserMessage_ticket m s a t "" []), merged_nothing.
  - intros Hmiss. rewrite (handleUserMessage_missing m s a t) by done.
    split; [done|]. split; [|split].
    + rewrite <- ticket_of_mute, mute_timer_end, mute_logError. exact Ht.
    + change (errors (stats (mute (timer_end cfg "handleUserMessage"
        (logError "Failed to handle user message" TypeError s)))) = S (errors (stats s))).
      by rewrite mute_timer_end, mute_logError.
    + change (requests (mute (timer_end cfg "handleUserMessage"
        (logError "Failed to handle user message" TypeError s))) = requests s).
      by rewrite mute_timer_end, mute_logError.
Qed.

End MissingFields.

(** ** The first message and the greeting *)

Section FirstMessage.

Context (cfg : config).

Lemma extractUserTag_shape m : exists id, extractUserTag m = String "<" (String "@" id).
Proof. unfold extractUserTag. destruct (m_mentions m); eauto. Qed.

Lemma extractUserTag_nonempty m : String.eqb (extractUserTag m) "" = false.
Proof. destruct (extractUserTag_shape m) as [id ->]. reflexivity. Qed.

Lemma afterFirstMessage_present ch m s content :
  m_content m = Some content ->
  afterFirstMessage cfg ch m s =
  await (Send (c_id ch) (Greeting (extractUserTag m)))
    (AwaitGreeting ch (extractUserTag m))
    (log INFO "User tag extracted"
       (extractUserTag_log cfg m (log INFO "First message received" s))).
Proof.
  intros Hc. unfold afterFirstMessage. by rewrite Hc, extractUserTag_nonempty.
Qed.

(** C9: the tag extracted from a first message is never empty, the first
    mention if there is one and the author otherwise, so the test of line
    166 is always false: the resumed handler either goes on to the
    greeting send or, when the content is missing, fails before the
    extraction; the branch that logs the missing user tag is never
    taken. *)
Theorem user_tag_never_empty (ch : channel) (m : message) (s : state) :
  extractUserTag m <> "" /\
  String.eqb (extractUserTag m) "" = false /\
  extractUserTag m =
    "<@" +:+ (match m_mentions m with uid :: _ => uid | [] => a_id (m_author m) end)
         +:+ ">" /\
  afterFirstMessage cfg ch m s =
    match m_content m with
    | Some _ =>
        await (Send (c_id ch) (Greeting (extractUserTag m)))
          (AwaitGreeting ch (extractUserTag m))
          (log INFO "User tag extracted"
             (extractUserTag_log cfg m (log INFO "First message received" s)))
    | None =>
        timer_end cfg "handleChannelCreation"
          (logError "Failed to handle channel creation" TypeError s)
    end.
Proof.
  split. { destruct (extractUserTag_shape m) as [id ->]. discriminate. }
  split; [apply extractUserTag_nonempty|].
  split. { unfold extractUserTag. by destruct (m_mentions m). }
  destruct (m_content m) as [content|] eqn:Hc.
  - by apply (afterFirstMessage_present ch m s content).
  - unfold afterFirstMessage. by rewrite Hc.
Qed.

(** The greeting a pending wait issues for a message of its channel. *)
Lemma requests_afterFirstMessage ch m s :
  exists rs, requests (afterFirstMessage cfg ch m s) = requests s ++ rs /\
             (is_Some (m_content m) ->
              rs = [Send (c_id ch) (Greeting (extractUserTag m))]).
Proof.
  destruct (m_content m) as [content|] eqn:Hc.
  - exists [Send (c_id ch) (Greeting (extractUserTag m))]. split; [|done].
    rewrite (afterFirstMessage_present ch m s content Hc). by logs.
  - exists []. split; [|by intros [? [=]]].
    unfold afterFirstMessage. rewrite Hc, app_nil_r. by logs.
Qed.

Lemma requests_resume_grow m (ws : list (nat * waiter)) : forall s,
  exists rs,
    requests (foldl (fun s p =>
                if w_timedOut p.2 then s else afterFirstMessage cfg (w_channel p.2) m s)
              s ws) = requests s ++ rs.
Proof.
  induction ws as [|p ws IH]; intros s; cbn [foldl].
  - exists []. by rewrite app_nil_r.
  - destruct (IH (if w_timedOut p.2 then s
                  else afterFirstMessage cfg (w_channel p.2) m s)) as [rs ->].
    destruct (w_timedOut p.2); [by exists rs|].
    destruct (requests_afterFirstMessage (w_channel p.2) m s) as (rs' & -> & _).
    exists (rs' ++ rs). by rewrite app_assoc.
Qed.

Lemma requests_resume_In m (ws : list (nat * waiter)) p : forall s,
  p ∈ ws -> w_timedOut p.2 = false -> is_Some (m_content m) ->
  Send (c_id (w_channel p.2)) (Greeting (extractUserTag m)) ∈
    requests (foldl (fun s p =>
                if w_timedOut p.2 then s else afterFirstMessage cfg (w_channel p.2) m s)
              s ws).
Proof.
  induction ws as [|q ws IH]; intros s Hin Hp Hc; [by apply elem_of_nil in Hin|].
  cbn [foldl]. apply elem_of_cons in Hin as [->|Hin]; [|by apply IH].
  rewrite Hp.
  destruct (requests_resume_grow m ws (afterFirstMessage cfg (w_channel q.2) m s))
    as [rs ->].
  destruct (requests_afterFirstMessage (w_channel q.2) m s) as (rs' & -> & Hrs).
  rewrite (Hrs Hc). set_solver.
Qed.

Lemma notifyWaits_with_bot b m s : notifyWaits cfg (with_bot b m) s = notifyWaits cfg m s.
Proof. reflexivity. Qed.

Lemma mute_afterGreeting_fulfilled now ch tag sentId s :
  mute (afterGreeting cfg now ch tag (Fulfilled sentId) s) =
  mute (set_activeTickets (insert (c_id ch) (length (heap s)))
          (set_heap (fun h => h ++ [ticketData now ch tag sentId]) s)).
Proof. unfold afterGreeting. by logs. Qed.

Lemma ticket_of_afterGreeting now ch tag sentId s :
  ticket_of (c_id ch) (afterGreeting cfg now ch tag (Fulfilled sentId) s) =
  Some (length (heap s), ticketData now ch tag sentId).
Proof.
  rewrite <- ticket_of_mute, mute_afterGreeting_fulfilled, ticket_of_mute.
  unfold ticket_of. cbn. rewrite lookup_insert_eq.
  by rewrite lookup_app_r, Nat.sub_diag.
Qed.

End FirstMessage.

(** ** Who satisfies the first-message wait, and repeated creation *)

Section Waits.

Context (cfg : config).

(** C4, amended: the message handler drops every message of an automated
    author before any ticket is read: nothing but the log changes.  The
    first-message wait does not read the author flag: a message of an
    automated author on the channel of a pending wait satisfies it like
    any other, the greeting is sent, and its delivery creates the
    ticket. *)
Theorem bot_messages_filtered_by_message_handler_only (m : message) (s : state) :
  a_bot (m_author m) = true ->
  mute (handleUserMessage cfg m s) = mute s /\
  (forall b, notifyWaits cfg (with_bot b m) s = notifyWaits cfg m s) /\
  (forall p,
     p ∈ waiters s -> w_timedOut p.2 = false ->
     m_channel m = c_id (w_channel p.2) -> is_Some (m_content m) ->
     Send (m_channel m) (Greeting (extractUserTag m)) ∈
       requests (messageCreate cfg m s)) /\
  (forall now ch tag sentId s',
     ticket_of (c_id ch) (afterGreeting cfg now ch tag (Fulfilled sentId) s') =
     Some (length (heap s'), ticketData now ch tag sentId)).
Proof.
  intros Hbot.
  pose proof (handleUserMessage_bot cfg m s Hbot) as Hmute.
  split; [done|]. split; [intros b; apply notifyWaits_with_bot|]. split.
  - intros p Hp Hto Hch Hc. unfold messageCreate, notifyWaits.
    rewrite Hch. apply (requests_resume_In cfg m); [|done|done].
    unfold listening. apply list_elem_of_filter. split; [done|].
    by rewrite (mute_eq_waiters _ _ Hmute).
  - intros. apply ticket_of_afterGreeting.
Qed.





End Waits.

(** ** The scenario, run *)

Module ScenarioFacts.

Import Scenario.

Lemma s_done_ticket : ticket_of "c1" s_done = Some (0%nat, t_done).
Proof. vm_compute. reflexivity. Qed.

Lemma s_done_timer : closeTimers s_done !! 0%nat = Some timer0.
Proof. vm_compute. reflexivity. Qed.

(** The scenarios 1 to 4 of the specification. *)
Example scenario_tracked :
  requests s_tracked = [Send "c1" (Greeting "<@U>")] /\
  ticket_of "c1" s_tracked = Some (0%nat, ticketData 3 ch0 "<@U>" "g1").
Proof. split; vm_compute; reflexivity. Qed.

Example scenario_address_only :
  ticket_of "c1" s_address = Some (0%nat, t_address) /\
  requests s_address = requests s_tracked.
Proof. split; vm_compute; reflexivity. Qed.

Example scenario_completed :
  ticket_of "c1" s_done = Some (0%nat, t_done) /\
  requests s_done = [Send "c1" (Greeting "<@U>"); Send "c1" FormMessage] /\
  closeTimers s_done = {[ 0%nat := timer0 ]} /\
  ct_delay timer0 = 3600000%float.
Proof. repeat split; vm_compute; reflexivity. Qed.

Example scenario_closed :
  ticket_of "c1" s_closed = None /\
  ticketsClosed (stats s_closed) = 1%nat /\
  requests s_closed =
    [Send "c1" (Greeting "<@U>"); Send "c1" FormMessage; Send "c1" CloseCommand].
Proof. repeat split; vm_compute; reflexivity. Qed.

(** Two messages handled while the first follow-up send is in flight: the
    second one finds the ticket still awaiting with both flags true and
    sends again; both completions run. *)
Example overlapping_messages_send_twice :
  form_sends "c1" s_overlap = 2%nat /\
  ticketsCompleted (stats s_overlap) = 2%nat /\
  size (closeTimers s_overlap) = 2%nat.
Proof. repeat split; vm_compute; reflexivity. Qed.

(** With a close time that is no valid date the ticket is completed, the
    RangeError of line 405 is caught and counted, and no closure timer is
    set. *)
Example invalid_close_time_sets_no_timer :
  valid_date (closeTime cfg_far 6) = false /\
  ticket_of "c1" s_far = Some (0%nat, t_done) /\
  closeTimers s_far = ∅ /\
  errors (stats s_far) = 1%nat /\
  last (console s_far) =
    Some {| l_level := ERROR; l_text := "Failed to handle user message";
            l_error := Some RangeError |}.
Proof. repeat split; vm_compute; reflexivity. Qed.

(** C1, as stated, fails: after the image message both flags of the ticket
    are true, the follow-up send is rejected, and the ticket is not
    completed: still awaiting, no completion time, the completed count at
    zero, no closure timer.  The next message of the channel sends the
    follow-up a second time. *)
Lemma both_flags_true_yet_not_completed :
  ticket_of "c1" s_failed = Some (0%nat, t_failed) /\
  hasEvmAddress t_failed && hasImage t_failed = true /\
  awaitingResponse t_failed = true /\
  completedAt t_failed = None /\
  ticketsCompleted (stats s_failed) = 0%nat /\
  closeTimers s_failed = ∅ /\
  form_sends "c1" (run cfg0 s_failed [(7, MessageCreate m_hello)]) = 2%nat.
Proof. repeat split; vm_compute; reflexivity. Qed.

(** C2: the closure timer of the completed ticket fires and the closure
    fails, in each of the three ways: the ticket is still registered, and
    no timer is left that would try again.  Only the fulfilled closure
    send removes it. *)
Theorem failed_closure_leaves_ticket_registered :
  ticket_of "c1" s_done = Some (0%nat, t_done) /\
  ticket_of "c1" s_unresolved = Some (0%nat, t_done) /\
  ticket_of "c1" s_fetched_nothing = Some (0%nat, t_done) /\
  ticket_of "c1" s_close_rejected = Some (0%nat, t_done) /\
  ticket_of "c1" s_closed = None /\
  closeTimers s_unresolved = ∅ /\
  closeTimers s_fetched_nothing = ∅ /\
  closeTimers s_close_rejected = ∅ /\
  inflight s_unresolved = ∅ /\
  inflight s_fetched_nothing = ∅ /\
  inflight s_close_rejected = ∅ /\
  last (console s_unresolved) =
    Some {| l_level := ERROR; l_text := "Failed to fetch channel";
            l_error := Some (PlatformError "Unknown Channel") |} /\
  last (console s_fetched_nothing) =
    Some {| l_level := INFO; l_text := "Channel not found even after fetch";
            l_error := None |} /\
  last (console s_close_rejected) =
    Some {| l_level := ERROR; l_text := "Failed to close ticket";
            l_error := Some (PlatformError "Missing Access") |}.
Proof. repeat split; vm_compute; reflexivity. Qed.


(** C4, as stated, fails: the first message of the channel comes from an
    automated author; it satisfies the pending wait, the greeting is sent
    and its delivery creates the ticket. *)
Lemma bot_message_satisfies_first_message_wait :
  a_bot (m_author m_welcome) = true /\
  ticket_of "c1" s_waiting = None /\
  requests s_waiting = [] /\
  requests (run cfg0 s_waiting [(2, MessageCreate m_welcome)]) =
    [Send "c1" (Greeting "<@U>")] /\
  ticket_of "c1" s_welcomed = Some (0%nat, ticketData 3 ch0 "<@U>" "g1").
Proof. repeat split; vm_compute; reflexivity. Qed.

(** C5, as stated, fails: on a message without content the handler raises
    a TypeError, which its catch logs and counts. *)
Lemma missing_content_raises_TypeError :
  m_content m_no_content = None /\
  errors (stats s_tracked) = 0%nat /\
  errors (stats (handleUserMessage cfg0 m_no_content s_tracked)) = 1%nat /\
  last (console (handleUserMessage cfg0 m_no_content s_tracked)) =
    Some {| l_level := ERROR; l_text := "Failed to handle user message";
            l_error := Some TypeError |}.
Proof. repeat split; vm_compute; reflexivity. Qed.

(** C8, as stated, fails: for the completed ticket with its closure timer
    pending, no event that is not the firing of that timer takes the timer
    out of the table, so nothing the program can be handed cancels it.
    When it fires with the channel in the cache the closure send is
    issued; with the channel not in the cache and the fetch rejected, only
    the fetch was issued and no closure send follows. *)
Lemma no_event_cancels_closure_timer :
  ticket_of "c1" s_done = Some (0%nat, t_done) /\
  closeTimers s_done !! 0%nat = Some timer0 /\
  (forall now e,
     (forall cached, e <> CloseTimeout 0 cached) ->
     closeTimers (step cfg0 s_done (now, e)) !! 0%nat = Some timer0) /\
  requests (step cfg0 s_done (3600006, CloseTimeout 0 (Some ch0))) =
    requests s_done ++ [Send "c1" CloseCommand] /\
  requests s_unresolved = requests s_done ++ [Fetch "c1"] /\
  inflight s_unresolved = ∅ /\
  closeTimers s_unresolved = ∅.
Proof.
  split; [apply s_done_ticket|]. split; [apply s_done_timer|]. split.
  - intros now e Hne. apply closeTimers_step; [apply s_done_timer|done].
  - repeat split; vm_compute; reflexivity.
Qed.

(** *** The theorems with premises, at the scenario *)


Lemma bot_messages_filtered_by_message_handler_only_witness :
  mute (handleUserMessage cfg0 m_welcome s_tracked) = mute s_tracked.
Proof.
  exact (proj1 (bot_messages_filtered_by_message_handler_only cfg0 m_welcome s_tracked
                  eq_refl)).
Defined.

Lemma evidence_flags_monotone_witness :
  exists t', heap (run cfg0 s_address
                     [(5, MessageCreate m_image); (6, SendSettled 0 (Fulfilled "f1"))])
               !! 0%nat = Some t' /\ evidence_le t_address t'.
Proof.
  assert (Ht : ticket_of "c1" s_address = Some (0%nat, t_address))
    by (vm_compute; reflexivity).
  destruct (evidence_flags_monotone cfg0 s_address "c1" 0%nat t_address Ht) as [_ H].
  exact (H [(5, MessageCreate m_image); (6, SendSettled 0 (Fulfilled "f1"))]).
Defined.

End ScenarioFacts.

(** * Further properties *)

(** ** Channels outside the target category *)

Section Category.

Context (cfg : config).

Lemma strict_eq_false a b :
  a = None \/ b = None \/ (exists x y, a = Some x /\ b = Some y /\ x <> y) ->
  strict_eq a b = false.
Proof.
  intros [->|[->|(x & y & -> & -> & Hne)]]; [done|by destruct a|].
  cbn. by apply String.eqb_neq.
Qed.

(** X1: a channel created outside the target category, without a parent,
    or while no target category is configured, is ignored: nothing but the
    log changes; no wait is registered and the created count stays. *)
Theorem channel_outside_category_ignored (now : Z) (ch : channel) (s : state) :
  c_parentId ch = None \/ TICKET_CATEGORY cfg = None \/
  (exists p q, c_parentId ch = Some p /\ TICKET_CATEGORY cfg = Some q /\ p <> q) ->
  mute (step cfg s (now, ChannelCreate ch)) = mute s.
Proof.
  intros H. cbn [step]. unfold handleChannelCreation.
  rewrite (strict_eq_false _ _ H). cbn [negb].
  by rewrite mute_timer_end, mute_debug, mute_log.
Qed.

End Category.

(** ** The first-message wait is one-shot *)

Section OneShot.

Context (cfg : config).

Lemma filter_all {A} (P : A -> Prop) `{!forall x, Decision (P x)} (l : list A) :
  (forall x, x ∈ l -> P x) -> filter P l = l.
Proof.
  induction l as [|x l IH]; intros Hall; [done|].
  rewrite filter_cons_True by (apply Hall; left).
  rewrite IH; [done|]. intros y Hy. apply Hall. by right.
Qed.

Lemma filter_none {A} (P : A -> Prop) `{!forall x, Decision (P x)} (l : list A) :
  (forall x, x ∈ l -> ~ P x) -> filter P l = [].
Proof.
  induction l as [|x l IH]; intros Hall; [done|].
  rewrite filter_cons_False by (apply Hall; left).
  apply IH. intros y Hy. apply Hall. by right.
Qed.

Lemma waiters_afterFirstMessage ch m s :
  waiters (afterFirstMessage cfg ch m s) = waiters s.
Proof.
  unfold afterFirstMessage. destruct (m_content m); [|by logs].
  destruct (String.eqb _ _); by logs.
Qed.

Lemma waiters_messageHandler w s :
  waiters (messageHandler cfg w s) = filter (fun p => p.1 <> w) (waiters s).
Proof. unfold messageHandler. by logs. Qed.

Lemma waiters_handlers (ws : list (nat * waiter)) : forall s,
  waiters (foldl (fun s p => messageHandler cfg p.1 s) s ws) =
  filter (fun p => p.1 ∉ ws.*1) (waiters s).
Proof.
  induction ws as [|q ws IH]; intros s; cbn [foldl fmap list_fmap].
  - symmetry. apply filter_all. intros p _. apply not_elem_of_nil.
  - rewrite IH, waiters_messageHandler, list_filter_filter.
    apply list_filter_iff. intros p. rewrite not_elem_of_cons. tauto.
Qed.

Lemma waiters_notifyWaits m s :
  waiters (notifyWaits cfg m s) =
  filter (fun p => p.1 ∉ (listening m s).*1) (waiters s).
Proof.
  unfold notifyWaits.
  rewrite (foldl_preserves waiters);
    [|intros s0 p; destruct (w_timedOut p.2); [done|apply waiters_afterFirstMessage]].
  apply waiters_handlers.
Qed.

Lemma waiters_handleUserMessage m s : waiters (handleUserMessage cfg m s) = waiters s.
Proof.
  destruct (a_bot (m_author m)) eqn:Hbot.
  { apply mute_eq_waiters. by apply handleUserMessage_bot. }
  destruct (ticket_of (m_channel m) s) as [[a t]|] eqn:Ht.
  2:{ apply mute_eq_waiters. by apply handleUserMessage_untracked. }
  destruct (awaitingResponse t) eqn:Haw.
  2:{ apply mute_eq_waiters. by apply (handleUserMessage_not_awaiting cfg m s a t). }
  destruct (m_content m) as [content|] eqn:Hc.
  2:{ unfold handleUserMessage. rewrite Hbot, Ht, Haw, Hc. by logs. }
  destruct (m_attachments m) as [atts|] eqn:Hatts.
  2:{ unfold handleUserMessage. rewrite Hbot, Ht, Haw, Hc, Hatts. by logs. }
  change (waiters (mute (handleUserMessage cfg m s)) = waiters s).
  rewrite (handleUserMessage_awaiting cfg m s a t content atts) by done.
  cbv zeta. by destruct (_ && _).
Qed.

(** X2: after a message event, no wait is left listening on the channel
    of the message, whether it was pending or had timed out, and the waits
    of other channels are all still registered: a wait is satisfied by at
    most one message. *)
Theorem wait_is_one_shot (now : Z) (m : message) (s : state) :
  listening m (step cfg s (now, MessageCreate m)) = [] /\
  (forall p, p ∈ waiters s -> p.1 ∉ (listening m s).*1 ->
             p ∈ waiters (step cfg s (now, MessageCreate m))).
Proof.
  cbn [step]. unfold messageCreate.
  set (s1 := handleUserMessage cfg m s).
  assert (Hw : waiters s1 = waiters s) by apply waiters_handleUserMessage.
  assert (Hl : listening m s1 = listening m s) by (unfold listening; by rewrite Hw).
  split.
  - unfold listening at 1. rewrite waiters_notifyWaits, list_filter_filter.
    apply filter_none. intros p Hp [Hch Hnot]. apply Hnot.
    apply list_elem_of_fmap. exists p. split; [done|].
    unfold listening. apply list_elem_of_filter. by rewrite Hw in *.
  - intros p Hp Hnot. rewrite waiters_notifyWaits, Hl, Hw.
    by apply list_elem_of_filter.
Qed.

Lemma requests_resume_timedOut m (ws : list (nat * waiter)) : forall s,
  Forall (fun p => w_timedOut p.2 = true) ws ->
  foldl (fun s p =>
           if w_timedOut p.2 then s else afterFirstMessage cfg (w_channel p.2) m s)
        s ws = s.
Proof.
  induction ws as [|p ws IH]; intros s Hall; [done|].
  apply Forall_cons in Hall as [Hp Hall]. cbn [foldl]. rewrite Hp. by apply IH.
Qed.

Lemma set_waiters_ext f g s :
  f (waiters s) = g (waiters s) -> set_waiters f s = set_waiters g s.
Proof. unfold set_waiters. by intros ->. Qed.

Lemma mute_messageHandler w s :
  mute (messageHandler cfg w s) = mute (set_waiters (filter (fun p => p.1 <> w)) s).
Proof. unfold messageHandler. by logs. Qed.

Lemma mute_handlers (ws : list (nat * waiter)) : forall s,
  mute (foldl (fun s p => messageHandler cfg p.1 s) s ws) =
  mute (set_waiters (filter (fun p : nat * waiter => p.1 ∉ ws.*1)) s).
Proof.
  induction ws as [|q ws IH]; intros s; cbn [foldl fmap list_fmap].
  - f_equal. rewrite <- (set_waiters_ext id); [by destruct s|].
    symmetry. apply filter_all. intros p _. apply not_elem_of_nil.
  - rewrite IH.
    change (set_waiters (filter (fun p : nat * waiter => p.1 ∉ ws.*1))
              (mute (messageHandler cfg q.1 s)) =
            mute (set_waiters (filter (fun p : nat * waiter => p.1 ∉ q.1 :: ws.*1)) s)).
    rewrite mute_messageHandler.
    change (mute (set_waiters
                    (fun l => filter (fun p : nat * waiter => p.1 ∉ ws.*1)
                                (filter (fun p : nat * waiter => p.1 <> q.1) l)) s) =
            mute (set_waiters (filter (fun p : nat * waiter => p.1 ∉ q.1 :: ws.*1)) s)).
    f_equal. apply set_waiters_ext. rewrite list_filter_filter.
    apply list_filter_iff. intros p. rewrite not_elem_of_cons. tauto.
Qed.

(** X3: when the timeout of a pending wait fires, no ticket is created
    and nothing is sent: the registry, the requests, the parked handlers
    and the counters stay as they were, and the listener stays registered,
    marked as timed out.  A later message on the channel, when only
    timed-out waits listen, does no more than unregister them. *)
Theorem first_message_timeout_creates_nothing
    (now : Z) (w i : nat) (ch : channel) (s : state) :
  list_find (fun p : nat * waiter => p.1 = w) (waiters s) =
    Some (i, (w, {| w_channel := ch; w_timedOut := false |})) ->
  let s1 := step cfg s (now, WaitTimeout w) in
  registry s1 = registry s /\
  requests s1 = requests s /\
  inflight s1 = inflight s /\
  stats s1 = stats s /\
  waiters s1 = <[i := (w, {| w_channel := ch; w_timedOut := true |})]> (waiters s) /\
  (forall m s',
     Forall (fun p => w_timedOut p.2 = true) (listening m s') ->
     mute (notifyWaits cfg m s') =
     mute (set_waiters (filter (fun p => p.1 ∉ (listening m s').*1)) s')).
Proof.
  intros Hfind s1. subst s1. cbn [step].
  split; [apply registry_waitTimeout|].
  unfold waitTimeout, afterNoFirstMessage. rewrite Hfind. cbn [w_timedOut w_channel].
  split; [by logs|]. split; [by logs|]. split; [by logs|]. split; [by logs|].
  intros m s' Hall. unfold notifyWaits.
  rewrite requests_resume_timedOut by done. apply mute_handlers.
Qed.

End OneShot.

(** ** The registry is keyed by the channel id of its tickets *)

Section RegistryInvariant.

Context (cfg : config).

Lemma registry_wf_eq s s' : registry s' = registry s -> registry_wf s -> registry_wf s'.
Proof.
  intros H Hwf c a. rewrite (registry_activeTickets _ _ H), (registry_heap _ _ H).
  apply Hwf.
Qed.

Lemma channelId_merged t content atts : channelId (merged t content atts) = channelId t.
Proof.
  unfold merged.
  by destruct (Detector.hasNewEvmAddress content), (Detector.hasNewImage atts).
Qed.

Lemma registry_wf_insert s a t t' :
  heap s !! a = Some t -> channelId t' = channelId t ->
  registry_wf s -> registry_wf (set_heap (insert a t') s).
Proof.
  intros Ha Hid Hwf c b Hc. cbn in *. destruct (Hwf c b Hc) as (u & Hb & Hu).
  destruct (decide (a = b)) as [->|Hne].
  - exists t'. split; [|congruence].
    apply list_lookup_insert_eq. by eapply lookup_lt_Some.
  - exists u. by rewrite list_lookup_insert_ne.
Qed.

Lemma registry_wf_alter s a f :
  (forall t, channelId (f t) = channelId t) ->
  registry_wf s -> registry_wf (set_heap (alter f a) s).
Proof.
  intros Hf Hwf c b Hc. cbn in *. destruct (Hwf c b Hc) as (u & Hb & Hu).
  destruct (decide (a = b)) as [->|Hne].
  - exists (f u). by rewrite list_lookup_alter_eq, Hb, Hf.
  - exists u. by rewrite list_lookup_alter_ne.
Qed.

Lemma registry_wf_handleUserMessage m s :
  registry_wf s -> registry_wf (handleUserMessage cfg m s).
Proof.
  intros Hwf.
  destruct (handleUserMessage_registry cfg m s) as [H|(a & t & content & atts & Ht & H)].
  - by apply (registry_wf_eq s).
  - apply (registry_wf_eq _ _ H). apply ticket_of_Some in Ht as [_ Ha].
    apply (registry_wf_insert s a t); [done|apply channelId_merged|done].
Qed.

Lemma registry_wf_sendSettled now op r s :
  registry_wf s -> registry_wf (sendSettled cfg now op r s).
Proof.
  intros Hwf. unfold sendSettled.
  destruct (inflight s !! op) as [[ch tag|a chId|chId|chId]|]; try done;
    destruct r as [x|e].
  - apply (registry_wf_eq _ _ (registry_afterGreeting_fulfilled _ _ _ _ _ _)).
    intros c b. cbn. intros Hc.
    destruct (decide (c_id ch = c)) as [<-|Hne].
    + rewrite lookup_insert_eq in Hc. injection Hc as <-.
      exists (ticketData now ch tag x). split; [|done].
      by rewrite lookup_app_r, Nat.sub_diag.
    + rewrite lookup_insert_ne in Hc by done.
      destruct (Hwf c b Hc) as (u & Hb & Hu). exists u. split; [|done].
      by apply lookup_app_l_Some.
  - by apply (registry_wf_eq _ _ (registry_afterGreeting_rejected _ _ _ _ _ _)).
  - apply (registry_wf_eq _ _ (registry_afterForm_fulfilled _ _ _ _ _ _)).
    destruct (valid_date _);
      by apply (registry_wf_alter (set_inflight (delete op) s)).
  - by apply (registry_wf_eq _ _ (registry_afterForm_rejected _ _ _ _ _ _)).
  - apply (registry_wf_eq _ _ (registry_afterClose_fulfilled _ _ _ _ _)).
    intros c b. cbn. intros Hc. apply lookup_delete_Some in Hc as [_ Hc].
    by apply Hwf.
  - by apply (registry_wf_eq _ _ (registry_afterClose_rejected _ _ _ _ _)).
Qed.

Lemma registry_wf_step s ne : registry_wf s -> registry_wf (step cfg s ne).
Proof.
  intros Hwf. destruct ne as [now [ch|m|w|id cached| |op r|op r]]; cbn [step].
  - by apply (registry_wf_eq _ _ (registry_handleChannelCreation cfg ch s)).
  - unfold messageCreate. apply (registry_wf_eq _ _ (registry_notifyWaits cfg m _)).
    by apply registry_wf_handleUserMessage.
  - by apply (registry_wf_eq _ _ (registry_waitTimeout cfg w s)).
  - unfold closeTimeout. destruct (closeTimers s !! id); [|done].
    apply (registry_wf_eq _ _ (registry_closeTicket _ _ _)). exact Hwf.
  - exact Hwf.
  - by apply registry_wf_sendSettled.
  - by apply (registry_wf_eq _ _ (registry_fetchSettled cfg op r s)).
Qed.

Lemma registry_wf_run evs : forall s, registry_wf s -> registry_wf (run cfg s evs).
Proof.
  induction evs as [|ne evs IH]; intros s Hwf; [done|].
  cbn [run foldl]. apply IH. by apply registry_wf_step.
Qed.

Lemma registry_wf_new start : registry_wf (newTicketSender start).
Proof. intros c a. cbn. by rewrite lookup_empty. Qed.

(** X4: in every state the program reaches from its start, a channel id
    of the registry points at an existing ticket object whose channelId
    field is that id; two channel ids therefore never share a ticket
    object. *)
Theorem registry_keyed_by_channel_id (start : Z) (evs : list (Z * event)) :
  let s := run cfg (newTicketSender start) evs in
  (forall c a t, ticket_of c s = Some (a, t) -> channelId t = c) /\
  (forall c a, activeTickets s !! c = Some a -> is_Some (ticket_of c s)) /\
  (forall c c' a, activeTickets s !! c = Some a -> activeTickets s !! c' = Some a ->
                  c = c').
Proof.
  intros s. assert (Hwf : registry_wf s) by apply registry_wf_run, registry_wf_new.
  split; [|split].
  - intros c a t Ht. apply ticket_of_Some in Ht as [Hc Ha].
    destruct (Hwf c a Hc) as (u & Hu & Hid). congruence.
  - intros c a Hc. destruct (Hwf c a Hc) as (u & Hu & Hid).
    unfold ticket_of. rewrite Hc, Hu. by eexists.
  - intros c c' a Hc Hc'. destruct (Hwf c a Hc) as (u & Hu & Hid).
    destruct (Hwf c' a Hc') as (u' & Hu' & Hid'). congruence.
Qed.

(** X5: a message event leaves the tickets of all other channels as they
    are: in a state reached from the start, the ticket registered for a
    channel other than the one of the message is the same object with the
    same fields after the event. *)
Theorem message_leaves_other_channels (start now : Z) (evs : list (Z * event))
    (m : message) (c : string) :
  m_channel m <> c ->
  let s := run cfg (newTicketSender start) evs in
  ticket_of c (step cfg s (now, MessageCreate m)) = ticket_of c s.
Proof.
  intros Hne s. assert (Hwf : registry_wf s) by apply registry_wf_run, registry_wf_new.
  cbn [step]. unfold messageCreate.
  assert (Hreg : forall s1 s2, registry s1 = registry s2 -> ticket_of c s1 = ticket_of c s2).
  { intros s1 s2 H. unfold ticket_of.
    by rewrite (registry_activeTickets _ _ H), (registry_heap _ _ H). }
  rewrite (Hreg _ _ (registry_notifyWaits cfg m _)).
  destruct (handleUserMessage_registry cfg m s) as [H|(a & t & content & atts & Ht & H)].
  - by apply Hreg.
  - rewrite (Hreg _ _ H). unfold ticket_of. cbn.
    destruct (activeTickets s !! c) as [b|] eqn:Hc; [|done].
    apply ticket_of_Some in Ht as [Hm Ha].
    rewrite list_lookup_insert_ne; [done|]. intros ->.
    destruct (Hwf _ _ Hm) as (u & Hu & Hid). destruct (Hwf _ _ Hc) as (u' & Hu' & Hid').
    congruence.
Qed.

End RegistryInvariant.

(** ** Closed tickets were completed before *)

Section Counters.

Context (cfg : config).

Lemma closing_insert_fresh (k : cont) (m : gmap nat cont) :
  size (filter (fun p : nat * cont => is_closing p.2 = true) (<[fresh (dom m) := k]> m)) =
  (size (filter (fun p : nat * cont => is_closing p.2 = true) m) +
   (if is_closing k then 1 else 0))%nat.
Proof.
  assert (Hfresh : m !! fresh (dom m) = None) by apply not_elem_of_dom, is_fresh.
  rewrite map_filter_insert. destruct (is_closing k) eqn:Hk.
  - rewrite decide_True by done. rewrite map_size_insert_None; [lia|].
    apply map_lookup_filter_None. by left.
  - rewrite decide_False by (cbn; congruence). rewrite delete_id by done. lia.
Qed.

Lemma closing_delete op (k : cont) (m : gmap nat cont) :
  m !! op = Some k ->
  (size (filter (fun p : nat * cont => is_closing p.2 = true) (delete op m)) +
   (if is_closing k then 1 else 0))%nat =
  size (filter (fun p : nat * cont => is_closing p.2 = true) m).
Proof.
  intros Hop. rewrite map_filter_delete, map_size_delete.
  destruct (is_closing k) eqn:Hk.
  - assert (H : filter (fun p : nat * cont => is_closing p.2 = true) m !! op = Some k)
      by (by apply map_lookup_filter_Some).
    rewrite H.
    assert (0 < size (filter (fun p : nat * cont => is_closing p.2 = true) m))%nat; [|lia].
    destruct (decide (size (filter (fun p : nat * cont => is_closing p.2 = true) m) = 0%nat))
      as [Hz|]; [|lia].
    apply map_size_empty_inv in Hz. rewrite Hz in H. by rewrite lookup_empty in H.
  - assert (H : filter (fun p : nat * cont => is_closing p.2 = true) m !! op = None).
    { apply map_lookup_filter_None. right. intros x Hx. cbn. congruence. }
    rewrite H. cbn. lia.
Qed.

Lemma tally_mute s : tally (mute s) = tally s.
Proof. reflexivity. Qed.

Lemma tally_mute_eq s s' : mute s' = mute s -> tally s' = tally s.
Proof. intros H. by rewrite <- (tally_mute s'), H. Qed.

Lemma tally_errors s : tally (set_stats incr_errors s) = tally s.
Proof. reflexivity. Qed.

Lemma tally_await r k s :
  is_closing k = false -> tally (await r k s) = tally s.
Proof.
  intros Hk. unfold tally, closing, await. cbn.
  rewrite closing_insert_fresh, Hk. f_equal. lia.
Qed.

Lemma mute_extractUserTag_log m s : mute (extractUserTag_log cfg m s) = mute s.
Proof. unfold extractUserTag_log. destruct (m_mentions m); by rewrite !mute_debug. Qed.

Lemma tally_afterFirstMessage ch m s : tally (afterFirstMessage cfg ch m s) = tally s.
Proof.
  destruct (m_content m) as [content|] eqn:Hc.
  - rewrite (afterFirstMessage_present cfg ch m s content Hc).
    rewrite tally_await by done. apply tally_mute_eq.
    by rewrite mute_log, mute_extractUserTag_log, mute_log.
  - unfold afterFirstMessage. rewrite Hc.
    transitivity (tally (set_stats incr_errors s)); [|done].
    apply tally_mute_eq. by rewrite mute_timer_end, mute_logError.
Qed.

Lemma tally_messageHandler w s : tally (messageHandler cfg w s) = tally s.
Proof. unfold messageHandler. by logs. Qed.

Lemma tally_notifyWaits m s : tally (notifyWaits cfg m s) = tally s.
Proof.
  unfold notifyWaits.
  rewrite (foldl_preserves tally); [|intros s0 p; destruct (w_timedOut p.2);
    [done|apply tally_afterFirstMessage]].
  apply (foldl_preserves tally). intros. apply tally_messageHandler.
Qed.

Lemma tally_handleUserMessage m s : tally (handleUserMessage cfg m s) = tally s.
Proof.
  destruct (a_bot (m_author m)) eqn:Hbot.
  { apply tally_mute_eq. by apply handleUserMessage_bot. }
  destruct (ticket_of (m_channel m) s) as [[a t]|] eqn:Ht.
  2:{ apply tally_mute_eq. by apply handleUserMessage_untracked. }
  destruct (awaitingResponse t) eqn:Haw.
  2:{ apply tally_mute_eq. by apply (handleUserMessage_not_awaiting cfg m s a t). }
  destruct (m_content m) as [content|] eqn:Hc.
  2:{ unfold handleUserMessage. rewrite Hbot, Ht, Haw, Hc. cbn [negb].
      transitivity (tally (set_stats incr_errors s)); [|done].
      apply tally_mute_eq. by rewrite mute_timer_end, mute_logError. }
  destruct (m_attachments m) as [atts|] eqn:Hatts.
  2:{ unfold handleUserMessage. rewrite Hbot, Ht, Haw, Hc, Hatts. cbn [negb].
      transitivity (tally (set_stats incr_errors s)); [|done].
      apply tally_mute_eq. by rewrite mute_timer_end, mute_logError. }
  rewrite <- tally_mute.
  rewrite (handleUserMessage_awaiting cfg m s a t content atts) by done.
  cbv zeta. destruct (_ && _); [by rewrite tally_await|done].
Qed.

Lemma tally_handleChannelCreation ch s : tally (handleChannelCreation cfg ch s) = tally s.
Proof.
  unfold handleChannelCreation, waitForFirstMessage. destruct (negb _); by logs.
Qed.

Lemma tally_waitTimeout w s : tally (waitTimeout cfg w s) = tally s.
Proof.
  unfold waitTimeout, afterNoFirstMessage.
  destruct (list_find _ _) as [[i [w' wt]]|]; [|done].
  destruct (w_timedOut wt); [done|]. by logs.
Qed.

Lemma balanced_tally s s' : tally s' = tally s -> balanced s -> balanced s'.
Proof.
  unfold balanced, closures_pending, tally. intros [= H1 H2 H3 H4].
  rewrite H1, H2, H3, H4. done.
Qed.

Lemma balanced_closeTimeout id cached s : balanced s -> balanced (closeTimeout id cached s).
Proof.
  unfold closeTimeout. destruct (closeTimers s !! id) as [ct|] eqn:Hid; [|done].
  unfold balanced, closures_pending, closing, closeTicket.
  intros H. destruct cached as [ch|]; cbn in *;
    rewrite closing_insert_fresh, map_size_delete, Hid; cbn;
    (assert (0 < size (closeTimers s))%nat; [|lia]);
    (destruct (decide (size (closeTimers s) = 0%nat)) as [Hz|]; [|lia]);
    apply map_size_empty_inv in Hz; rewrite Hz in Hid; by rewrite lookup_empty in Hid.
Qed.

Lemma balanced_delete op k s :
  inflight s !! op = Some k -> balanced s -> balanced (set_inflight (delete op) s).
Proof.
  intros Hop. pose proof (closing_delete op _ _ Hop) as Hdel.
  unfold balanced, closures_pending, closing in *. cbn. lia.
Qed.

Lemma balanced_fetchSettled op r s : balanced s -> balanced (fetchSettled cfg op r s).
Proof.
  unfold fetchSettled. destruct (inflight s !! op) as [[ch tag|a chId|chId|chId]|] eqn:Hop;
    try done.
  intros H. pose proof (closing_delete op _ _ Hop) as Hdel. cbn in Hdel.
  destruct r as [[ch|]|e]; unfold afterFetch.
  - unfold balanced, closures_pending, closing, await in *. cbn.
    rewrite closing_insert_fresh. cbn. lia.
  - apply (balanced_tally (set_inflight (delete op) s)); [by logs|].
    by apply (balanced_delete op (AwaitFetch chId)).
  - apply (balanced_tally (set_inflight (delete op) s)); [by logs|].
    by apply (balanced_delete op (AwaitFetch chId)).
Qed.

Lemma balanced_sendSettled now op r s : balanced s -> balanced (sendSettled cfg now op r s).
Proof.
  unfold sendSettled. destruct (inflight s !! op) as [[ch tag|a chId|chId|chId]|] eqn:Hop;
    try done; intros H;
    pose proof (balanced_delete op _ s Hop H) as Hd;
    pose proof (closing_delete op _ _ Hop) as Hdel; cbn in Hdel.
  - apply (balanced_tally (set_inflight (delete op) s)); [|done].
    unfold afterGreeting. destruct r; by logs.
  - destruct r as [formId|e].
    + unfold balanced, closures_pending, closing in *.
      replace (ticketsClosed (stats (afterForm cfg now a chId (Fulfilled formId)
                 (set_inflight (delete op) s)))) with (ticketsClosed (stats s))
        by (unfold afterForm; destruct (valid_date _); by logs).
      replace (ticketsCompleted (stats (afterForm cfg now a chId (Fulfilled formId)
                 (set_inflight (delete op) s)))) with (S (ticketsCompleted (stats s)))
        by (unfold afterForm; destruct (valid_date _); by logs).
      replace (inflight (afterForm cfg now a chId (Fulfilled formId)
                 (set_inflight (delete op) s))) with (delete op (inflight s))
        by (unfold afterForm; destruct (valid_date _); by logs).
      assert (size (closeTimers (afterForm cfg now a chId (Fulfilled formId)
                 (set_inflight (delete op) s))) <= S (size (closeTimers s)))%nat; [|lia].
      rewrite (registry_closeTimers _ _ (registry_afterForm_fulfilled _ _ _ _ _ _)).
      destruct (valid_date _); cbn; [|lia].
      rewrite map_size_insert_None; [lia|]. apply not_elem_of_dom, is_fresh.
    + apply (balanced_tally (set_inflight (delete op) s)); [|done].
      unfold afterForm. by logs.
  - destruct r as [x|e].
    + unfold balanced, closures_pending, closing in *.
      replace (ticketsClosed (stats (afterClose cfg now chId (Fulfilled x)
                 (set_inflight (delete op) s)))) with (S (ticketsClosed (stats s)))
        by (unfold afterClose; by logs).
      replace (ticketsCompleted (stats (afterClose cfg now chId (Fulfilled x)
                 (set_inflight (delete op) s)))) with (ticketsCompleted (stats s))
        by (unfold afterClose; by logs).
      replace (inflight (afterClose cfg now chId (Fulfilled x)
                 (set_inflight (delete op) s))) with (delete op (inflight s))
        by (unfold afterClose; by logs).
      replace (closeTimers (afterClose cfg now chId (Fulfilled x)
                 (set_inflight (delete op) s))) with (closeTimers s)
        by (unfold afterClose; by logs).
      lia.
    + apply (balanced_tally (set_inflight (delete op) s)); [|done].
      unfold afterClose. by logs.
Qed.

Lemma balanced_step s ne : balanced s -> balanced (step cfg s ne).
Proof.
  intros H. destruct ne as [now [ch|m|w|id cached| |op r|op r]]; cbn [step].
  - by apply (balanced_tally _ _ (tally_handleChannelCreation ch s)).
  - unfold messageCreate. apply (balanced_tally (handleUserMessage cfg m s));
      [apply tally_notifyWaits|].
    by apply (balanced_tally _ _ (tally_handleUserMessage m s)).
  - by apply (balanced_tally _ _ (tally_waitTimeout w s)).
  - by apply balanced_closeTimeout.
  - exact H.
  - by apply balanced_sendSettled.
  - by apply balanced_fetchSettled.
Qed.

Lemma balanced_new start : balanced (newTicketSender start).
Proof. unfold balanced, closures_pending, closing. cbn. rewrite map_filter_empty. done. Qed.

(** X6: over any run from the start, the closed count plus the closures
    still under way (closure timers pending, closures waiting for their
    fetch or their send) never exceeds the completed count: every closure
    belongs to a completion. *)
Theorem closed_never_exceeds_completed (start : Z) (evs : list (Z * event)) :
  let s := run cfg (newTicketSender start) evs in
  (ticketsClosed (stats s) + closures_pending s <= ticketsCompleted (stats s))%nat /\
  (ticketsClosed (stats s) <= ticketsCompleted (stats s))%nat.
Proof.
  intros s.
  assert (H : balanced s).
  { subst s. generalize (newTicketSender start) (balanced_new start).
    induction evs as [|ne evs IH]; intros s0 H0; [done|].
    cbn [run foldl]. apply IH. by apply balanced_step. }
  unfold balanced in H. lia.
Qed.

End Counters.

(** ** The fallback closure *)

Section Fallback.

(** X7: whatever becomes of its notice, the fallback closure takes the
    ticket of its channel out of the registry and leaves every other
    channel registered as before; unlike closeTicket it records nothing in
    pendingClosures, does not count the ticket as closed and sets no
    timer.  A rejected notice is counted as one error, a fulfilled one as
    none. *)
Theorem fallback_closure_always_unregisters
    (chId : string) (r : settled string) (s : state) :
  let s' := afterFallbackNotice chId r s in
  ticket_of chId s' = None /\
  (forall c, c <> chId -> ticket_of c s' = ticket_of c s) /\
  heap s' = heap s /\
  pendingClosures s' = pendingClosures s /\
  ticketsClosed (stats s') = ticketsClosed (stats s) /\
  closeTimers s' = closeTimers s /\
  requests s' = requests s /\
  errors (stats s') =
    match r with
    | Fulfilled _ => errors (stats s)
    | Rejected _ => S (errors (stats s))
    end.
Proof.
  intros s'. subst s'. unfold afterFallbackNotice.
  split. { unfold ticket_of. destruct r; cbn; by rewrite lookup_delete_eq. }
  split. { intros c Hne. unfold ticket_of. destruct r; cbn;
           by rewrite lookup_delete_ne. }
  by destruct r.
Qed.

(** The notice goes to the channel handed in, not to the channel id. *)
Lemma fallbackCloseTicket_target chId ch s :
  (fallbackCloseTicket chId ch s).2 = c_id ch /\
  mute (fallbackCloseTicket chId ch s).1 = mute s.
Proof. done. Qed.

End Fallback.

(** ** Images and match lists *)

Module DetectorMore.

Import Detector.

Lemma prefix_app p : forall s, String.prefix p s = true <-> exists r, s = p +:+ r.
Proof.
  induction p as [|c p IH]; intros s.
  - split; [|by destruct s]. intros _. by exists s.
  - destruct s as [|d s]; cbn [String.prefix].
    { split; [discriminate|]. intros [r Hr]. discriminate Hr. }
    destruct (Ascii.ascii_dec c d) as [->|Hne].
    + rewrite IH. split; intros [r Hr]; exists r.
      * by rewrite Hr.
      * by injection Hr.
    + split; [discriminate|]. intros [r Hr]. injection Hr as Hcd _. congruence.
Qed.

Lemma isImage_iff att :
  isImage att = true <->
  exists rest, att_contentType att = Some ("image/" +:+ rest).
Proof.
  unfold isImage. destruct (att_contentType att) as [ct|].
  - rewrite andb_true_iff, prefix_app. split.
    + intros [_ [r ->]]. by exists r.
    + intros [r [= ->]]. split; [done|by exists r].
  - split; [done|by intros [r [=]]].
Qed.

(** X8: the image detection answers true exactly when some attachment of
    the message declares a content type that begins with image/, in that
    spelling; an attachment without content type never counts; and the
    image flag of a ticket after the merge is its old value or that
    answer. *)
Theorem image_detection_iff_image_content_type
    (t : ticket) (content : string) (atts : list attachment) :
  (hasNewImage atts = true <->
   exists att rest, att ∈ atts /\ att_contentType att = Some ("image/" +:+ rest)) /\
  hasImage (merged t content atts) = hasImage t || hasNewImage atts.
Proof.
  split.
  - unfold hasNewImage. destruct atts as [|a0 atts].
    { cbn. split; [done|]. intros (att & rest & Hin & _). by apply elem_of_nil in Hin. }
    rewrite bool_decide_eq_true_2 by (cbn; lia).
    rewrite existsb_exists. split.
    + intros (att & Hin & His). apply isImage_iff in His as [rest Hrest].
      exists att, rest. split; [by apply list_elem_of_In|done].
    + intros (att & rest & Hin & Hct). exists att.
      split; [by apply list_elem_of_In|]. apply isImage_iff. by exists rest.
  - unfold merged.
    destruct (hasNewEvmAddress content), (hasNewImage atts); cbn;
      by rewrite ?orb_true_r, ?orb_false_r.
Qed.

Example uppercase_type_is_no_image :
  hasNewImage [ {| att_id := "a"; att_name := "x.PNG";
                   att_contentType := Some "IMAGE/PNG"; att_size := 1 |} ] = false.
Proof. reflexivity. Qed.

Lemma length_append (a b : string) :
  String.length (a +:+ b) = (String.length a + String.length b)%nat.
Proof.
  induction a as [|c a IH]; [done|].
  change (S (String.length (a +:+ b)) = S (String.length a + String.length b)).
  by rewrite IH.
Qed.

Lemma evm_match_here_length s m :
  evm_match_here s = Some m -> String.length m = 42%nat /\ (42 <= String.length s)%nat.
Proof.
  intros H.
  destruct (DetectorFacts.evm_match_here_Some s m H) as (h & suf & -> & -> & Hlen & _).
  rewrite !length_append, Hlen. cbn. lia.
Qed.

Lemma match_all_bound s : forall k,
  (42 * length (match_all k s) <= String.length s - k)%nat.
Proof.
  induction s as [|c r IH]; intros k; cbn [match_all]; [cbn; lia|].
  destruct k as [|k].
  - destruct (evm_match_here (String c r)) as [m|] eqn:Hm.
    + apply evm_match_here_length in Hm as [_ Hlen]. cbn in Hlen.
      specialize (IH 41%nat). cbn [length String.length]. lia.
    + specialize (IH 0%nat). cbn [String.length]. lia.
  - specialize (IH k). cbn [String.length]. lia.
Qed.

Lemma match_all_shape s : forall k,
  Forall (fun m => exists h, m = "0x" +:+ h /\ String.length h = 40%nat /\ all_hex h)
         (match_all k s).
Proof.
  induction s as [|c r IH]; intros k; cbn [match_all]; [constructor|].
  destruct k as [|k]; [|apply IH].
  destruct (evm_match_here (String c r)) as [m|] eqn:Hm; [|apply IH].
  constructor; [|apply IH].
  destruct (DetectorFacts.evm_match_here_Some _ _ Hm) as (h & suf & -> & _ & Hlen & Hall).
  by exists h.
Qed.

(** X9: every entry of the list of matches is an address, 0x followed by
    40 hexadecimal characters; the entries do not overlap, so a text of n
    characters holds at most n / 42 of them; and the list is null, not
    empty, when nothing matches. *)
Theorem matches_are_disjoint_addresses (text : string) :
  (forall ms, evmMatches text = Some ms ->
     ms <> [] /\
     Forall (fun m => exists h, m = "0x" +:+ h /\ String.length h = 40%nat /\ all_hex h)
            ms /\
     (42 * length ms <= String.length text)%nat) /\
  (evmMatches text = None <-> hasNewEvmAddress text = false).
Proof.
  unfold hasNewEvmAddress, evmMatches. split.
  - intros ms Hms. pose proof (match_all_shape text 0) as Hshape.
    pose proof (match_all_bound text 0) as Hbound.
    destruct (match_all 0 text) as [|m0 ms0]; [done|]. injection Hms as <-.
    split; [done|]. split; [done|]. lia.
  - destruct (match_all 0 text); [done|]. cbn. split; [done|done].
Qed.

End DetectorMore.

(** ** The further properties at the scenario *)

Module MoreScenarioFacts.

Import Scenario MoreScenario.

Example two_tickets_tracked :
  ticket_of "c1" (run cfg0 (newTicketSender 0) evs_two) = Some (0%nat, t_address) /\
  ticket_of "c2" (run cfg0 (newTicketSender 0) evs_two) =
    Some (1%nat, ticketData 7 ch_b "<@V>" "g2").
Proof. split; vm_compute; reflexivity. Qed.

Lemma channel_outside_category_ignored_witness :
  mute (step cfg0 s_tracked (9, ChannelCreate ch_other)) = mute s_tracked.
Proof.
  apply channel_outside_category_ignored. right. right.
  exists "2002", "1001". repeat split. discriminate.
Defined.

Lemma first_message_timeout_creates_nothing_witness :
  registry (step cfg0 s_waiting (11, WaitTimeout 0)) = registry s_waiting /\
  requests (step cfg0 s_waiting (11, WaitTimeout 0)) = requests s_waiting /\
  waiters (step cfg0 s_waiting (11, WaitTimeout 0)) =
    [(0%nat, {| w_channel := ch0; w_timedOut := true |})].
Proof.
  assert (Hfind : list_find (fun p : nat * waiter => p.1 = 0%nat) (waiters s_waiting) =
                  Some (0%nat, (0%nat, {| w_channel := ch0; w_timedOut := false |})))
    by (vm_compute; reflexivity).
  destruct (first_message_timeout_creates_nothing cfg0 11 0 0 ch0 s_waiting Hfind)
    as (H1 & H2 & _ & _ & H3 & _).
  split; [exact H1|]. split; [exact H2|]. exact H3.
Defined.

Lemma message_leaves_other_channels_witness :
  ticket_of "c2" (step cfg0 (run cfg0 (newTicketSender 0) evs_two)
                    (8, MessageCreate m_image)) =
  ticket_of "c2" (run cfg0 (newTicketSender 0) evs_two).
Proof.
  apply message_leaves_other_channels. discriminate.
Defined.

End MoreScenarioFacts.

(** ** Messages on the channel of a completed ticket *)

Section CompletedEvents.

Context (cfg : config).

Lemma registry_ticket_of c s s' : registry s' = registry s -> ticket_of c s' = ticket_of c s.
Proof.
  intros H. unfold ticket_of.
  by rewrite (registry_activeTickets _ _ H), (registry_heap _ _ H).
Qed.

Lemma requests_messageHandler w s : requests (messageHandler cfg w s) = requests s.
Proof. unfold messageHandler. by logs. Qed.

Lemma requests_afterFirstMessage_exact ch m s :
  requests (afterFirstMessage cfg ch m s) =
  requests s ++ match m_content m with
                | Some _ => [Send (c_id ch) (Greeting (extractUserTag m))]
                | None => []
                end.
Proof.
  destruct (requests_afterFirstMessage cfg ch m s) as (rs & Hrs & Hsome).
  destruct (m_content m) as [content|] eqn:Hc.
  - by rewrite Hrs, Hsome.
  - unfold afterFirstMessage. rewrite Hc, app_nil_r. by logs.
Qed.

Lemma requests_resume m (ws : list (nat * waiter)) : forall s,
  requests (foldl (fun s p =>
              if w_timedOut p.2 then s else afterFirstMessage cfg (w_channel p.2) m s)
            s ws) = requests s ++ greetingsFor m ws.
Proof.
  unfold greetingsFor.
  induction ws as [|p ws IH]; intros s; cbn [foldl].
  - destruct (m_content m); by rewrite app_nil_r.
  - rewrite IH. destruct (w_timedOut p.2) eqn:Hp.
    + rewrite filter_cons_False by (by rewrite Hp). done.
    + rewrite filter_cons_True by done. rewrite requests_afterFirstMessage_exact.
      destruct (m_content m); rewrite <- app_assoc; [done|by rewrite !app_nil_r].
Qed.

Lemma requests_notifyWaits m s :
  requests (notifyWaits cfg m s) = requests s ++ greetingsFor m (listening m s).
Proof.
  unfold notifyWaits. rewrite requests_resume. f_equal.
  apply (foldl_preserves requests). intros. apply requests_messageHandler.
Qed.

Lemma greetingsFor_shape m s :
  Forall (fun r => exists tag, r = Send (m_channel m) (Greeting tag))
         (greetingsFor m (listening m s)).
Proof.
  unfold greetingsFor. destruct (m_content m); [|constructor].
  apply Forall_fmap, Forall_forall. intros p Hp.
  apply list_elem_of_filter in Hp as [_ Hp]. unfold listening in Hp.
  apply list_elem_of_filter in Hp as [Hch _]. cbn. rewrite <- Hch. by eexists.
Qed.

(** A message event on the channel of a completed ticket. *)
Lemma messageCreate_completed m s a t :
  ticket_of (m_channel m) s = Some (a, t) -> awaitingResponse t = false ->
  registry (messageCreate cfg m s) = registry s /\
  requests (messageCreate cfg m s) = requests s ++ greetingsFor m (listening m s).
Proof.
  intros Ht Haw. unfold messageCreate.
  pose proof (handleUserMessage_not_awaiting cfg m s a t Ht Haw) as Hh.
  split.
  - rewrite registry_notifyWaits, <- registry_mute, Hh. apply registry_mute.
  - rewrite requests_notifyWaits, (mute_eq_listening _ _ _ Hh). f_equal.
    change (requests (mute (handleUserMessage cfg m s)) = requests (mute s)).
    by rewrite Hh.
Qed.

Lemma messageCreate_completed_run (ms : list (Z * message)) : forall s c a t,
  ticket_of c s = Some (a, t) -> awaitingResponse t = false ->
  Forall (fun nm => m_channel nm.2 = c) ms ->
  registry (run cfg s (prod_map id MessageCreate <$> ms)) = registry s /\
  exists rs, requests (run cfg s (prod_map id MessageCreate <$> ms)) = requests s ++ rs /\
             Forall (fun r => exists tag, r = Send c (Greeting tag)) rs.
Proof.
  induction ms as [|[now m] ms IH]; intros s c a t Ht Haw Hall.
  { split; [done|]. exists []. by rewrite app_nil_r. }
  apply Forall_cons in Hall as [Hm Hall]. cbn in Hm.
  cbn [fmap list_fmap prod_map fst snd id run foldl step].
  fold (run cfg (messageCreate cfg m s) (prod_map id MessageCreate <$> ms)).
  rewrite <- Hm in Ht.
  destruct (messageCreate_completed m s a t Ht Haw) as [Hreg Hreq].
  destruct (IH (messageCreate cfg m s) c a t) as (Hreg' & rs & Hreq' & Hrs); [|done|done|].
  { rewrite (registry_ticket_of _ _ _ Hreg). by rewrite <- Hm. }
  split; [congruence|].
  exists (greetingsFor m (listening m s) ++ rs). split.
  - by rewrite Hreq', Hreq, app_assoc.
  - apply Forall_app. split; [|done]. rewrite <- Hm. apply greetingsFor_shape.
Qed.

(** C10, amended: once the record of a channel has [awaitingResponse]
    false, the message handler leaves the whole state but the log as it
    was, for any number of later messages on the channel, and so do the
    message events themselves as long as no first-message wait is
    registered for the channel.  In any state, message events on the
    channel leave the registry, and with it the record, as it was and
    issue no follow-up send; what a message event on the channel sends is
    one greeting for each first-message wait of the channel that has not
    timed out, when the message has its content, and nothing else. *)
Theorem completed_ticket_ignores_messages (s : state) (c : string) (a : nat) (t : ticket) :
  ticket_of c s = Some (a, t) ->
  awaitingResponse t = false ->
  (forall ms : list message,
     Forall (fun m => m_channel m = c) ms ->
     let s' := foldl (fun s m => handleUserMessage cfg m s) s ms in
     mute s' = mute s /\ ticket_of c s' = Some (a, t) /\ requests s' = requests s) /\
  (forall ms : list (Z * message),
     Forall (fun p => c_id (w_channel p.2) <> c) (waiters s) ->
     Forall (fun nm => m_channel nm.2 = c) ms ->
     let s' := run cfg s (prod_map id MessageCreate <$> ms) in
     mute s' = mute s /\ ticket_of c s' = Some (a, t) /\ requests s' = requests s) /\
  (forall ms : list (Z * message),
     Forall (fun nm => m_channel nm.2 = c) ms ->
     let s' := run cfg s (prod_map id MessageCreate <$> ms) in
     registry s' = registry s /\ ticket_of c s' = Some (a, t) /\
     form_sends c s' = form_sends c s /\
     exists rs, requests s' = requests s ++ rs /\
                Forall (fun r => exists tag, r = Send c (Greeting tag)) rs) /\
  (forall now m,
     m_channel m = c ->
     requests (step cfg s (now, MessageCreate m)) =
     requests s ++ greetingsFor m (listening m s)).
Proof.
  intros Ht Haw. split; [|split; [|split]].
  - intros ms Hall s'.
    assert (H : mute s' = mute s) by (eapply handleUserMessage_completed_fold; eauto).
    split; [done|]. split.
    + by rewrite (mute_eq_ticket_of _ _ _ H).
    + change (requests (mute s') = requests (mute s)). by rewrite H.
  - intros ms Hw Hall s'.
    assert (H : mute s' = mute s) by (eapply messageCreate_completed_fold; eauto).
    split; [done|]. split.
    + by rewrite (mute_eq_ticket_of _ _ _ H).
    + change (requests (mute s') = requests (mute s)). by rewrite H.
  - intros ms Hall s'.
    destruct (messageCreate_completed_run ms s c a t Ht Haw Hall) as (Hreg & rs & Hreq & Hrs).
    fold s' in Hreg, Hreq. split; [done|].
    split; [by rewrite (registry_ticket_of _ _ _ Hreg)|]. split; [|by exists rs].
    unfold form_sends. rewrite Hreq, filter_app, length_app.
    rewrite (filter_none _ rs); [cbn; lia|].
    intros r Hr ->. rewrite Forall_forall in Hrs. by destruct (Hrs _ Hr) as [tag [=]].
  - intros now m Hm. cbn [step]. rewrite <- Hm in Ht.
    by destruct (messageCreate_completed m s a t Ht Haw) as [_ ->].
Qed.

End CompletedEvents.

(** ** The follow-up send and the completion of a ticket object *)

Section FollowUp.

Context (cfg : config).

(** *** What a message event issues *)

Lemma handleUserMessage_cases m s :
  (followUpDue m s = false /\ parked (handleUserMessage cfg m s) = parked s /\
   requests (handleUserMessage cfg m s) = requests s /\
   ticketsCompleted (stats (handleUserMessage cfg m s)) = ticketsCompleted (stats s)) \/
  (exists a t content atts,
     a_bot (m_author m) = false /\ ticket_of (m_channel m) s = Some (a, t) /\
     awaitingResponse t = true /\ m_content m = Some content /\
     m_attachments m = Some atts /\
     mute (handleUserMessage cfg m s) =
       let t' := merged t content atts in
       let s' := set_heap (insert a t') (mute s) in
       if hasEvmAddress t' && hasImage t'
       then await (Send (m_channel m) FormMessage) (AwaitForm a (m_channel m)) s'
       else s').
Proof.
  unfold followUpDue.
  destruct (a_bot (m_author m)) eqn:Hbot.
  { left. pose proof (handleUserMessage_bot cfg m s Hbot) as H. split; [done|].
    split; [|split].
    - change (parked (mute (handleUserMessage cfg m s)) = parked (mute s)). by rewrite H.
    - change (requests (mute (handleUserMessage cfg m s)) = requests (mute s)). by rewrite H.
    - change (ticketsCompleted (stats (mute (handleUserMessage cfg m s))) =
              ticketsCompleted (stats (mute s))). by rewrite H. }
  destruct (ticket_of (m_channel m) s) as [[a t]|] eqn:Ht.
  2:{ left. pose proof (handleUserMessage_untracked cfg m s Ht) as H. split; [done|].
      split; [|split].
      - change (parked (mute (handleUserMessage cfg m s)) = parked (mute s)). by rewrite H.
      - change (requests (mute (handleUserMessage cfg m s)) = requests (mute s)). by rewrite H.
      - change (ticketsCompleted (stats (mute (handleUserMessage cfg m s))) =
                ticketsCompleted (stats (mute s))). by rewrite H. }
  destruct (awaitingResponse t) eqn:Haw.
  2:{ left. pose proof (handleUserMessage_not_awaiting cfg m s a t Ht Haw) as H.
      split; [by destruct (m_content m), (m_attachments m)|]. split; [|split].
      - change (parked (mute (handleUserMessage cfg m s)) = parked (mute s)). by rewrite H.
      - change (requests (mute (handleUserMessage cfg m s)) = requests (mute s)). by rewrite H.
      - change (ticketsCompleted (stats (mute (handleUserMessage cfg m s))) =
                ticketsCompleted (stats (mute s))). by rewrite H. }
  destruct (m_content m) as [content|] eqn:Hc.
  2:{ left. split; [done|]. unfold handleUserMessage. rewrite Hbot, Ht, Haw, Hc.
      split; [by logs|]. split; by logs. }
  destruct (m_attachments m) as [atts|] eqn:Hatts.
  2:{ left. split; [done|]. unfold handleUserMessage. rewrite Hbot, Ht, Haw, Hc, Hatts.
      split; [by logs|]. split; by logs. }
  right. exists a, t, content, atts. repeat (split; [done|]).
  by apply handleUserMessage_awaiting.
Qed.

Lemma foldl_invariant {A} (P : state -> Prop) (f : state -> A -> state) (l : list A) :
  (forall s x, P s -> P (f s x)) -> forall s, P s -> P (foldl f s l).
Proof.
  intros Hf. induction l as [|x l IH]; intros s Hs; [done|]. cbn [foldl]. by apply IH, Hf.
Qed.

Lemma inflight_await_lookup r k s op k0 :
  inflight s !! op = Some k0 -> inflight (await r k s) !! op = Some k0.
Proof.
  intros Hop. unfold await. cbn. rewrite lookup_insert_ne; [done|].
  intros Heq. pose proof (is_fresh (dom (inflight s))) as Hfresh.
  rewrite Heq in Hfresh. apply Hfresh, elem_of_dom. by exists k0.
Qed.

Lemma parked_messageHandler w s : parked (messageHandler cfg w s) = parked s.
Proof. unfold messageHandler. by logs. Qed.

Lemma afterFirstMessage_cases ch m s :
  (parked (afterFirstMessage cfg ch m s) = parked s /\
   stats (afterFirstMessage cfg ch m s) = stats s \/
   parked (afterFirstMessage cfg ch m s) = parked s /\
   stats (afterFirstMessage cfg ch m s) = incr_errors (stats s)) \/
  exists tag s0, parked s0 = parked s /\ stats s0 = stats s /\
    afterFirstMessage cfg ch m s = await (Send (c_id ch) (Greeting tag)) (AwaitGreeting ch tag) s0.
Proof.
  unfold afterFirstMessage. destruct (m_content m); [|left; right; by logs].
  destruct (String.eqb _ _); [left; left; by logs|].
  right. eexists _, _. split; [|split; [|reflexivity]]; by logs.
Qed.

Lemma inflight_afterFirstMessage_lookup ch m s op k :
  inflight s !! op = Some k -> inflight (afterFirstMessage cfg ch m s) !! op = Some k.
Proof.
  intros Hop. destruct (afterFirstMessage_cases ch m s)
    as [[[H _]|[H _]]|(tag & s0 & H & _ & ->)].
  - injection H as _ ->. done.
  - injection H as _ ->. done.
  - apply inflight_await_lookup. injection H as _ ->. done.
Qed.

Lemma inflight_notifyWaits_lookup m s op k :
  inflight s !! op = Some k -> inflight (notifyWaits cfg m s) !! op = Some k.
Proof.
  intros Hop. unfold notifyWaits.
  apply (foldl_invariant (fun s' => inflight s' !! op = Some k)).
  - intros s0 p H. destruct (w_timedOut p.2); [done|].
    by apply inflight_afterFirstMessage_lookup.
  - apply (foldl_invariant (fun s' => inflight s' !! op = Some k)); [|done].
    intros s0 p H. pose proof (parked_messageHandler p.1 s0) as [= _ ->]. done.
Qed.

Lemma ticketsCompleted_notifyWaits m s :
  ticketsCompleted (stats (notifyWaits cfg m s)) = ticketsCompleted (stats s).
Proof.
  pose proof (tally_notifyWaits cfg m s) as H. unfold tally in H. congruence.
Qed.

Lemma form_sends_app c s s' rs :
  requests s' = requests s ++ rs ->
  form_sends c s' =
  (form_sends c s + length (filter (fun r => r = Send c FormMessage) rs))%nat.
Proof. intros H. unfold form_sends. by rewrite H, filter_app, length_app. Qed.

Lemma form_sends_notifyWaits c m s :
  form_sends c (notifyWaits cfg m s) = form_sends c s.
Proof.
  rewrite (form_sends_app c s _ _ (requests_notifyWaits cfg m s)).
  rewrite (filter_none _ (greetingsFor m (listening m s))); [cbn; lia|].
  intros r Hr ->. pose proof (greetingsFor_shape m s) as Hall.
  rewrite Forall_forall in Hall. by destruct (Hall _ Hr) as [tag [=]].
Qed.

(** A message event issues the follow-up send exactly when it is due. *)
Lemma form_sends_messageCreate m s c :
  form_sends c (messageCreate cfg m s) =
  (form_sends c s +
   (if followUpDue m s && bool_decide (c = m_channel m) then 1 else 0))%nat.
Proof.
  unfold messageCreate. rewrite form_sends_notifyWaits.
  destruct (handleUserMessage_cases m s)
    as [(Hdue & _ & Hreq & _)|(a & t & content & atts & Hbot & Ht & Haw & Hc & Hatts & H)].
  - rewrite Hdue. cbn [andb]. unfold form_sends. rewrite Hreq. lia.
  - assert (Hdue : followUpDue m s =
                   hasEvmAddress (merged t content atts) && hasImage (merged t content atts)).
    { unfold followUpDue. by rewrite Hbot, Ht, Hc, Hatts, Haw. }
    rewrite Hdue. cbv zeta in H.
    change (form_sends c (handleUserMessage cfg m s))
      with (form_sends c (mute (handleUserMessage cfg m s))). rewrite H.
    destruct (_ && _); cbn [andb].
    + unfold form_sends, await. cbn. rewrite filter_app, length_app. f_equal.
      rewrite filter_cons. case_bool_decide as Hcm.
      * subst c. by rewrite decide_True.
      * rewrite decide_False; [done|]. intros [= Heq]. by apply Hcm.
    + unfold form_sends. cbn. lia.
Qed.

Lemma messageCreate_due m s a t content atts :
  a_bot (m_author m) = false ->
  ticket_of (m_channel m) s = Some (a, t) ->
  awaitingResponse t = true ->
  m_content m = Some content ->
  m_attachments m = Some atts ->
  let t' := merged t content atts in
  let s1 := messageCreate cfg m s in
  heap s1 !! a = Some t' /\
  ticket_of (m_channel m) s1 = Some (a, t') /\
  awaitingResponse t' = true /\
  completedAt t' = completedAt t /\
  ticketsCompleted (stats s1) = ticketsCompleted (stats s) /\
  closeTimers s1 = closeTimers s /\
  (hasEvmAddress t' && hasImage t' = true ->
   inflight s1 !! fresh (dom (inflight s)) = Some (AwaitForm a (m_channel m))).
Proof.
  intros Hbot Ht Haw Hc Hatts t' s1. subst s1. unfold messageCreate.
  pose proof (handleUserMessage_awaiting cfg m s a t content atts Hbot Ht Haw Hc Hatts) as H.
  cbv zeta in H. fold t' in H.
  destruct (awaiting_merged t content atts) as [Haw' Hcomp']. fold t' in Haw', Hcomp'.
  pose proof (registry_notifyWaits cfg m (handleUserMessage cfg m s)) as Hreg.
  assert (Hticket : ticket_of (m_channel m) (handleUserMessage cfg m s) = Some (a, t')).
  { rewrite <- ticket_of_mute, H.
    destruct (_ && _); apply (ticket_of_insert (m_channel m) (mute s) a t t');
      by rewrite ticket_of_mute. }
  assert (Hticket' : ticket_of (m_channel m) (notifyWaits cfg m (handleUserMessage cfg m s))
                     = Some (a, t')) by (by rewrite (registry_ticket_of _ _ _ Hreg)).
  split; [by apply ticket_of_Some in Hticket' as [_ ?]|]. split; [done|].
  split; [congruence|]. split; [done|].
  split. { rewrite ticketsCompleted_notifyWaits.
           pose proof (tally_handleUserMessage cfg m s) as Ht'. unfold tally in Ht'.
           congruence. }
  split. { rewrite (registry_closeTimers _ _ Hreg).
           change (closeTimers (mute (handleUserMessage cfg m s)) = closeTimers s).
           rewrite H. by destruct (_ && _). }
  intros Hboth. apply inflight_notifyWaits_lookup.
  change (inflight (mute (handleUserMessage cfg m s)) !! fresh (dom (inflight s)) =
          Some (AwaitForm a (m_channel m))).
  rewrite H, Hboth. apply lookup_insert_eq.
Qed.

(** *** What the settling of the follow-up send does *)

Lemma sendSettled_form_fulfilled now op a c t formId s :
  inflight s !! op = Some (AwaitForm a c) ->
  heap s !! a = Some t ->
  let s2 := sendSettled cfg now op (Fulfilled formId) s in
  heap s2 !! a = Some (mark_completed now formId t) /\
  ticketsCompleted (stats s2) = S (ticketsCompleted (stats s)) /\
  activeTickets s2 = activeTickets s /\
  requests s2 = requests s /\
  inflight s2 = delete op (inflight s) /\
  (valid_date (closeTime cfg now) = true ->
   stats s2 = incr_ticketsCompleted (stats s) /\
   closeTimers s2 =
     <[fresh (dom (closeTimers s)) :=
         {| ct_channel := c; ct_delay := timerDelay (closeTimeoutMs cfg);
            ct_setAt := now |}]>
       (closeTimers s)) /\
  (valid_date (closeTime cfg now) = false ->
   stats s2 = incr_errors (incr_ticketsCompleted (stats s)) /\
   closeTimers s2 = closeTimers s).
Proof.
  intros Hop Ha s2. subst s2. unfold sendSettled. rewrite Hop.
  pose proof (mute_afterForm_fulfilled cfg now a c formId (set_inflight (delete op) s)) as H.
  set (s2 := afterForm cfg now a c (Fulfilled formId) (set_inflight (delete op) s)) in *.
  split. { change (heap (mute s2) !! a = Some (mark_completed now formId t)). rewrite H.
           destruct (valid_date _); cbn; by rewrite list_lookup_alter_eq, Ha. }
  split. { change (ticketsCompleted (stats (mute s2)) = S (ticketsCompleted (stats s))).
           rewrite H. by destruct (valid_date _). }
  split. { change (activeTickets (mute s2) = activeTickets s). rewrite H.
           by destruct (valid_date _). }
  split. { change (requests (mute s2) = requests s). rewrite H. by destruct (valid_date _). }
  split. { change (inflight (mute s2) = delete op (inflight s)). rewrite H.
           by destruct (valid_date _). }
  split; intros Hvalid; rewrite Hvalid in H.
  - split; [change (stats (mute s2) = incr_ticketsCompleted (stats s))|
            change (closeTimers (mute s2) = <[fresh (dom (closeTimers s)) :=
              {| ct_channel := c; ct_delay := timerDelay (closeTimeoutMs cfg);
                 ct_setAt := now |}]> (closeTimers s))]; by rewrite H.
  - split; [change (stats (mute s2) = incr_errors (incr_ticketsCompleted (stats s)))|
            change (closeTimers (mute s2) = closeTimers s)]; by rewrite H.
Qed.

Lemma sendSettled_form_rejected now op a c e s :
  inflight s !! op = Some (AwaitForm a c) ->
  let s2 := sendSettled cfg now op (Rejected e) s in
  registry s2 = registry s /\
  stats s2 = incr_errors (stats s) /\
  requests s2 = requests s /\
  inflight s2 = delete op (inflight s).
Proof.
  intros Hop s2. subst s2. unfold sendSettled. rewrite Hop.
  pose proof (mute_afterForm_rejected cfg now a c e (set_inflight (delete op) s)) as H.
  set (s2 := afterForm cfg now a c (Rejected e) (set_inflight (delete op) s)) in *.
  split; [subst s2; by rewrite registry_afterForm_rejected|].
  split; [change (stats (mute s2) = incr_errors (stats s))|
          split; [change (requests (mute s2) = requests s)|
                  change (inflight (mute s2) = delete op (inflight s))]]; by rewrite H.
Qed.

(** *** Nothing else completes a ticket object *)

Lemma completion_origin s now e a t t' :
  heap s !! a = Some t -> awaitingResponse t = true ->
  heap (step cfg s (now, e)) !! a = Some t' -> awaitingResponse t' = false ->
  exists op c formId,
    e = SendSettled op (Fulfilled formId) /\ inflight s !! op = Some (AwaitForm a c).
Proof.
  intros Ha Haw. destruct e as [ch|m|w|id cached| |op r|op r]; cbn [step].
  - rewrite (registry_heap _ _ (registry_handleChannelCreation cfg ch s)). congruence.
  - unfold messageCreate. rewrite (registry_heap _ _ (registry_notifyWaits cfg m _)).
    destruct (handleUserMessage_registry cfg m s) as [H|(a0 & t0 & content & atts & Ht0 & H)];
      rewrite (registry_heap _ _ H); [congruence|]. cbn.
    apply ticket_of_Some in Ht0 as [_ Ha0].
    destruct (decide (a0 = a)) as [->|Hne].
    + rewrite list_lookup_insert_eq by (by eapply lookup_lt_Some).
      intros [= <-]. destruct (awaiting_merged t0 content atts) as [Haw0 _]. congruence.
    + rewrite list_lookup_insert_ne by done. congruence.
  - rewrite (registry_heap _ _ (registry_waitTimeout cfg w s)). congruence.
  - unfold closeTimeout. destruct (closeTimers s !! id); [|congruence].
    rewrite (registry_heap _ _ (registry_closeTicket _ _ _)). cbn. congruence.
  - cbn. congruence.
  - unfold sendSettled.
    destruct (inflight s !! op) as [[ch tag|a0 chId|chId|chId]|] eqn:Hop; try congruence;
      destruct r as [x|e].
    + rewrite (registry_heap _ _ (registry_afterGreeting_fulfilled _ _ _ _ _ _)). cbn.
      rewrite lookup_app_l by (by eapply lookup_lt_Some). congruence.
    + rewrite (registry_heap _ _ (registry_afterGreeting_rejected _ _ _ _ _ _)).
      cbn. congruence.
    + rewrite (registry_heap _ _ (registry_afterForm_fulfilled _ _ _ _ _ _)).
      destruct (decide (a0 = a)) as [->|Hne]; [intros _ _; by exists op, chId, x|].
      destruct (valid_date _); cbn; rewrite list_lookup_alter_ne by done; congruence.
    + rewrite (registry_heap _ _ (registry_afterForm_rejected _ _ _ _ _ _)).
      cbn. congruence.
    + rewrite (registry_heap _ _ (registry_afterClose_fulfilled _ _ _ _ _)).
      cbn. congruence.
    + rewrite (registry_heap _ _ (registry_afterClose_rejected _ _ _ _ _)).
      cbn. congruence.
  - rewrite (registry_heap _ _ (registry_fetchSettled cfg op r s)). congruence.
Qed.

Lemma completed_count_origin s now e :
  ticketsCompleted (stats (step cfg s (now, e))) <> ticketsCompleted (stats s) ->
  exists op a c formId,
    e = SendSettled op (Fulfilled formId) /\ inflight s !! op = Some (AwaitForm a c).
Proof.
  destruct e as [ch|m|w|id cached| |op r|op r]; cbn [step]; intros Hne.
  - pose proof (tally_handleChannelCreation cfg ch s) as H. unfold tally in H. congruence.
  - unfold messageCreate in Hne. rewrite ticketsCompleted_notifyWaits in Hne.
    pose proof (tally_handleUserMessage cfg m s) as H. unfold tally in H. congruence.
  - pose proof (tally_waitTimeout cfg w s) as H. unfold tally in H. congruence.
  - exfalso. apply Hne. unfold closeTimeout, closeTicket.
    destruct (closeTimers s !! id); [|done]. destruct cached; by logs.
  - by destruct Hne.
  - unfold sendSettled in Hne.
    destruct (inflight s !! op) as [[ch tag|a chId|chId|chId]|] eqn:Hop;
      try (by destruct Hne); destruct r as [x|e];
      try (exfalso; apply Hne; unfold afterGreeting, afterForm, afterClose; by logs).
    by exists op, a, chId, x.
  - exfalso. apply Hne. unfold fetchSettled, afterFetch.
    destruct (inflight s !! op) as [[]|]; try done. destruct r as [[ch|]|e]; by logs.
Qed.

(** *** Completed objects have both flags *)

Lemma cw_eq s s' : parked s' = parked s -> completion_wf s -> completion_wf s'.
Proof.
  intros [= Hh Hi] [H1 H2]. split.
  - intros a t. rewrite Hh. apply H1.
  - intros op a c. rewrite Hh, Hi. apply H2.
Qed.

Lemma cw_mute s : completion_wf (mute s) -> completion_wf s.
Proof. by apply cw_eq. Qed.

Lemma cw_await r k s :
  (forall a c, k = AwaitForm a c ->
     exists t, heap s !! a = Some t /\ hasEvmAddress t = true /\ hasImage t = true) ->
  completion_wf s -> completion_wf (await r k s).
Proof.
  intros Hk [H1 H2]. split; [exact H1|]. intros op a c. unfold await. cbn.
  intros Hop. apply lookup_insert_Some in Hop as [[_ Hop]|[_ Hop]];
    [by apply (Hk a c)|by apply (H2 op a c)].
Qed.

Lemma cw_delete op s : completion_wf s -> completion_wf (set_inflight (delete op) s).
Proof.
  intros [H1 H2]. split; [exact H1|]. intros op' a c. cbn.
  intros Hop. apply lookup_delete_Some in Hop as [_ Hop]. by apply (H2 op' a c).
Qed.

Lemma cw_insert a t t' s :
  heap s !! a = Some t -> evidence_le t t' -> awaitingResponse t' = true ->
  completion_wf s -> completion_wf (set_heap (insert a t') s).
Proof.
  intros Ha [Hle1 Hle2] Haw [H1 H2]. split; cbn.
  - intros b u Hb Hu. destruct (decide (a = b)) as [->|Hne].
    + rewrite list_lookup_insert_eq in Hb by (by eapply lookup_lt_Some). congruence.
    + rewrite list_lookup_insert_ne in Hb by done. eauto.
  - intros op b c Hop. destruct (H2 op b c Hop) as (u & Hb & Hu1 & Hu2).
    destruct (decide (a = b)) as [->|Hne].
    + exists t'. rewrite list_lookup_insert_eq by (by eapply lookup_lt_Some).
      assert (u = t) as -> by congruence. auto.
    + exists u. by rewrite list_lookup_insert_ne.
Qed.

Lemma cw_complete now formId a t s :
  heap s !! a = Some t -> hasEvmAddress t = true -> hasImage t = true ->
  completion_wf s -> completion_wf (set_heap (alter (mark_completed now formId) a) s).
Proof.
  intros Ha He Hi [H1 H2]. split; cbn.
  - intros b u Hb Hu. destruct (decide (a = b)) as [->|Hne].
    + rewrite list_lookup_alter_eq, Ha in Hb. injection Hb as <-. cbn. by eauto.
    + rewrite list_lookup_alter_ne in Hb by done. eauto.
  - intros op b c Hop. destruct (H2 op b c Hop) as (u & Hb & Hu1 & Hu2).
    destruct (decide (a = b)) as [->|Hne].
    + exists (mark_completed now formId u). by rewrite list_lookup_alter_eq, Hb.
    + exists u. by rewrite list_lookup_alter_ne.
Qed.

Lemma cw_app t s :
  awaitingResponse t = true ->
  completion_wf s -> completion_wf (set_heap (fun h => h ++ [t]) s).
Proof.
  intros Haw [H1 H2]. split; cbn.
  - intros b u Hb Hu. apply lookup_app_Some in Hb as [Hb|[_ Hb]]; [eauto|].
    apply list_lookup_singleton_Some in Hb as [_ <-]. congruence.
  - intros op b c Hop. destruct (H2 op b c Hop) as (u & Hb & Hu).
    exists u. split; [by apply lookup_app_l_Some|done].
Qed.

Lemma cw_handleUserMessage m s :
  completion_wf s -> completion_wf (handleUserMessage cfg m s).
Proof.
  intros Hwf. destruct (handleUserMessage_cases m s)
    as [(_ & Hp & _)|(a & t & content & atts & Hbot & Ht & Haw & Hc & Hatts & H)].
  - by apply (cw_eq s).
  - apply cw_mute. rewrite H. cbv zeta.
    apply ticket_of_Some in Ht as [_ Ha].
    destruct (awaiting_merged t content atts) as [Haw' _].
    assert (Hins : completion_wf (set_heap (insert a (merged t content atts)) (mute s))).
    { apply (cw_insert a t); [done|apply evidence_le_merged|congruence|].
      by apply (cw_eq s). }
    destruct (hasEvmAddress _ && hasImage _) eqn:Hboth; [|done].
    apply cw_await; [|done]. intros a' c' [= <- <-].
    exists (merged t content atts). apply andb_true_iff in Hboth as [? ?].
    split; [|done]. cbn. apply list_lookup_insert_eq. by eapply lookup_lt_Some.
Qed.

Lemma cw_notifyWaits m s : completion_wf s -> completion_wf (notifyWaits cfg m s).
Proof.
  intros Hwf. unfold notifyWaits. apply (foldl_invariant completion_wf).
  - intros s0 p H. destruct (w_timedOut p.2); [done|].
    destruct (afterFirstMessage_cases (w_channel p.2) m s0)
      as [[[Hp _]|[Hp _]]|(tag & s1 & Hp & _ & ->)]; [by apply (cw_eq s0)..|].
    apply cw_await; [done|]. by apply (cw_eq s0).
  - apply (foldl_invariant completion_wf); [|done].
    intros s0 p H. apply (cw_eq s0); [apply parked_messageHandler|done].
Qed.

Lemma cw_sendSettled now op r s :
  completion_wf s -> completion_wf (sendSettled cfg now op r s).
Proof.
  intros Hwf. unfold sendSettled.
  destruct (inflight s !! op) as [[ch tag|a chId|chId|chId]|] eqn:Hop; try done;
    destruct r as [x|e].
  - apply cw_mute. rewrite mute_afterGreeting_fulfilled.
    apply (cw_eq (set_heap (fun h => h ++ [ticketData now ch tag x])
                    (set_inflight (delete op) s))); [done|].
    apply cw_app; [done|]. by apply cw_delete.
  - apply (cw_eq (set_inflight (delete op) s)); [|by apply cw_delete].
    unfold afterGreeting. by logs.
  - destruct Hwf as [H1 H2]. destruct (H2 op a chId Hop) as (t & Ha & He & Hi).
    apply cw_mute. rewrite mute_afterForm_fulfilled.
    apply (cw_eq (set_heap (alter (mark_completed now x) a) (set_inflight (delete op) s)));
      [by destruct (valid_date _)|].
    apply (cw_complete now x a t); [done..|]. by apply cw_delete.
  - apply cw_mute. rewrite mute_afterForm_rejected.
    apply (cw_eq (set_inflight (delete op) s)); [done|by apply cw_delete].
  - apply (cw_eq (set_inflight (delete op) s)); [|by apply cw_delete].
    unfold afterClose. by logs.
  - apply (cw_eq (set_inflight (delete op) s)); [|by apply cw_delete].
    unfold afterClose. by logs.
Qed.

Lemma cw_step s ne : completion_wf s -> completion_wf (step cfg s ne).
Proof.
  intros Hwf. destruct ne as [now [ch|m|w|id cached| |op r|op r]]; cbn [step].
  - apply (cw_eq s); [|done]. unfold handleChannelCreation, waitForFirstMessage.
    destruct (negb _); by logs.
  - unfold messageCreate. by apply cw_notifyWaits, cw_handleUserMessage.
  - apply (cw_eq s); [|done]. unfold waitTimeout, afterNoFirstMessage.
    destruct (list_find _ _) as [[i [w' wt]]|]; [|done].
    destruct (w_timedOut wt); [done|]. by logs.
  - unfold closeTimeout. destruct (closeTimers s !! id); [|done].
    unfold closeTicket. destruct cached; (apply cw_await; [done|]); by apply (cw_eq s).
  - by apply (cw_eq s).
  - by apply cw_sendSettled.
  - unfold fetchSettled.
    destruct (inflight s !! op) as [[ch tag|a chId|chId|chId]|] eqn:Hop; try done.
    unfold afterFetch. destruct r as [[ch|]|e].
    + apply cw_await; [done|]. by apply cw_delete.
    + apply (cw_eq (set_inflight (delete op) s)); [by logs|by apply cw_delete].
    + apply (cw_eq (set_inflight (delete op) s)); [by logs|by apply cw_delete].
Qed.

Lemma cw_run evs : forall s, completion_wf s -> completion_wf (run cfg s evs).
Proof.
  induction evs as [|ne evs IH]; intros s Hwf; [done|].
  cbn [run foldl]. by apply IH, cw_step.
Qed.

Lemma cw_new start : completion_wf (newTicketSender start).
Proof. split; intros *; cbn; by rewrite ?lookup_nil, ?lookup_empty. Qed.

(** C1, amended: a message event issues the follow-up send exactly when
    the message qualifies and both flags of the record of its channel are
    true after the merge; the send is issued for the ticket object that is
    the record at that moment, and nothing is completed yet.  That object
    is completed (awaitingResponse false, completedAt and formMessageId
    set, completed count incremented, one closure timer set when the close
    time is a valid date) when that send is fulfilled, whenever that
    happens and whatever the record of the channel is by then; when the
    send is rejected the registry stays as it was and the error is
    counted.  No other event completes a ticket object or increments the
    completed count, and in every state the program reaches a completed
    object has both flags.  While a completed object is the record of its
    channel, no message event issues a follow-up send. *)
Theorem completion_iff_both_flags_and_send_fulfilled (now : Z) (s : state) :
  (forall m c,
     form_sends c (step cfg s (now, MessageCreate m)) =
     (form_sends c s +
      (if followUpDue m s && bool_decide (c = m_channel m) then 1 else 0))%nat) /\
  (forall m a t content atts,
     a_bot (m_author m) = false ->
     ticket_of (m_channel m) s = Some (a, t) ->
     awaitingResponse t = true ->
     m_content m = Some content ->
     m_attachments m = Some atts ->
     let t' := merged t content atts in
     let s1 := step cfg s (now, MessageCreate m) in
     followUpDue m s = hasEvmAddress t' && hasImage t' /\
     heap s1 !! a = Some t' /\
     ticket_of (m_channel m) s1 = Some (a, t') /\
     awaitingResponse t' = true /\
     completedAt t' = completedAt t /\
     ticketsCompleted (stats s1) = ticketsCompleted (stats s) /\
     closeTimers s1 = closeTimers s /\
     (hasEvmAddress t' && hasImage t' = true ->
      inflight s1 !! fresh (dom (inflight s)) = Some (AwaitForm a (m_channel m)))) /\
  (forall op a c t formId,
     inflight s !! op = Some (AwaitForm a c) ->
     heap s !! a = Some t ->
     let s2 := step cfg s (now, SendSettled op (Fulfilled formId)) in
     heap s2 !! a = Some (mark_completed now formId t) /\
     ticketsCompleted (stats s2) = S (ticketsCompleted (stats s)) /\
     activeTickets s2 = activeTickets s /\
     requests s2 = requests s /\
     inflight s2 = delete op (inflight s) /\
     (valid_date (closeTime cfg now) = true ->
      stats s2 = incr_ticketsCompleted (stats s) /\
      closeTimers s2 =
        <[fresh (dom (closeTimers s)) :=
            {| ct_channel := c; ct_delay := timerDelay (closeTimeoutMs cfg);
               ct_setAt := now |}]>
          (closeTimers s)) /\
     (valid_date (closeTime cfg now) = false ->
      stats s2 = incr_errors (incr_ticketsCompleted (stats s)) /\
      closeTimers s2 = closeTimers s)) /\
  (forall op a c e,
     inflight s !! op = Some (AwaitForm a c) ->
     let s2 := step cfg s (now, SendSettled op (Rejected e)) in
     registry s2 = registry s /\
     stats s2 = incr_errors (stats s) /\
     requests s2 = requests s /\
     inflight s2 = delete op (inflight s)) /\
  (forall e a t t',
     heap s !! a = Some t -> awaitingResponse t = true ->
     heap (step cfg s (now, e)) !! a = Some t' -> awaitingResponse t' = false ->
     exists op c formId,
       e = SendSettled op (Fulfilled formId) /\ inflight s !! op = Some (AwaitForm a c)) /\
  (forall e,
     ticketsCompleted (stats (step cfg s (now, e))) <> ticketsCompleted (stats s) ->
     exists op a c formId,
       e = SendSettled op (Fulfilled formId) /\ inflight s !! op = Some (AwaitForm a c)) /\
  (forall m a t c,
     ticket_of (m_channel m) s = Some (a, t) -> awaitingResponse t = false ->
     form_sends c (step cfg s (now, MessageCreate m)) = form_sends c s) /\
  (forall start evs, completion_wf (run cfg (newTicketSender start) evs)).
Proof.
  split; [|split; [|split; [|split; [|split; [|split; [|split]]]]]].
  - intros m c. apply form_sends_messageCreate.
  - intros m a t content atts Hbot Ht Haw Hc Hatts t' s1. split.
    + unfold followUpDue. by rewrite Hbot, Ht, Hc, Hatts, Haw.
    + by apply messageCreate_due.
  - intros op a c t formId Hop Ha. by apply sendSettled_form_fulfilled.
  - intros op a c e Hop. by apply (sendSettled_form_rejected now op a c).
  - intros e a t t'. apply completion_origin.
  - intros e. apply completed_count_origin.
  - intros m a t c Ht Haw. cbn [step]. rewrite form_sends_messageCreate.
    unfold followUpDue. rewrite Ht, Haw.
    destruct (negb _), (m_content m), (m_attachments m); cbn; lia.
  - intros start evs. apply cw_run, cw_new.
Qed.

End FollowUp.

(** ** Completion and closure, at the scenario *)

Module LifecycleScenarioFacts.

Import Scenario.

(** The close delay is a product of doubles: three hundredths of an hour
    are not 108000 ms. *)
Example close_delay_is_a_double_product :
  closeTimeoutMs cfg0 = 3600000%float /\
  closeTimeoutMs cfg_short = 0x1.a5dffffffffffp+16%float /\
  (closeTimeoutMs cfg_short <? 108000)%float = true.
Proof. repeat split; vm_compute; reflexivity. Qed.

(** A delay beyond 2^31 - 1 ms gives a valid date but no timeout Node
    takes: the timer is set with 1 ms. *)
Example long_close_delay_fires_at_once :
  closeTimeoutMs cfg_long = 3600000000%float /\
  valid_date (closeTime cfg_long 6) = true /\
  timerDelay (closeTimeoutMs cfg_long) = 1%float /\
  closeTimers (run cfg_long s_sending [(6, SendSettled 0 (Fulfilled "f1"))]) =
    {[ 0%nat := {| ct_channel := "c1"; ct_delay := 1%float; ct_setAt := 6 |} ]}.
Proof. repeat split; vm_compute; reflexivity. Qed.

(** The follow-up send completes the object it was issued for: after a
    second channel-created event the greeting of the new wait replaces the
    record of the channel by a fresh object, whether it is delivered
    before or after the follow-up send is fulfilled; the first object is
    completed, the record of the channel awaits a response with both
    flags false, and a later address and image issue the follow-up send
    again. *)
Example completion_of_a_replaced_record :
  requests s_replaced =
    [Send "c1" (Greeting "<@U>"); Send "c1" FormMessage; Send "c1" (Greeting "<@U>")] /\
  heap s_replaced !! 0%nat = Some {| channelId := "c1"; userTag := "<@U>"; createdAt := 3;
                                     awaitingResponse := false; hasEvmAddress := true;
                                     hasImage := true; initialMessageId := "g1";
                                     completedAt := Some 7; formMessageId := Some "f1" |} /\
  ticket_of "c1" s_replaced = Some (1%nat, ticketData 8 ch0 "<@U>" "g2") /\
  ticketsCompleted (stats s_replaced) = 1%nat /\
  form_sends "c1"
    (run cfg0 s_replaced [(9, MessageCreate m_address); (10, MessageCreate m_image)])
    = 2%nat /\
  heap s_replaced_first !! 0%nat =
    Some {| channelId := "c1"; userTag := "<@U>"; createdAt := 3;
            awaitingResponse := false; hasEvmAddress := true;
            hasImage := true; initialMessageId := "g1";
            completedAt := Some 8; formMessageId := Some "f1" |} /\
  ticket_of "c1" s_replaced_first = Some (1%nat, ticketData 7 ch0 "<@U>" "g2") /\
  form_sends "c1"
    (run cfg0 s_replaced_first [(9, MessageCreate m_address); (10, MessageCreate m_image)])
    = 2%nat.
Proof. repeat split; vm_compute; reflexivity. Qed.

(** C10, as stated, fails: after a second channel-created event for the
    channel of the completed ticket, a message on the channel causes a
    send, the greeting of the new wait, and the delivery of that greeting
    replaces the completed record by a fresh one. *)
Lemma completed_ticket_greeted_again :
  ticket_of "c1" s_recreated = Some (0%nat, t_done) /\
  awaitingResponse t_done = false /\
  requests (step cfg0 s_recreated (8, MessageCreate m_hello)) =
    requests s_recreated ++ [Send "c1" (Greeting "<@U>")] /\
  ticket_of "c1" s_regreeted = Some (1%nat, ticketData 9 ch0 "<@U>" "g2") /\
  awaitingResponse (ticketData 9 ch0 "<@U>" "g2") = true.
Proof. repeat split; vm_compute; reflexivity. Qed.

(** *** The theorems with premises, at the scenario *)

Lemma completion_iff_both_flags_and_send_fulfilled_witness :
  form_sends "c1" (step cfg0 s_address (5, MessageCreate m_image)) = 1%nat /\
  heap (step cfg0 s_address (5, MessageCreate m_image)) !! 0%nat =
    Some (merged t_address "" [png]) /\
  inflight (step cfg0 s_address (5, MessageCreate m_image)) !! 0%nat =
    Some (AwaitForm 0%nat "c1") /\
  heap (step cfg0 s_sending (6, SendSettled 0 (Fulfilled "f1"))) !! 0%nat = Some t_done /\
  closeTimers (step cfg0 s_sending (6, SendSettled 0 (Fulfilled "f1"))) = {[ 0%nat := timer0 ]} /\
  registry (step cfg0 s_sending (6, SendSettled 0 (Rejected (PlatformError "Missing Access"))))
    = registry s_sending /\
  form_sends "c1" (step cfg0 s_done (7, MessageCreate m_image)) = 1%nat /\
  completion_wf
    (run cfg0 (newTicketSender 0)
       [(1, ChannelCreate ch0); (2, MessageCreate m_hello);
        (3, SendSettled 0 (Fulfilled "g1")); (4, MessageCreate m_address);
        (5, ChannelCreate ch0); (6, MessageCreate m_image);
        (7, SendSettled 0 (Fulfilled "f1")); (8, SendSettled 1 (Fulfilled "g2"))]).
Proof.
  assert (Ht : ticket_of (m_channel m_image) s_address = Some (0%nat, t_address))
    by (vm_compute; reflexivity).
  assert (Hop : inflight s_sending !! 0%nat = Some (AwaitForm 0%nat "c1"))
    by (vm_compute; reflexivity).
  assert (Ha : heap s_sending !! 0%nat = Some (merged t_address "" [png]))
    by (vm_compute; reflexivity).
  assert (Hd : ticket_of (m_channel m_image) s_done = Some (0%nat, t_done))
    by (vm_compute; reflexivity).
  destruct (completion_iff_both_flags_and_send_fulfilled cfg0 5 s_address)
    as (Hissue & Hdue & _).
  destruct (Hdue m_image 0%nat t_address "" [png] eq_refl Ht eq_refl eq_refl eq_refl)
    as (_ & Hheap & _ & _ & _ & _ & _ & Hpark).
  destruct (completion_iff_both_flags_and_send_fulfilled cfg0 6 s_sending)
    as (_ & _ & Hful & Hrej & _).
  destruct (Hful 0%nat 0%nat "c1" _ "f1" Hop Ha) as (Hdone & _ & _ & _ & _ & Htimer & _).
  destruct (Hrej 0%nat 0%nat "c1" (PlatformError "Missing Access") Hop) as (Hreg & _).
  destruct (completion_iff_both_flags_and_send_fulfilled cfg0 7 s_done)
    as (_ & _ & _ & _ & _ & _ & Hafter & Hwf).
  split; [rewrite (Hissue m_image "c1"); vm_compute; reflexivity|].
  split; [exact Hheap|].
  split.
  { assert (Hf : fresh (dom (inflight s_address)) = 0%nat) by (vm_compute; reflexivity).
    rewrite Hf in Hpark. exact (Hpark eq_refl). }
  split; [rewrite Hdone; vm_compute; reflexivity|].
  split; [rewrite (proj2 (Htimer eq_refl)); vm_compute; reflexivity|].
  split; [exact Hreg|].
  split; [rewrite (Hafter m_image 0%nat t_done "c1" Hd eq_refl); vm_compute; reflexivity|].
  apply Hwf.
Defined.

Lemma completed_ticket_ignores_messages_witness :
  mute (foldl (fun s m => handleUserMessage cfg0 m s) s_done [m_address; m_image]) =
    mute s_done /\
  mute (run cfg0 s_done [(7, MessageCreate m_address); (8, MessageCreate m_image)]) =
    mute s_done /\
  registry (run cfg0 s_recreated [(8, MessageCreate m_address); (9, MessageCreate m_image)]) =
    registry s_recreated /\
  requests (step cfg0 s_recreated (8, MessageCreate m_hello)) =
    requests s_recreated ++ [Send "c1" (Greeting "<@U>")].
Proof.
  assert (Ht : ticket_of "c1" s_done = Some (0%nat, t_done))
    by (vm_compute; reflexivity).
  assert (Ht' : ticket_of "c1" s_recreated = Some (0%nat, t_done))
    by (vm_compute; reflexivity).
  destruct (completed_ticket_ignores_messages cfg0 s_done "c1" 0%nat t_done
              Ht eq_refl) as (H1 & H2 & _).
  destruct (completed_ticket_ignores_messages cfg0 s_recreated "c1" 0%nat t_done
              Ht' eq_refl) as (_ & _ & H3 & H4).
  split; [|split; [|split]].
  - apply (H1 [m_address; m_image]). repeat constructor.
  - apply (H2 [(7, m_address); (8, m_image)]).
    + vm_compute. constructor.
    + repeat constructor.
  - apply (H3 [(8, m_address); (9, m_image)]). repeat constructor.
  - rewrite (H4 8 m_hello eq_refl). vm_compute. reflexivity.
Defined.

End LifecycleScenarioFacts.

(** * The sheet job *)

Module SheetFacts.
Local Open Scope nat_scope.


Import Sheet.

(** ** Counting the cells of a column *)

Lemma bump_other obj k a : k <> a -> bump obj k !! a = obj !! a.
Proof.
  intros Hne. unfold bump. destruct (String.eqb k "__proto__"); [done|].
  by rewrite lookup_insert_ne.
Qed.

Lemma not_proto_eqb a : a ∉ object_prototype_keys -> String.eqb a "__proto__" = false.
Proof.
  intros H. apply String.eqb_neq. intros ->. apply H.
  unfold object_prototype_keys. set_solver.
Qed.

Lemma bump_ordinary obj a :
  a ∉ object_prototype_keys ->
  bump obj a !! a =
    Some (match obj !! a with
          | Some (Some n) => Some (S n)
          | Some None => None
          | None => Some 1%nat
          end).
Proof.
  intros H. unfold bump. rewrite (not_proto_eqb a H), lookup_insert_eq.
  rewrite bool_decide_eq_false_2 by done. done.
Qed.

Lemma bump_proto obj a :
  a ∈ object_prototype_keys ->
  (forall n, obj !! a <> Some (Some n)) -> forall n, bump obj a !! a <> Some (Some n).
Proof.
  intros H Hobj n. unfold bump. destruct (String.eqb a "__proto__"); [apply Hobj|].
  rewrite lookup_insert_eq, bool_decide_eq_true_2 by done.
  destruct (obj !! a) as [[m|]|] eqn:Ha; [by destruct (Hobj m)|done|done].
Qed.

Lemma occurrences_cons a c cells :
  occurrences a (c :: cells) =
  ((if bool_decide (c = Some a) then 1 else 0) + occurrences a cells)%nat.
Proof.
  unfold occurrences. rewrite filter_cons. case_bool_decide; by destruct (decide _).
Qed.

Lemma countInto_ordinary obj a c n :
  a <> "" -> a ∉ object_prototype_keys -> holds obj a n ->
  holds (countInto obj c) a ((if bool_decide (c = Some a) then 1 else 0) + n).
Proof.
  intros Hne Hord Hn. unfold countInto. destruct c as [b|]; [|done].
  destruct (String.eqb b "") eqn:Hb.
  { apply String.eqb_eq in Hb as ->. by rewrite bool_decide_eq_false_2 by congruence. }
  destruct (decide (b = a)) as [->|Hba].
  - rewrite bool_decide_eq_true_2 by done. cbn. rewrite bump_ordinary by done.
    destruct n as [|n]; cbn in Hn; by rewrite Hn.
  - rewrite bool_decide_eq_false_2 by congruence. cbn.
    destruct n; cbn in *; by rewrite bump_other.
Qed.

Lemma countCells_ordinary_from cells : forall obj a n,
  a <> "" -> a ∉ object_prototype_keys -> holds obj a n ->
  holds (foldl countInto obj cells) a (occurrences a cells + n).
Proof.
  induction cells as [|c cells IH]; intros obj a n Hne Hord Hn; [done|].
  cbn [foldl]. rewrite occurrences_cons.
  replace ((if bool_decide (c = Some a) then 1 else 0) + occurrences a cells + n)%nat
    with (occurrences a cells + ((if bool_decide (c = Some a) then 1 else 0) + n))%nat
    by lia.
  apply IH; [done|done|]. by apply countInto_ordinary.
Qed.

Lemma countCells_ordinary cells a :
  a <> "" -> a ∉ object_prototype_keys ->
  holds (countCells cells) a (occurrences a cells).
Proof.
  intros Hne Hord. unfold countCells.
  rewrite <- (Nat.add_0_r (occurrences a cells)).
  apply countCells_ordinary_from; [done|done|]. cbn. apply lookup_empty.
Qed.

Lemma countCells_proto_from cells : forall obj a,
  a ∈ object_prototype_keys ->
  (forall n, obj !! a <> Some (Some n)) ->
  forall n, foldl countInto obj cells !! a <> Some (Some n).
Proof.
  induction cells as [|c cells IH]; intros obj a Hp Hobj; [done|].
  cbn [foldl]. apply IH; [done|]. unfold countInto. destruct c as [b|]; [|done].
  destruct (String.eqb b ""); [done|].
  destruct (decide (b = a)) as [->|Hba]; [by apply bump_proto|].
  intros n. by rewrite bump_other.
Qed.

Lemma countCells_empty_from cells : forall obj,
  obj !! "" = None -> foldl countInto obj cells !! "" = None.
Proof.
  induction cells as [|c cells IH]; intros obj Hobj; [done|].
  cbn [foldl]. apply IH. unfold countInto. destruct c as [b|]; [|done].
  destruct (String.eqb b "") eqn:Hb; [done|].
  apply String.eqb_neq in Hb. by rewrite bump_other.
Qed.

Lemma includes_duplicateKeys obj a :
  includes (duplicateKeys obj) (Some a) = true <->
  exists n, obj !! a = Some (Some n) /\ (1 < n)%nat.
Proof.
  unfold includes, duplicateKeys. rewrite bool_decide_eq_true, list_elem_of_fmap.
  split.
  - intros ([k v] & -> & Hin). apply elem_of_map_to_list in Hin.
    apply map_lookup_filter_Some in Hin as [Hk Hv]. cbn in *.
    destruct v as [n|]; [|done]. apply bool_decide_eq_true in Hv. eauto.
  - intros (n & Ha & Hn). exists (a, Some n). split; [done|].
    apply elem_of_map_to_list, map_lookup_filter_Some. split; [done|].
    cbn. by apply bool_decide_eq_true.
Qed.

(** X10: a cell counts as a duplicate of its column exactly when it is a
    non-empty text that occurs at least twice in the column and is not the
    name of a property of Object.prototype.  The empty cell, the missing
    cell and those names (constructor, toString, __proto__ and the like)
    are never duplicates, however often they occur. *)
Theorem duplicate_iff_occurs_twice (cells : list (option string)) (x : option string) :
  includes (duplicateKeys (countCells cells)) x = true <->
  exists a, x = Some a /\ a <> "" /\ (a ∉ object_prototype_keys) /\
            (2 <= occurrences a cells)%nat.
Proof.
  destruct x as [a|]; [|split; [done|by intros (a & [=] & _)]].
  rewrite includes_duplicateKeys. split.
  - intros (n & Ha & Hn).
    destruct (decide (a = "")) as [->|Hne].
    { pose proof (countCells_empty_from cells ∅ (lookup_empty _)) as H.
      unfold countCells in Ha. congruence. }
    destruct (decide (a ∈ object_prototype_keys)) as [Hp|Hord].
    { exfalso. eapply (countCells_proto_from cells ∅ a Hp); [|exact Ha].
      intros m. by rewrite lookup_empty. }
    exists a. split; [done|]. split; [done|]. split; [done|].
    pose proof (countCells_ordinary cells a Hne Hord) as H.
    destruct (occurrences a cells) as [|k]; cbn in H; [congruence|].
    rewrite H in Ha. injection Ha as <-. lia.
  - intros (b & [= <-] & Hne & Hord & Hocc).
    pose proof (countCells_ordinary cells a Hne Hord) as H.
    destruct (occurrences a cells) as [|k] eqn:Hk; [lia|]. cbn in H.
    exists (S k). split; [done|lia].
Qed.


(** ** The rows and their colors *)

Section JobFacts.

Context {cell : Type}.
Variable isColor : cell -> color -> bool.
Variable userHasRole : nat -> option string -> bool.


Lemma withColors_Some (rows : list (list string)) (colorRows : list (list cell)) :
  forall i l, withColors i rows colorRows = Some l ->
    l.*1.*1 = seq i (length rows) /\
    Forall (fun x => rows !! (x.1.1 - i) = Some x.1.2 /\ colorRows !! x.1.1 = Some x.2 /\
                     (i <= x.1.1)%nat) l.
Proof.
  induction rows as [|row rows IH]; intros i l; cbn [withColors length seq].
  - intros [= <-]. by split.
  - destruct (colorRows !! i) as [cells|] eqn:Hi; [|done].
    destruct (withColors (S i) rows colorRows) as [l'|] eqn:Hw; [|done].
    intros [= <-]. destruct (IH _ _ Hw) as [Hseq Hall]. split.
    + cbn. by rewrite Hseq.
    + constructor.
      * cbn. by rewrite Nat.sub_diag.
      * eapply Forall_impl; [exact Hall|]. intros [[k r] c] (Hr & Hc & Hle). cbn in *.
        split; [|split; [done|lia]].
        replace (k - i)%nat with (S (k - S i)) by lia. done.
Qed.

(** ** The first pass *)

Lemma pass1_ok_step sheetId done acc x :
  pass1_ok isColor sheetId done acc ->
  pass1_ok isColor sheetId (done ++ [x]) (firstPassRow isColor sheetId acc x).
Proof.
  intros (Hseen & Hnd & Hsub & Hall & Hpush & Hrows & Hcount). destruct x as [[i row] cells].
  assert (Hall' : Forall (fun e => exists y, y ∈ done ++ [(i, row, cells)] /\
                     e = {| rowIndex := y.1.1 + 1; evmAddress := y.1.2 !! 4%nat;
                            userId := y.1.2 !! 3%nat |} /\
                     hasColoredCell isColor y.2 = false)
         (validEntriesForExport acc)).
  { eapply Forall_impl; [exact Hall|]. intros e (y & Hy & He & Hc).
    exists y. split; [|done]. apply elem_of_app. by left. }
  assert (Hpush' : Forall (fun p => exists y, y ∈ done ++ [(i, row, cells)] /\
                     p = paintCell sheetId y.1.1 3 LIGHT_ORANGE) (pushed1 acc)).
  { eapply Forall_impl; [exact Hpush|]. intros p (y & Hy & Hp).
    exists y. split; [|done]. apply elem_of_app. by left. }
  unfold firstPassRow. destruct (hasColoredCell isColor cells) eqn:Hcol.
  { split; [done|]. split; [done|]. rewrite fmap_app.
    split; [by apply sublist_inserts_r|]. split; [done|]. split; [done|].
    split; [by apply submseteq_inserts_r|done]. }
  case_bool_decide as Hin.
  { unfold pass1_ok. cbn [seenUserIds validEntriesForExport pushed1 duplicateCount].
    split; [done|]. split; [done|]. rewrite !fmap_app.
    split; [by apply sublist_inserts_r|]. split; [done|].
    split. { apply Forall_app. split; [done|]. constructor; [|constructor].
             exists (i, row, cells). split; [|done]. apply elem_of_app. right. by left. }
    split. { rewrite app_assoc. by apply submseteq_app. }
    rewrite length_app. cbn. lia. }
  unfold pass1_ok. cbn [seenUserIds validEntriesForExport pushed1 duplicateCount].
  split; [by rewrite fmap_app, Hseen|].
  split. { apply NoDup_app. split; [done|]. split; [|apply NoDup_singleton].
           intros y Hy Hy'. apply list_elem_of_singleton in Hy'. by subst. }
  rewrite !fmap_app.
  split; [by apply sublist_app|].
  split. { apply Forall_app. split; [done|]. constructor; [|constructor].
           exists (i, row, cells). split; [|done]. apply elem_of_app. right. by left. }
  split; [done|]. split; [|done].
  rewrite <- app_assoc, (Permutation_app_comm (rowIndex <$> [_])), app_assoc.
  by apply submseteq_app.
Qed.

Lemma pass1_ok_fold sheetId (l : list (nat * list string * list cell)) : forall done acc,
  pass1_ok isColor sheetId done acc ->
  pass1_ok isColor sheetId (done ++ l) (foldl (firstPassRow isColor sheetId) acc l).
Proof.
  induction l as [|x l IH]; intros done acc Hok; cbn [foldl].
  - by rewrite app_nil_r.
  - replace (done ++ x :: l) with ((done ++ [x]) ++ l) by (by rewrite <- app_assoc).
    apply IH. by apply pass1_ok_step.
Qed.

Lemma pass1_ok_firstPass sheetId l :
  pass1_ok isColor sheetId l (firstPass isColor sheetId l).
Proof.
  unfold firstPass. apply (pass1_ok_fold sheetId l []).
  split; [done|]. split; [constructor|]. split; [constructor|].
  split; [constructor|]. split; [constructor|]. split; [constructor|done].
Qed.

(** ** The export filter *)

Lemma exportOf_Some rows dupEvm dupUser (es : list entry) : forall out,
  exportOf rows dupEvm dupUser es = Some out ->
  out `sublist_of` es /\
  Forall (fun e => exportable rows dupEvm dupUser e = Some true) out.
Proof.
  induction es as [|e es IH]; intros out; cbn [exportOf].
  - intros [= <-]. split; constructor.
  - destruct (exportable rows dupEvm dupUser e) as [keep|] eqn:He; [|done].
    destruct (exportOf rows dupEvm dupUser es) as [l|] eqn:Hes; [|done].
    intros [= <-]. destruct (IH l eq_refl) as [Hsub Hall].
    destruct keep.
    + split; [by apply sublist_skip|by constructor].
    + split; [by apply sublist_cons|done].
Qed.

Lemma exportOf_total rows dupEvm dupUser (es : list entry) :
  Forall (fun e => is_Some (rows !! (rowIndex e - 1)%nat)) es ->
  is_Some (exportOf rows dupEvm dupUser es).
Proof.
  induction 1 as [|e es [row Hrow] _ [l Hl]]; cbn [exportOf]; [by eexists|].
  unfold exportable. rewrite Hrow, Hl. by eexists.
Qed.

End JobFacts.

End SheetFacts.

(** ** What the job exports *)

Module SheetJob.
Local Open Scope nat_scope.


Import Sheet SheetFacts.

Section ExportFacts.

Context {cell : Type}.
Variable isColor : cell -> color -> bool.
Variable userHasRole : nat -> option string -> bool.

Lemma occurrences_pos a (cells : list (option string)) :
  Some a ∈ cells -> (1 <= occurrences a cells)%nat.
Proof.
  intros Hin. unfold occurrences.
  assert (H : Some a ∈ filter (fun c => c = Some a) cells)
    by (by apply list_elem_of_filter).
  destruct (filter _ cells); [by apply elem_of_nil in H|cbn; lia].
Qed.

Lemma not_duplicate_once cells a :
  a <> "" -> a ∉ object_prototype_keys -> Some a ∈ cells ->
  includes (duplicateKeys (countCells cells)) (Some a) = false ->
  occurrences a cells = 1%nat.
Proof.
  intros Hne Hord Hin Hdup. pose proof (occurrences_pos a cells Hin) as Hpos.
  pose proof (countCells_ordinary cells a Hne Hord) as H.
  destruct (occurrences a cells) as [|[|k]] eqn:Hk; [lia|done|]. cbn in H.
  assert (includes (duplicateKeys (countCells cells)) (Some a) = true); [|congruence].
  apply includes_duplicateKeys. exists (S (S k)). split; [done|lia].
Qed.

(** The valid entries of the first pass, traced back to their rows. *)
Lemma valid_entries_rows sheetId rows colorRows l :
  withColors 0 rows colorRows = Some l ->
  rowIndex <$> validEntriesForExport (firstPass isColor sheetId l)
    `sublist_of` seq 1 (length rows) /\
  Forall (fun e => exists i row cells,
            rowIndex e = (i + 1)%nat /\ rows !! i = Some row /\
            colorRows !! i = Some cells /\
            evmAddress e = row !! 4%nat /\ userId e = row !! 3%nat /\
            hasColoredCell isColor cells = false)
         (validEntriesForExport (firstPass isColor sheetId l)).
Proof.
  intros Hw. destruct (withColors_Some rows colorRows 0 l Hw) as [Hseq Hrows].
  destruct (pass1_ok_firstPass isColor sheetId l) as (_ & _ & Hsub & Hall & _). split.
  - replace (seq 1 (length rows)) with ((fun x : nat * list string * list cell =>
      (x.1.1 + 1)%nat) <$> l); [done|].
    rewrite <- (fmap_S_seq 0), <- Hseq, <- !list_fmap_compose.
    apply list_fmap_ext. intros _ [[k r] c] _. cbn. lia.
  - eapply Forall_impl; [exact Hall|]. intros e ([[k r] c] & Hin & -> & Hcol). cbn in *.
    rewrite Forall_forall in Hrows. destruct (Hrows _ Hin) as (Hr & Hc & _). cbn in *.
    rewrite Nat.sub_0_r in Hr. by exists k, r, c.
Qed.

Lemma exportOf_valid sheetId rows colorRows l :
  withColors 0 rows colorRows = Some l ->
  is_Some (exportOf rows (duplicateEvm rows) (duplicateUserIds rows)
             (finalValidEntries userHasRole
                (validEntriesForExport (firstPass isColor sheetId l)))).
Proof.
  intros Hw. apply exportOf_total.
  destruct (valid_entries_rows sheetId rows colorRows l Hw) as [_ Hall].
  apply Forall_forall. intros e He. apply list_elem_of_filter in He as [_ He].
  rewrite Forall_forall in Hall. destruct (Hall e He) as (i & row & cells & Hi & Hr & _).
  rewrite Hi. replace (i + 1 - 1)%nat with i by lia. by exists row.
Qed.


(** The exported entries, traced back to their rows. *)
Lemma exported_entries sheetId rows colorRows l es :
  withColors 0 rows colorRows = Some l ->
  exported isColor userHasRole sheetId rows colorRows = Some es ->
  es `sublist_of` finalValidEntries userHasRole
                    (validEntriesForExport (firstPass isColor sheetId l)) /\
  rowIndex <$> es `sublist_of` seq 1 (length rows) /\
  Forall (fun e => exists i row cells,
            rowIndex e = (i + 1)%nat /\ rows !! i = Some row /\
            colorRows !! i = Some cells /\
            evmAddress e = row !! 4%nat /\ userId e = row !! 3%nat /\
            hasColoredCell isColor cells = false /\
            userHasRole i (row !! 3%nat) = true /\
            includes (duplicateEvm rows) (row !! 4%nat) = false /\
            includes (duplicateUserIds rows) (row !! 3%nat) = false) es.
Proof.
  intros Hw. unfold exported. rewrite Hw.
  intros Hes. destruct (exportOf_Some _ _ _ _ _ Hes) as [Hsub Hkeep].
  destruct (valid_entries_rows sheetId rows colorRows l Hw) as [Hidx Hvalid].
  assert (Hsub' : es `sublist_of` validEntriesForExport (firstPass isColor sheetId l)).
  { etransitivity; [exact Hsub|]. apply sublist_filter. }
  split; [done|].
  split. { etransitivity; [|exact Hidx]. by apply fmap_sublist. }
  apply Forall_forall. intros e He.
  assert (Hfin : e ∈ finalValidEntries userHasRole
                       (validEntriesForExport (firstPass isColor sheetId l)))
    by (eapply elem_of_sublist; eauto).
  apply list_elem_of_filter in Hfin as [Hrole Hin].
  rewrite Forall_forall in Hvalid.
  destruct (Hvalid e Hin) as (i & row & cells & Hi & Hr & Hc & Hevm & Huid & Hcol).
  rewrite Forall_forall in Hkeep. specialize (Hkeep e He).
  unfold exportable in Hkeep. rewrite Hi in Hkeep.
  replace (i + 1 - 1)%nat with i in Hkeep by lia. rewrite Hr in Hkeep.
  injection Hkeep as Hkeep. apply andb_true_iff in Hkeep as [H1 H2].
  apply negb_true_iff in H1, H2.
  unfold roleOf in Hrole. rewrite Hi, Huid in Hrole.
  replace (i + 1 - 1)%nat with i in Hrole by lia.
  by exists i, row, cells.
Qed.

(** X12: every exported entry comes from a data row, its index is the
    row's place plus one and the entries are in sheet order without
    repeats; the row has no colored cell, its user passed the role check,
    and neither its wallet address nor its user id is a duplicate of its
    column.  An exported address that is an ordinary text therefore occurs
    exactly once in column E of the whole sheet, and likewise the user id
    in column D. *)
Theorem exported_rows_are_eligible_and_unique
    (sheetId : Z) (rows : list (list string)) (colorRows : list (list cell))
    (es : list entry) :
  exported isColor userHasRole sheetId rows colorRows = Some es ->
  rowIndex <$> es `sublist_of` seq 1 (length rows) /\
  NoDup (rowIndex <$> es) /\
  Forall (fun e => exists i row cells,
            rowIndex e = (i + 1)%nat /\ rows !! i = Some row /\
            colorRows !! i = Some cells /\
            evmAddress e = row !! 4%nat /\ userId e = row !! 3%nat /\
            hasColoredCell isColor cells = false /\
            userHasRole i (row !! 3%nat) = true /\
            includes (duplicateEvm rows) (row !! 4%nat) = false /\
            includes (duplicateUserIds rows) (row !! 3%nat) = false) es /\
  (forall e a, e ∈ es -> evmAddress e = Some a -> a <> "" ->
               a ∉ object_prototype_keys -> occurrences a (columnE rows) = 1%nat) /\
  (forall e u, e ∈ es -> userId e = Some u -> u <> "" ->
               u ∉ object_prototype_keys -> occurrences u (columnD rows) = 1%nat).
Proof.
  intros Hes. assert (Hw : is_Some (withColors 0 rows colorRows)).
  { unfold exported in Hes. by destruct (withColors 0 rows colorRows). }
  destruct Hw as [l Hw].
  destruct (exported_entries sheetId rows colorRows l es Hw Hes) as (_ & Hidx & Hall).
  split; [done|]. split; [by eapply sublist_NoDup; [apply NoDup_seq|]|].
  split; [done|]. rewrite Forall_forall in Hall. split.
  - intros e a He Ha Hne Hord.
    destruct (Hall e He) as (i & row & cells & _ & Hr & _ & Hevm & _ & _ & _ & Hdup & _).
    rewrite Ha in Hevm. apply not_duplicate_once; [done|done| |rewrite Hevm; exact Hdup].
    unfold columnE. apply list_elem_of_fmap. exists row.
    split; [done|]. by eapply list_elem_of_lookup_2.
  - intros e u He Hu Hne Hord.
    destruct (Hall e He) as (i & row & cells & _ & Hr & _ & _ & Huid & _ & _ & _ & Hdup).
    rewrite Hu in Huid. apply not_duplicate_once; [done|done| |rewrite Huid; exact Hdup].
    unfold columnD. apply list_elem_of_fmap. exists row.
    split; [done|]. by eapply list_elem_of_lookup_2.
Qed.

End ExportFacts.

End SheetJob.

(** ** What the job paints *)

Module SheetPaint.
Local Open Scope nat_scope.


Import Sheet SheetFacts SheetJob.

Section PaintShapes.

Context {cell : Type}.
Variable isColor : cell -> color -> bool.
Variable userHasRole : nat -> option string -> bool.

Lemma rows_indices (rows : list (list string)) (colorRows : list (list cell)) l :
  withColors 0 rows colorRows = Some l ->
  (fun x : nat * list string * list cell => (x.1.1 + 1)%nat) <$> l = seq 1 (length rows).
Proof.
  intros Hw. destruct (withColors_Some rows colorRows 0 l Hw) as [Hseq _].
  rewrite <- (fmap_S_seq 0), <- Hseq, <- !list_fmap_compose.
  apply list_fmap_ext. intros _ [[k r] c] _. cbn. lia.
Qed.

Lemma markWallets_shape sheetId dupEvm (l : list (nat * list string * list cell)) :
  Forall (fun p => exists x, x ∈ l /\ p = paintCell sheetId x.1.1 4 LIGHT_ORANGE /\
                     includes dupEvm (x.1.2 !! 4%nat) = true)
         (markWallets isColor sheetId dupEvm l) /\
  p_startRow <$> markWallets isColor sheetId dupEvm l
    `sublist_of` (fun x => (x.1.1 + 1)%nat) <$> l.
Proof.
  induction l as [|[[i row] cells] l [IH1 IH2]]; [split; constructor|].
  assert (IH1' : Forall (fun p => exists x, x ∈ (i, row, cells) :: l /\
                     p = paintCell sheetId x.1.1 4 LIGHT_ORANGE /\
                     includes dupEvm (x.1.2 !! 4%nat) = true)
         (markWallets isColor sheetId dupEvm l)).
  { eapply Forall_impl; [exact IH1|]. intros p (y & Hy & Hp).
    exists y. split; [by right|done]. }
  unfold markWallets in *. cbn [flat_map].
  destruct (includes dupEvm (row !! 4%nat)) eqn:Hdup; cbn [andb];
    [destruct (alreadyColored isColor cells); cbn [negb]|]; cbn [app].
  - split; [done|]. rewrite fmap_cons. by apply sublist_cons.
  - split.
    + constructor; [|done]. exists (i, row, cells). split; [by left|done].
    + rewrite !fmap_cons. by apply sublist_skip.
  - split; [done|]. rewrite fmap_cons. by apply sublist_cons.
Qed.

Lemma markRoles_shape sheetId (es : list entry) :
  Forall (fun e => (1 <= rowIndex e)%nat) es ->
  Forall (fun p => exists e, e ∈ es /\ roleOf userHasRole e = false /\
                     p = paintCell sheetId (rowIndex e - 1) 3 LIGHT_RED /\
                     p_startRow p = rowIndex e)
         (markRoles userHasRole sheetId es) /\
  p_startRow <$> markRoles userHasRole sheetId es `sublist_of` rowIndex <$> es.
Proof.
  induction 1 as [|e es He _ [IH1 IH2]]; [split; constructor|].
  assert (IH1' : Forall (fun p => exists e', e' ∈ e :: es /\ roleOf userHasRole e' = false /\
                     p = paintCell sheetId (rowIndex e' - 1) 3 LIGHT_RED /\
                     p_startRow p = rowIndex e')
         (markRoles userHasRole sheetId es)).
  { eapply Forall_impl; [exact IH1|]. intros p (y & Hy & Hp).
    exists y. split; [by right|done]. }
  unfold markRoles in *. cbn [flat_map].
  destruct (roleOf userHasRole e) eqn:Hrole; cbn [app].
  - split; [done|]. rewrite fmap_cons. by apply sublist_cons.
  - split.
    + constructor; [|done]. exists e. split; [by left|].
      split; [done|]. split; [done|]. cbn. lia.
    + rewrite !fmap_cons. replace (p_startRow _) with (rowIndex e) by (cbn; lia).
      by apply sublist_skip.
Qed.

(** The requests of a run that ends without a TypeError: the orange cells
    of the duplicate wallets, those of the first pass, the red cells of
    the role check, then one request per exported row. *)
Lemma requestsOf_job sheetId rows colorRows l es :
  withColors 0 rows colorRows = Some l ->
  exported isColor userHasRole sheetId rows colorRows = Some es ->
  requestsOf (processSheetAndExport isColor userHasRole sheetId rows colorRows) =
    markWallets isColor sheetId (duplicateEvm rows) l ++
    pushed1 (firstPass isColor sheetId l) ++
    markRoles userHasRole sheetId (validEntriesForExport (firstPass isColor sheetId l)) ++
    ((fun idx => getColorRequest idx (currentExportColor isColor colorRows) sheetId)
       <$> (rowIndex <$> es)).
Proof.
  intros Hw. unfold exported, processSheetAndExport, requestsOf. rewrite Hw.
  intros ->. cbn [sent]. rewrite !flat_map_app, !length_fmap.
  assert (Hfirst : forall reqs : list paint,
    flat_map (fun a => match a with BatchUpdate r => r | _ => [] end)
      (if bool_decide (0 < length reqs)%nat then [BatchUpdate reqs] else []) = reqs).
  { intros reqs. case_bool_decide as Hlen; cbn; [by rewrite app_nil_r|].
    destruct reqs; [done|cbn in Hlen; lia]. }
  rewrite Hfirst. rewrite <- !app_assoc. f_equal. f_equal. f_equal.
  case_bool_decide as Hlen; cbn; [by rewrite app_nil_r|].
  destruct es; [done|cbn in Hlen; lia].
Qed.

Lemma lastExportColorFrom_cases (rs : list (list cell)) :
  lastExportColorFrom isColor rs = None \/
  lastExportColorFrom isColor rs = Some VERY_LIGHT_AMBER \/
  lastExportColorFrom isColor rs = Some VERY_LIGHT_BLUE.
Proof.
  induction rs as [|cells rs IH]; cbn; [by left|].
  destruct (hasAmber isColor cells); [right; by left|].
  destruct (hasBlue isColor cells); [right; by right|done].
Qed.

Lemma currentExportColor_alternates (colorRows : list (list cell)) :
  (currentExportColor isColor colorRows = VERY_LIGHT_AMBER \/
   currentExportColor isColor colorRows = VERY_LIGHT_BLUE) /\
  lastExportColor isColor colorRows <> Some (currentExportColor isColor colorRows).
Proof.
  unfold currentExportColor, lastExportColor.
  destruct (lastExportColorFrom_cases (reverse colorRows)) as [-> | [-> | ->]];
    split; try done; first [by left|by right].
Qed.

End PaintShapes.

(** ** The cells a run paints *)

Lemma cellsOf_paintCell sheetId i col c :
  cellsOf (paintCell sheetId i col c) = [((i + 1)%nat, col)].
Proof.
  unfold cellsOf, paintCell. cbn [p_startRow p_endRow p_startCol p_endCol].
  replace (i + 2 - (i + 1))%nat with 1%nat by lia.
  replace (col + 1 - col)%nat with 1%nat by lia. done.
Qed.

Lemma cellsOf_getColorRequest idx c sheetId :
  cellsOf (getColorRequest idx c sheetId) = (fun col => (idx, col)) <$> seq 0 7.
Proof.
  unfold cellsOf, getColorRequest. cbn [p_startRow p_endRow p_startCol p_endCol].
  replace (idx + 1 - idx)%nat with 1%nat by lia. cbn [seq flat_map]. by rewrite app_nil_r.
Qed.

Lemma cells_of_column col (ps : list paint) :
  Forall (fun p => cellsOf p = [(p_startRow p, col)]) ps ->
  flat_map cellsOf ps = (fun r => (r, col)) <$> (p_startRow <$> ps).
Proof.
  induction 1 as [|p ps Hp _ IH]; [done|]. cbn [flat_map]. by rewrite Hp, IH.
Qed.

Lemma cells_of_rows c sheetId (idxs : list nat) :
  flat_map cellsOf ((fun idx => getColorRequest idx c sheetId) <$> idxs) =
  flat_map (fun idx => (fun col => (idx, col)) <$> seq 0 7) idxs.
Proof.
  induction idxs as [|idx idxs IH]; [done|].
  rewrite fmap_cons. cbn [flat_map]. by rewrite IH, cellsOf_getColorRequest.
Qed.

Lemma elem_of_column (r c col : nat) (rs : list nat) :
  (r, c) ∈ (fun r => (r, col)) <$> rs <-> c = col /\ r ∈ rs.
Proof.
  rewrite list_elem_of_fmap. split.
  - intros (r' & [= -> ->] & Hin). done.
  - intros [-> Hin]. by exists r.
Qed.

Lemma elem_of_wide (r c : nat) (rs : list nat) :
  (r, c) ∈ flat_map (fun idx => (fun col => (idx, col)) <$> seq 0 7) rs <->
  r ∈ rs /\ (c < 7)%nat.
Proof.
  rewrite list_elem_of_In, in_flat_map. split.
  - intros (idx & Hidx & Hin). apply list_elem_of_In, list_elem_of_fmap in Hin
      as (col & [= -> ->] & Hcol). apply elem_of_seq in Hcol.
    split; [by apply list_elem_of_In|lia].
  - intros [Hin Hc]. exists r. split; [by apply list_elem_of_In|].
    apply list_elem_of_In, list_elem_of_fmap. exists c. split; [done|].
    apply elem_of_seq. lia.
Qed.

Lemma NoDup_column (col : nat) (rs : list nat) :
  NoDup rs -> NoDup ((fun r : nat => (r, col)) <$> rs).
Proof. apply NoDup_fmap_2. by intros ? ? [=]. Qed.

Lemma NoDup_wide (rs : list nat) :
  NoDup rs -> NoDup (flat_map (fun idx => (fun col => (idx, col)) <$> seq 0 7) rs).
Proof.
  induction 1 as [|r rs Hr _ IH]; [constructor|]. cbn [flat_map].
  apply NoDup_app. split; [|split; [|done]].
  - apply NoDup_fmap_2; [by intros ? ? [=]|apply NoDup_seq].
  - intros [r' c] Hin Hin'. apply list_elem_of_fmap in Hin as (col & [= -> ->] & _).
    apply elem_of_wide in Hin' as [Hin' _]. done.
Qed.

Section PaintFacts.

Context {cell : Type}.
Variable isColor : cell -> color -> bool.
Variable userHasRole : nat -> option string -> bool.

(** X13: every request of every batch update the job sends paints cells
    of one data row of the job's sheet, never the header row and never a row
    below the data: the first batch paints single cells, D orange or red, E
    orange; the second paints the columns A to G in the export color, which
    is amber or blue and is not the export color found last in the sheet.
    No batch update is sent without a request. *)
Theorem paint_requests_stay_in_data_rows
    (sheetId : Z) (rows : list (list string)) (colorRows : list (list cell)) :
  Forall (fun a => forall reqs, a = BatchUpdate reqs -> reqs <> [])
         (sent (processSheetAndExport isColor userHasRole sheetId rows colorRows)) /\
  Forall (fun p =>
            p_sheet p = sheetId /\
            (1 <= p_startRow p <= length rows)%nat /\
            p_endRow p = (p_startRow p + 1)%nat /\
            ((p_startCol p = 3%nat /\ p_endCol p = 4%nat /\
              (p_color p = LIGHT_ORANGE \/ p_color p = LIGHT_RED)) \/
             (p_startCol p = 4%nat /\ p_endCol p = 5%nat /\ p_color p = LIGHT_ORANGE) \/
             (p_startCol p = 0%nat /\ p_endCol p = 7%nat /\
              p_color p = currentExportColor isColor colorRows /\
              (p_color p = VERY_LIGHT_AMBER \/ p_color p = VERY_LIGHT_BLUE) /\
              lastExportColor isColor colorRows <> Some (p_color p))))
         (requestsOf (processSheetAndExport isColor userHasRole sheetId rows colorRows)).
Proof.
  split.
  { unfold processSheetAndExport.
    destruct (withColors 0 rows colorRows) as [l|]; [|constructor].
    match goal with |- context [bool_decide (0 < length ?r)%nat] =>
      assert (Hfirst : Forall (fun a => forall reqs, a = BatchUpdate reqs -> reqs <> [])
        (if bool_decide (0 < length r)%nat then [BatchUpdate r] else [])) end.
    { case_bool_decide as Hlen; [|constructor]. constructor; [|constructor].
      intros reqs [= <-] Hnil. rewrite Hnil in Hlen. cbn in Hlen. lia. }
    destruct (exportOf _ _ _ _) as [es|]; cbn [sent]; [|done].
    apply Forall_app. split; [done|]. clear Hfirst. apply Forall_app. split.
    - case_bool_decide; [|constructor]. constructor; [done|]. constructor; [done|constructor].
    - case_bool_decide as Hlen; [|constructor]. constructor; [|constructor].
      intros reqs [= <-] Hnil. apply fmap_nil_inv in Hnil.
      rewrite Hnil in Hlen. cbn in Hlen. lia. }
  destruct (withColors 0 rows colorRows) as [l|] eqn:Hw;
    [|unfold processSheetAndExport, requestsOf; rewrite Hw; constructor].
  assert (Hes : is_Some (exported isColor userHasRole sheetId rows colorRows)).
  { unfold exported. rewrite Hw. by eapply exportOf_valid. }
  destruct Hes as [es Hes]. rewrite (requestsOf_job _ _ _ _ _ l es Hw Hes).
  pose proof (rows_indices rows colorRows l Hw) as Hidx.
  assert (Hrow : forall x, x ∈ l -> (1 <= x.1.1 + 1 <= length rows)%nat).
  { intros x Hx. assert (Hin : (x.1.1 + 1)%nat ∈ seq 1 (length rows)).
    { rewrite <- Hidx. apply list_elem_of_fmap. by exists x. }
    apply elem_of_seq in Hin. lia. }
  destruct (pass1_ok_firstPass isColor sheetId l) as (_ & _ & _ & Hvalid & Hpush & _).
  assert (Hge : Forall (fun e => (1 <= rowIndex e <= length rows)%nat)
                  (validEntriesForExport (firstPass isColor sheetId l))).
  { eapply Forall_impl; [exact Hvalid|]. intros e (x & Hx & -> & _). cbn. by apply Hrow. }
  apply Forall_app. split.
  { destruct (markWallets_shape isColor sheetId (duplicateEvm rows) l) as [Hshape _].
    eapply Forall_impl; [exact Hshape|]. intros p (x & Hx & -> & _). cbn.
    split; [done|]. split; [by apply Hrow|]. split; [lia|]. right. by left. }
  apply Forall_app. split.
  { eapply Forall_impl; [exact Hpush|]. intros p (x & Hx & ->). cbn.
    split; [done|]. split; [by apply Hrow|]. split; [lia|]. left. split; [done|].
    split; [done|by left]. }
  apply Forall_app. split.
  { destruct (markRoles_shape userHasRole sheetId
                (validEntriesForExport (firstPass isColor sheetId l))) as [Hshape _].
    { eapply Forall_impl; [exact Hge|]. intros e He. cbn in He. lia. }
    rewrite Forall_forall in Hge.
    apply Forall_forall. intros p Hp. rewrite Forall_forall in Hshape.
    destruct (Hshape p Hp) as (e & He & _ & -> & Hstart). specialize (Hge e He).
    cbn in *. split; [done|]. split; [lia|]. split; [lia|]. left. split; [done|].
    split; [done|by right]. }
  destruct (exported_entries isColor userHasRole sheetId rows colorRows l es Hw Hes)
    as (_ & Hsub & _).
  destruct (currentExportColor_alternates isColor colorRows) as [Hcur Hlast].
  apply Forall_fmap, Forall_forall. intros idx Hin.
  assert (Hin' : idx ∈ seq 1 (length rows)) by (eapply elem_of_sublist; eauto).
  apply elem_of_seq in Hin'. cbn.
  split; [done|]. split; [lia|]. split; [done|]. right. right. done.
Qed.

(** X14: no cell is painted twice in one run.  The cells of all requests
    of a run are pairwise different: a row painted A to G as exported gets
    no single cell painted, and no cell D is painted both orange and red. *)
Theorem no_cell_painted_twice
    (sheetId : Z) (rows : list (list string)) (colorRows : list (list cell)) :
  NoDup (painted (processSheetAndExport isColor userHasRole sheetId rows colorRows)).
Proof.
  unfold painted.
  destruct (withColors 0 rows colorRows) as [l|] eqn:Hw;
    [|unfold processSheetAndExport, requestsOf; rewrite Hw; constructor].
  assert (Hes : is_Some (exported isColor userHasRole sheetId rows colorRows)).
  { unfold exported. rewrite Hw. by eapply exportOf_valid. }
  destruct Hes as [es Hes]. rewrite (requestsOf_job _ _ _ _ _ l es Hw Hes).
  pose proof (rows_indices rows colorRows l Hw) as Hidx.
  destruct (withColors_Some rows colorRows 0 l Hw) as [_ Hl].
  destruct (pass1_ok_firstPass isColor sheetId l)
    as (_ & _ & Hvsub & Hvalid & Hpush & Hdisj & _).
  rewrite Hidx in Hvsub, Hdisj.
  set (valid := validEntriesForExport (firstPass isColor sheetId l)) in *.
  set (pushed := pushed1 (firstPass isColor sheetId l)) in *.
  destruct (markWallets_shape isColor sheetId (duplicateEvm rows) l) as [HA HAsub].
  rewrite Hidx in HAsub.
  destruct (markRoles_shape userHasRole sheetId valid) as [HC HCsub].
  { eapply Forall_impl; [exact Hvalid|]. intros e (x & Hx & -> & _). cbn. lia. }
  destruct (exported_entries isColor userHasRole sheetId rows colorRows l es Hw Hes)
    as (Hfin & HDsub & HD).
  (* the cells of the four groups of requests *)
  rewrite !flat_map_app, cells_of_rows.
  rewrite (cells_of_column 4 (markWallets _ _ _ _)),
          (cells_of_column 3 pushed), (cells_of_column 3 (markRoles _ _ _)); cycle 1.
  { eapply Forall_impl; [exact HC|]. intros p (e & _ & _ & -> & Hstart).
    rewrite cellsOf_paintCell. by rewrite <- Hstart. }
  { eapply Forall_impl; [exact Hpush|]. intros p (x & _ & ->). by rewrite cellsOf_paintCell. }
  { eapply Forall_impl; [exact HA|]. intros p (x & _ & -> & _). by rewrite cellsOf_paintCell. }
  (* the rows of each group are different rows *)
  assert (NA : NoDup (p_startRow <$> markWallets isColor sheetId (duplicateEvm rows) l))
    by (eapply sublist_NoDup; [apply NoDup_seq|done]).
  assert (NVB : NoDup ((rowIndex <$> valid) ++ (p_startRow <$> pushed))).
  { apply submseteq_Permutation in Hdisj as [k Hk].
    assert (Hnd : NoDup (((rowIndex <$> valid) ++ (p_startRow <$> pushed)) ++ k))
      by (rewrite <- Hk; apply NoDup_seq).
    by apply NoDup_app in Hnd as [Hnd _]. }
  apply NoDup_app in NVB as (NV & HVB & NB).
  assert (NC : NoDup (p_startRow <$> markRoles userHasRole sheetId valid))
    by (eapply sublist_NoDup; [exact NV|done]).
  assert (ND : NoDup (rowIndex <$> es))
    by (eapply sublist_NoDup; [apply NoDup_seq|done]).
  assert (HDV : forall e, e ∈ es -> e ∈ valid /\ roleOf userHasRole e = true).
  { intros e He. assert (Hin : e ∈ finalValidEntries userHasRole valid)
      by (eapply elem_of_sublist; eauto).
    by apply list_elem_of_filter in Hin as [? ?]. }
  (* an entry is known by its row *)
  assert (Hinj : forall e e', e ∈ valid -> e' ∈ valid -> rowIndex e = rowIndex e' -> e = e').
  { rewrite Forall_forall in Hvalid. rewrite Forall_forall in Hl. intros e e' He He' Heq.
    destruct (Hvalid e He) as (x & Hx & -> & _).
    destruct (Hvalid e' He') as (x' & Hx' & -> & _). cbn in Heq.
    destruct (Hl x Hx) as (Hr & _). destruct (Hl x' Hx') as (Hr' & _).
    assert (Hi : x.1.1 = x'.1.1) by lia. rewrite Hi in Hr.
    assert (Hrow : x.1.2 = x'.1.2) by congruence. by rewrite Hi, Hrow. }
  apply NoDup_app. split; [by apply NoDup_column|]. split.
  { intros [r c] HinA Hin. apply elem_of_column in HinA as [-> HrA].
    apply elem_of_app in Hin as [Hin|Hin]; [by apply elem_of_column in Hin as [? _]|].
    apply elem_of_app in Hin as [Hin|Hin]; [by apply elem_of_column in Hin as [? _]|].
    apply elem_of_wide in Hin as [HrD _].
    apply list_elem_of_fmap in HrA as (p & -> & Hp).
    apply list_elem_of_fmap in HrD as (e & Hrow & He).
    rewrite Forall_forall in HA. rewrite Forall_forall in HD. rewrite Forall_forall in Hl.
    destruct (HA p Hp) as (x & Hx & -> & Hdup). cbn in Hrow.
    destruct (Hl x Hx) as (Hr & _). rewrite Nat.sub_0_r in Hr.
    destruct (HD e He) as (i & row & cells & Hi & Hr' & _ & _ & _ & _ & _ & Hnodup & _).
    assert (Hix : x.1.1 = i) by lia. rewrite Hix in Hr.
    assert (Hrows : x.1.2 = row) by congruence. rewrite Hrows in Hdup. congruence. }
  apply NoDup_app. split; [by apply NoDup_column|]. split.
  { intros [r c] HinB Hin. apply elem_of_column in HinB as [-> HrB].
    apply elem_of_app in Hin as [Hin|Hin].
    - apply elem_of_column in Hin as [_ HrC].
      apply (HVB r); [|done]. eapply elem_of_sublist; eauto.
    - apply elem_of_wide in Hin as [HrD _].
      apply (HVB r); [|done]. apply list_elem_of_fmap in HrD as (e & -> & He).
      apply list_elem_of_fmap. exists e. split; [done|]. by apply HDV. }
  apply NoDup_app. split; [by apply NoDup_column|]. split; [|by apply NoDup_wide].
  intros [r c] HinC Hin. apply elem_of_column in HinC as [-> HrC].
  apply elem_of_wide in Hin as [HrD _].
  apply list_elem_of_fmap in HrC as (p & -> & Hp).
  apply list_elem_of_fmap in HrD as (e' & Hrow & He').
  rewrite Forall_forall in HC. destruct (HC p Hp) as (e & He & Hrole & _ & Hstart).
  destruct (HDV e' He') as [Hv' Hrole'].
  assert (e = e') by (apply Hinj; [done|done|congruence]). congruence.
Qed.

End PaintFacts.

End SheetPaint.

(** * The form validator *)

Module ScriptFacts.
Local Open Scope nat_scope.


Import Detector DetectorFacts Script.

Lemma append_nil_r (s : string) : s +:+ "" = s.
Proof. induction s as [|c s IH]; [done|]. change (String c s +:+ "") with (String c (s +:+ "")). by rewrite IH. Qed.

Lemma match_all_skip s : forall k, (String.length s <= k)%nat -> match_all k s = [].
Proof.
  induction s as [|c r IH]; intros k Hk; [done|]. cbn [match_all].
  destruct k as [|k]; [cbn in Hk; lia|]. apply IH. cbn in Hk. lia.
Qed.

Lemma evmRegex_true s :
  evmRegex s = true <->
  exists h, s = "0x" +:+ h /\ String.length h = 40%nat /\ all_hex h.
Proof.
  unfold evmRegex. split.
  - destruct (evm_match_here s) as [m|] eqn:Hm; [|done].
    intros Heq. apply String.eqb_eq in Heq as ->.
    destruct (evm_match_here_Some _ _ Hm) as (h & suf & -> & _ & Hlen & Hall). by exists h.
  - intros (h & -> & Hlen & Hall).
    pose proof (evm_match_here_app h "" Hlen Hall) as Hm.
    rewrite append_nil_r in Hm. rewrite Hm. apply String.eqb_refl.
Qed.

(** X15: the validator accepts a column E text exactly when it is 0x
    followed by 40 hexadecimal characters and nothing else; the ticket bot
    detects an address in every such text, with that text as its only
    match. *)
Theorem accepted_address_is_detected (s : string) :
  (evmRegex s = true <->
   exists h, s = "0x" +:+ h /\ String.length h = 40%nat /\ all_hex h) /\
  (evmRegex s = true -> evmMatches s = Some [s] /\ hasNewEvmAddress s = true).
Proof.
  split; [apply evmRegex_true|]. intros Hs.
  assert (Hm : evm_match_here s = Some s).
  { unfold evmRegex in Hs. destruct (evm_match_here s) as [m|]; [|done].
    by apply String.eqb_eq in Hs as ->. }
  apply evmRegex_true in Hs as (h & -> & Hlen & _).
  assert (Hall : match_all 0 ("0x" +:+ h) = ["0x" +:+ h]).
  { change ("0x" +:+ h) with (String "0" (String "x" h)) in *.
    cbn [match_all]. rewrite Hm. f_equal. apply match_all_skip. cbn. lia. }
  unfold hasNewEvmAddress, evmMatches. by rewrite Hall.
Qed.

Lemma digit_run_all max : forall s,
  all_digits s -> (String.length s <= max)%nat -> digit_run max s = (String.length s, "").
Proof.
  induction max as [|max IH]; intros [|c r] Hall Hlen; cbn in Hlen; try done; [lia|].
  apply (Forall_cons (fun a => is_digit a = true)) in Hall as [Hc Hall].
  cbn [digit_run]. rewrite Hc, IH; [done|done|lia].
Qed.

Lemma digit_run_spec max : forall s n rest,
  digit_run max s = (n, rest) ->
  exists pre, s = pre +:+ rest /\ String.length pre = n /\ (n <= max)%nat /\ all_digits pre.
Proof.
  induction max as [|max IH]; intros s n rest; cbn [digit_run].
  - destruct s; intros [= <- <-]; exists ""; by repeat split; try constructor.
  - destruct s as [|c r]; [intros [= <- <-]; exists ""; by repeat split; try constructor; lia|].
    destruct (is_digit c) eqn:Hc;
      [|intros [= <- <-]; exists ""; by repeat split; try constructor; lia].
    destruct (digit_run max r) as [n' rest'] eqn:Hr. intros [= <- <-].
    destruct (IH _ _ _ Hr) as (pre & -> & Hlen & Hle & Hall).
    exists (String c pre). split; [done|]. split; [cbn; lia|]. split; [lia|].
    by apply (Forall_cons (fun a => is_digit a = true)).
Qed.

(** X16: the validator accepts a column D text exactly when it is made of
    7 to 19 decimal digits and nothing else. *)
Theorem user_id_is_7_to_19_digits (s : string) :
  dRegex s = true <-> (7 <= String.length s <= 19)%nat /\ all_digits s.
Proof.
  unfold dRegex. split.
  - destruct (digit_run 19 s) as [n rest] eqn:Hrun.
    intros H. apply andb_true_iff in H as [Hn Hrest].
    apply bool_decide_eq_true in Hn. apply String.eqb_eq in Hrest as ->.
    destruct (digit_run_spec _ _ _ _ Hrun) as (pre & -> & Hlen & Hle & Hall).
    rewrite append_nil_r. split; [lia|done].
  - intros [Hlen Hall]. rewrite digit_run_all; [|done|lia].
    apply andb_true_iff. split; [apply bool_decide_eq_true; lia|done].
Qed.

End ScriptFacts.

(** ** The run of the validator *)

Module ScriptRun.
Local Open Scope nat_scope.


Import Detector Script.

Section RunFacts.

Variable toLowerCase : string -> string.

Lemma checks_valid i row : (checks i row).2 = valid row.
Proof. done. Qed.

Lemma checks_reds i row c :
  c ∈ (checks i row).1 <->
  cr_row c = (i + 1)%nat /\
  ((cr_col c = 4%nat /\ dRegex (tested (row !! 3%nat)) = false) \/
   (cr_col c = 5%nat /\ evmRegex (tested (row !! 4%nat)) = false) \/
   (cr_col c = 6%nat /\ fValid (row !! 5%nat) = false)).
Proof.
  unfold checks. cbn [fst].
  destruct (dRegex _), (evmRegex _), (fValid _); cbn [app];
    rewrite ?elem_of_cons, ?elem_of_nil; split;
    try (intros [Hr Hc]; destruct c as [r k]; cbn in *; subst;
         destruct Hc as [[-> Hc]|[[-> Hc]|[-> Hc]]]; try done; auto);
    intros H; repeat destruct H as [->|H]; try done; cbn; auto 6.
Qed.

Lemma turn_spec i (x : list value * list string) acc :
  rowsToCopy (turn toLowerCase i x acc) =
    rowsToCopy acc ++ (if accepted toLowerCase x then [x.1] else []) /\
  marks (turn toLowerCase i x acc) =
    marks acc ++ (if accepted toLowerCase x
                  then [MarkProcessed (i + 1) (length x.1)] else []) /\
  rowsToColorRed (turn toLowerCase i x acc) =
    rowsToColorRed acc ++ (if isAlreadyColored toLowerCase x.2 then [] else (checks i x.1).1).
Proof.
  destruct x as [row bg]. unfold turn, accepted. cbn [fst snd].
  destruct (isAlreadyColored toLowerCase bg); cbn [negb andb]; [by rewrite !app_nil_r|].
  destruct (checks i row) as [reds ok] eqn:Hchecks.
  assert (Hok : valid row = ok) by (by rewrite <- (checks_valid i row), Hchecks).
  rewrite Hok. cbn [rowsToCopy marks rowsToColorRed fst].
  destruct ok; by rewrite ?app_nil_r.
Qed.

(** The loop as a whole: what it adds to the three lists. *)
Lemma loop_spec (rest : list (list value * list string)) : forall i acc,
  rowsToCopy (loop toLowerCase i rest acc) =
    rowsToCopy acc ++ (fst <$> filter (fun x => accepted toLowerCase x = true) rest) /\
  (forall e, e ∈ marks (loop toLowerCase i rest acc) <->
     e ∈ marks acc \/
     exists k row bg, rest !! k = Some (row, bg) /\ accepted toLowerCase (row, bg) = true /\
                      e = MarkProcessed (i + k + 1) (length row)) /\
  (forall c, c ∈ rowsToColorRed (loop toLowerCase i rest acc) <->
     c ∈ rowsToColorRed acc \/
     exists k row bg, rest !! k = Some (row, bg) /\ isAlreadyColored toLowerCase bg = false /\
                      c ∈ (checks (i + k) row).1).
Proof.
  induction rest as [|x rest IH]; intros i acc; cbn [loop].
  - split; [by rewrite app_nil_r|]. split; intros z; (split; [by left|]).
    + by intros [?|(k & ? & ? & ? & _)].
    + by intros [?|(k & ? & ? & ? & _)].
  - destruct (IH (S i) (turn toLowerCase i x acc)) as (Hcopy & Hmarks & Hreds).
    destruct (turn_spec i x acc) as (Tcopy & Tmarks & Treds).
    split; [|split].
    + rewrite Hcopy, Tcopy, filter_cons. rewrite <- app_assoc. f_equal.
      destruct (decide (accepted toLowerCase x = true)) as [Ha|Ha].
      * by rewrite Ha.
      * apply not_true_is_false in Ha. by rewrite Ha.
    + intros e. rewrite Hmarks, Tmarks, elem_of_app. split.
      * intros [[He|He]|(k & row & bg & Hk & Ha & ->)]; [by left| |].
        -- right. exists 0%nat, x.1, x.2. destruct x as [row bg]. cbn [fst snd] in *.
           destruct (accepted toLowerCase (row, bg)); [|by apply elem_of_nil in He].
           apply list_elem_of_singleton in He as ->.
           split; [done|]. split; [done|]. f_equal. lia.
        -- right. exists (S k), row, bg. split; [done|]. split; [done|]. f_equal. lia.
      * intros [He|([|k] & row & bg & Hk & Ha & ->)]; [by left; left| |].
        -- injection Hk as ->. left. right. rewrite Ha. cbn [fst].
           apply list_elem_of_singleton. f_equal. lia.
        -- right. exists k, row, bg. split; [done|]. split; [done|]. f_equal. lia.
    + intros c. rewrite Hreds, Treds, elem_of_app. split.
      * intros [[Hc|Hc]|(k & row & bg & Hk & Hcol & Hc)]; [by left| |].
        -- right. exists 0%nat, x.1, x.2. destruct x as [row bg]. cbn [fst snd] in *.
           destruct (isAlreadyColored toLowerCase bg); [by apply elem_of_nil in Hc|].
           split; [done|]. split; [done|]. by rewrite Nat.add_0_r.
        -- right. exists (S k), row, bg. split; [done|]. split; [done|].
           by replace (i + S k)%nat with (S i + k)%nat by lia.
      * intros [Hc|([|k] & row & bg & Hk & Hcol & Hc)]; [by left; left| |].
        -- injection Hk as ->. left. right. cbn [snd fst]. rewrite Hcol.
           by rewrite Nat.add_0_r in Hc.
        -- right. exists k, row, bg. split; [done|]. split; [done|].
           by replace (S i + k)%nat with (i + S k)%nat by lia.
Qed.

(** X17: the run copies, in sheet order, exactly the rows below the header
    that have no colored cell and pass the three checks, and appends them
    in one piece, or appends nothing when there is none; it marks as
    processed exactly those rows, over their whole width; it turns red
    exactly the failing cells D, E and F of the other rows without a
    colored cell.  The header row and the rows with a colored cell get
    nothing. *)
Theorem rows_copied_or_marked_red (grid : list (list value * list string)) :
  (forall rows, Append rows ∈ validateAndProcessFormResponses toLowerCase grid <->
                rows = fst <$> filter (fun x => accepted toLowerCase x = true) (drop 1 grid) /\
                rows <> []) /\
  (forall r w, MarkProcessed r w ∈ validateAndProcessFormResponses toLowerCase grid <->
     exists i row bg, grid !! i = Some (row, bg) /\ (1 <= i)%nat /\ r = (i + 1)%nat /\
                      w = length row /\ isAlreadyColored toLowerCase bg = false /\ valid row = true) /\
  (forall c, MarkRed c ∈ validateAndProcessFormResponses toLowerCase grid <->
     exists i row bg, grid !! i = Some (row, bg) /\ (1 <= i)%nat /\ cr_row c = (i + 1)%nat /\
                      isAlreadyColored toLowerCase bg = false /\
                      ((cr_col c = 4%nat /\ dRegex (tested (row !! 3%nat)) = false) \/
                       (cr_col c = 5%nat /\ evmRegex (tested (row !! 4%nat)) = false) \/
                       (cr_col c = 6%nat /\ fValid (row !! 5%nat) = false))).
Proof.
  set (copied := fst <$> filter (fun x => accepted toLowerCase x = true) (drop 1 grid)).
  unfold validateAndProcessFormResponses.
  set (acc0 := {| rowsToCopy := []; rowsToColorRed := []; marks := [] |}).
  destruct (loop_spec (drop 1 grid) 1 acc0) as (Hcopy & Hmarks & Hreds).
  cbn [rowsToCopy marks rowsToColorRed acc0 app] in Hcopy.
  assert (Hm : forall e, e ∈ marks (loop toLowerCase 1 (drop 1 grid) acc0) ->
                         exists r w, e = MarkProcessed r w).
  { intros e He. apply Hmarks in He as [He|(k & row & bg & _ & _ & ->)];
      [by apply elem_of_nil in He|by eexists _, _]. }
  split; [|split].
  - intros rows. rewrite !elem_of_app. split.
    + intros [He|[He|He]].
      * apply Hm in He as (? & ? & [=]).
      * by apply list_elem_of_fmap in He as (? & [=] & _).
      * case_bool_decide as Hlen; [|by apply elem_of_nil in He].
        apply list_elem_of_singleton in He as [= ->]. split; [done|].
        intros Hnil. rewrite Hnil in Hlen. cbn in Hlen. lia.
    + intros [-> Hne]. right. right. rewrite Hcopy. fold copied.
      rewrite bool_decide_true; [by left|]. destruct copied; [done|cbn; lia].
  - intros r w. rewrite !elem_of_app, Hmarks. split.
    + intros [[He|(k & row & bg & Hk & Ha & [= -> ->])]|[He|He]].
      * by apply elem_of_nil in He.
      * rewrite lookup_drop in Hk. apply andb_true_iff in Ha as [Hcol Hv].
        apply negb_true_iff in Hcol. exists (1 + k)%nat, row, bg. cbn [fst snd] in *.
        split; [done|]. split; [lia|]. split; [lia|done].
      * by apply list_elem_of_fmap in He as (? & [=] & _).
      * case_bool_decide; [|by apply elem_of_nil in He].
        by apply list_elem_of_singleton in He.
    + intros (i & row & bg & Hi & Hge & -> & -> & Hcol & Hv). left. right.
      exists (i - 1)%nat, row, bg. rewrite lookup_drop.
      replace (1 + (i - 1))%nat with i by lia. split; [done|].
      split; [unfold accepted; cbn [fst snd]; by rewrite Hcol, Hv|]. f_equal; lia.
  - intros c. rewrite !elem_of_app. split.
    + intros [He|[He|He]].
      * apply Hm in He as (? & ? & [=]).
      * apply list_elem_of_fmap in He as (c' & [= <-] & Hc).
        apply Hreds in Hc as [Hc|(k & row & bg & Hk & Hcol & Hc)];
          [by apply elem_of_nil in Hc|].
        rewrite lookup_drop in Hk. apply checks_reds in Hc as [Hrow Hcell].
        exists (1 + k)%nat, row, bg. split; [done|]. split; [lia|]. split; [lia|done].
      * case_bool_decide; [|by apply elem_of_nil in He].
        by apply list_elem_of_singleton in He.
    + intros (i & row & bg & Hi & Hge & Hrow & Hcol & Hcell). right. left.
      apply list_elem_of_fmap. exists c. split; [done|]. apply Hreds. right.
      exists (i - 1)%nat, row, bg. rewrite lookup_drop.
      replace (1 + (i - 1))%nat with i by lia. split; [done|]. split; [done|].
      apply checks_reds. split; [lia|done].
Qed.

(** ** A second run *)

Lemma colored_iff (bgRow : list string) :
  isAlreadyColored toLowerCase bgRow = true <->
  exists j bg, bgRow !! j = Some bg /\ isAlreadyColored toLowerCase [bg] = true.
Proof.
  unfold isAlreadyColored. rewrite existsb_exists. split.
  - intros (bg & Hin & Hbg). apply list_elem_of_In, list_elem_of_lookup in Hin as [j Hj].
    exists j, bg. split; [done|]. cbn. by rewrite Hbg.
  - intros (j & bg & Hj & Hbg). exists bg. split.
    + apply list_elem_of_In. by eapply list_elem_of_lookup_2.
    + cbn in Hbg. by rewrite orb_false_r in Hbg.
Qed.

Lemma setCells_lookup from w c (bgRow : list string) j bg :
  bgRow !! j = Some bg ->
  setCells from w c bgRow !! j =
    Some (if bool_decide (from <= j < from + w)%nat then c else bg).
Proof. intros Hj. unfold setCells. by rewrite list_lookup_imap, Hj. Qed.

Lemma setCells_length from w c (bgRow : list string) :
  length (setCells from w c bgRow) = length bgRow.
Proof. unfold setCells. by rewrite length_imap. Qed.

Lemma setCells_keeps from w c (bgRow : list string) :
  isAlreadyColored toLowerCase [c] = true ->
  isAlreadyColored toLowerCase bgRow = true ->
  isAlreadyColored toLowerCase (setCells from w c bgRow) = true.
Proof.
  intros Hc Hbg. apply colored_iff in Hbg as (j & bg & Hj & Hbg). apply colored_iff.
  eexists j, _. split; [by apply setCells_lookup|]. by case_bool_decide.
Qed.

Lemma setCells_colors from w c (bgRow : list string) :
  isAlreadyColored toLowerCase [c] = true ->
  (from < length bgRow)%nat -> (0 < w)%nat ->
  isAlreadyColored toLowerCase (setCells from w c bgRow) = true.
Proof.
  intros Hc Hfrom Hw. destruct (lookup_lt_is_Some_2 bgRow from Hfrom) as [bg Hbg].
  apply colored_iff. eexists from, _. split; [by apply setCells_lookup|].
  rewrite bool_decide_true; [done|lia].
Qed.

Section Shown.

Variable red marked : string.
Hypothesis Hred : isAlreadyColored toLowerCase [red] = true.
Hypothesis Hmarked : isAlreadyColored toLowerCase [marked] = true.

Lemma shows_lookup e (grid : list (list value * list string)) j x :
  grid !! j = Some x ->
  exists x', shows red marked e grid !! j = Some x' /\ x'.1 = x.1 /\
             length x'.2 = length x.2 /\
             (isAlreadyColored toLowerCase x.2 = true ->
              isAlreadyColored toLowerCase x'.2 = true) /\
             (hits e j (length x.2) -> isAlreadyColored toLowerCase x'.2 = true).
Proof.
  intros Hj. destruct e as [r w|c|rows]; cbn [shows hits].
  - destruct (decide ((r - 1)%nat = j)) as [<-|Hne].
    + rewrite list_lookup_alter_eq, Hj. cbn. eexists. split; [done|]. cbn.
      split; [done|]. split; [apply setCells_length|].
      split; [by apply setCells_keeps|]. intros (_ & Hw & Hwidth). by apply setCells_colors.
    + rewrite list_lookup_alter_ne by done. exists x. split; [done|].
      split; [done|]. split; [done|]. split; [done|]. by intros [? _].
  - destruct (decide ((cr_row c - 1)%nat = j)) as [<-|Hne].
    + rewrite list_lookup_alter_eq, Hj. cbn. eexists. split; [done|]. cbn.
      split; [done|]. split; [apply setCells_length|].
      split; [by apply setCells_keeps|]. intros (_ & Hwidth). apply setCells_colors; [done|done|lia].
    + rewrite list_lookup_alter_ne by done. exists x. split; [done|].
      split; [done|]. split; [done|]. split; [done|]. by intros [? _].
  - exists x. by repeat split.
Qed.

Lemma after_lookup (effects : list effect) : forall (grid : list (list value * list string)) j x,
  grid !! j = Some x ->
  exists x', after red marked effects grid !! j = Some x' /\ x'.1 = x.1 /\
             length x'.2 = length x.2 /\
             (isAlreadyColored toLowerCase x.2 = true ->
              isAlreadyColored toLowerCase x'.2 = true) /\
             ((exists e, e ∈ effects /\ hits e j (length x.2)) ->
              isAlreadyColored toLowerCase x'.2 = true).
Proof.
  induction effects as [|e effects IH]; intros grid j x Hj; unfold after; cbn [foldl].
  - exists x. repeat split; try done. by intros (e & He & _); apply elem_of_nil in He.
  - destruct (shows_lookup e grid j x Hj) as (x1 & Hj1 & Hv1 & Hlen1 & Hkeep1 & Hhit1).
    destruct (IH _ _ _ Hj1) as (x' & Hj' & Hv' & Hlen' & Hkeep' & Hhit').
    exists x'. split; [done|]. split; [congruence|]. split; [congruence|].
    split; [by intros ?; apply Hkeep', Hkeep1|].
    intros (e' & He' & Hhits). apply elem_of_cons in He' as [->|He'].
    + by apply Hkeep', Hhit1.
    + apply Hhit'. exists e'. split; [done|]. by rewrite Hlen1.
Qed.

Lemma after_length (effects : list effect) : forall (grid : list (list value * list string)),
  length (after red marked effects grid) = length grid.
Proof.
  induction effects as [|e effects IH]; intros grid; unfold after; cbn [foldl]; [done|].
  etransitivity; [apply IH|]. destruct e; cbn [shows]; by rewrite ?length_alter.
Qed.

Lemma loop_all_colored (rest : list (list value * list string)) : forall i acc,
  Forall (fun x => isAlreadyColored toLowerCase x.2 = true) rest ->
  loop toLowerCase i rest acc = acc.
Proof.
  induction rest as [|[row bg] rest IH]; intros i acc Hall; cbn [loop]; [done|].
  apply Forall_cons in Hall as [Hx Hall]. cbn [snd] in Hx.
  unfold turn. rewrite Hx. by apply IH.
Qed.

(** X18: a second run on the sheet the first run left behind does
    nothing, provided the two colors the script sets are read back as
    colors other than white and light gray and the data range has at least
    the six columns A to F: every row below the header then has a colored
    cell, so no row is copied twice and no cell is set again. *)
Theorem second_run_does_nothing (grid : list (list value * list string)) :
  Forall (fun x => (6 <= length x.2)%nat) (drop 1 grid) ->
  validateAndProcessFormResponses toLowerCase
    (after red marked (validateAndProcessFormResponses toLowerCase grid) grid) = [].
Proof.
  intros Hwide.
  set (effects := validateAndProcessFormResponses toLowerCase grid).
  assert (Hall : Forall (fun x => isAlreadyColored toLowerCase x.2 = true)
                   (drop 1 (after red marked effects grid))).
  { apply Forall_lookup. intros k x' Hk. rewrite lookup_drop in Hk.
    assert (Hlt : (1 + k < length grid)%nat).
    { rewrite <- (after_length effects grid). by eapply lookup_lt_Some. }
    destruct (lookup_lt_is_Some_2 grid _ Hlt) as [[row bg] Hx].
    destruct (after_lookup effects grid _ _ Hx) as (x'' & Hx'' & _ & _ & Hkeep & Hhit).
    assert (x'' = x') as -> by congruence. cbn [fst snd] in *.
    destruct (isAlreadyColored toLowerCase bg) eqn:Hcol; [by apply Hkeep|].
    apply Hhit. clear Hkeep Hhit Hx'' Hk.
    assert (Hwidth : (6 <= length bg)%nat).
    { rewrite Forall_lookup in Hwide. apply (Hwide k (row, bg)). by rewrite lookup_drop. }
    set (acc0 := {| rowsToCopy := []; rowsToColorRed := []; marks := [] |}).
    destruct (loop_spec (drop 1 grid) 1 acc0) as (_ & Hmarks & Hreds).
    assert (Hrest : drop 1 grid !! k = Some (row, bg)) by (by rewrite lookup_drop).
    subst effects. unfold validateAndProcessFormResponses. fold acc0.
    destruct (valid row) eqn:Hvalid.
    - exists (MarkProcessed (1 + k + 1) (length row)). split.
      + apply elem_of_app. left. apply Hmarks. right. exists k, row, bg.
        split; [done|]. split; [|done]. unfold accepted. cbn [fst snd]. by rewrite Hcol, Hvalid.
      + cbn [hits]. split; [lia|]. split; [|lia].
        unfold valid in Hvalid. apply andb_true_iff in Hvalid as [_ Hf].
        unfold fValid in Hf. destruct (row !! 5%nat) eqn:H5; [|done].
        apply lookup_lt_Some in H5. lia.
    - assert (Hc : exists col, (4 <= col <= 6)%nat /\
                {| cr_row := 1 + k + 1; cr_col := col |} ∈ (checks (1 + k) row).1).
      { unfold valid in Hvalid.
        destruct (dRegex (tested (row !! 3%nat))) eqn:Hd; cycle 1.
        { exists 4%nat. split; [lia|]. apply checks_reds. cbn. split; [done|]. by left. }
        destruct (evmRegex (tested (row !! 4%nat))) eqn:He; cycle 1.
        { exists 5%nat. split; [lia|]. apply checks_reds. cbn. split; [done|]. right. by left. }
        cbn [andb] in Hvalid.
        exists 6%nat. split; [lia|]. apply checks_reds. cbn. split; [done|]. right. by right. }
      destruct Hc as (col & Hcol' & Hc).
      exists (MarkRed {| cr_row := 1 + k + 1; cr_col := col |}). split.
      + apply elem_of_app. right. apply elem_of_app. left.
        apply list_elem_of_fmap. eexists. split; [done|]. apply Hreds. right.
        by exists k, row, bg.
      + cbn [hits cr_row cr_col]. split; lia. }
  unfold validateAndProcessFormResponses at 1.
  rewrite (loop_all_colored _ _ _ Hall). done.
Qed.

End Shown.

End RunFacts.

End ScriptRun.

(** ** The concrete statements of the sheet job and of the validator *)

Module SheetScenarioFacts.
Local Open Scope nat_scope.


Import Sheet SheetScenario Script ScriptScenario.

Lemma exported_rows_are_eligible_and_unique_witness :
  exported isC role0 77 rows0 colors0 = Some exported0 /\
  rowIndex <$> exported0 `sublist_of` seq 1 (length rows0) /\
  NoDup (rowIndex <$> exported0) /\
  occurrences "0xD" (columnE rows0) = 1%nat /\
  occurrences "u6" (columnD rows0) = 1%nat.
Proof.
  assert (Hes : exported isC role0 77 rows0 colors0 = Some exported0)
    by (vm_compute; reflexivity).
  destruct (SheetJob.exported_rows_are_eligible_and_unique isC role0 77 rows0 colors0
              exported0 Hes) as (Hsub & Hnd & _ & Hevm & Huid).
  split; [exact Hes|]. split; [exact Hsub|]. split; [exact Hnd|]. split.
  - apply (Hevm {| rowIndex := 5; evmAddress := Some "0xD"; userId := Some "u4" |});
      [by left|done|done|]. apply (bool_decide_unpack _). vm_compute. exact I.
  - apply (Huid {| rowIndex := 7; evmAddress := Some "0xF"; userId := Some "u6" |});
      [by right; left|done|done|]. apply (bool_decide_unpack _). vm_compute. exact I.
Defined.

Lemma second_run_does_nothing_witness :
  isAlreadyColored lower ["#ff0000"] = true /\
  isAlreadyColored lower ["#d9e1f2"] = true /\
  Forall (fun x => (6 <= length x.2)%nat) (drop 1 grid0) /\
  validateAndProcessFormResponses lower grid0 =
    [ MarkProcessed 2 6;
      MarkRed {| cr_row := 3; cr_col := 4 |}; MarkRed {| cr_row := 3; cr_col := 5 |};
      MarkRed {| cr_row := 3; cr_col := 6 |};
      Append [ [Str "t1"; Str "n1"; Str "m1"; NotStr "123456789012345678";
                Str "0xABCDEF0123456789ABCDEF0123456789ABCDEF01"; Str "I'm a human"] ] ] /\
  validateAndProcessFormResponses lower
    (after "#ff0000" "#d9e1f2" (validateAndProcessFormResponses lower grid0) grid0) = [].
Proof.
  assert (Hwide : Forall (fun x : list value * list string => (6 <= length x.2)%nat)
                    (drop 1 grid0))
    by (repeat constructor).
  split; [reflexivity|]. split; [reflexivity|]. split; [exact Hwide|].
  split; [vm_compute; reflexivity|].
  exact (ScriptRun.second_run_does_nothing lower "#ff0000" "#d9e1f2"
           eq_refl eq_refl grid0 Hwide).
Defined.

End SheetScenarioFacts.
